(** * Tipenso: sound de-duplication gate and playback-state reconciler

    A shallow embedding of the JavaScript sources

    - [src/sounds/windowsXPSounds.js]  (the global [window.soundManager],
      [setupWindowsSounds] and its click / mutation handlers),
    - [src/sounds/SoundManager.js]     (the [SoundManager] class),
    - [src/visualizer.js]              (the [Visualizer] and
      [ModalVisualizer] classes, their event system, the page controls,
      the start of the visualizer, the page-load preference restore and
      the [SoundManager] class bundled at the end of the file),
    - [src/sounds/fetchSounds.js]      (the sound download script),

    together with the properties of the specification that concern them
    and further properties read off the code.

    Conventions.  A DOM element is addressed by a handle (its index in the
    list of elements the scripts look at); a [dataset] entry is an
    [option string] ([None] is JavaScript's [undefined]); [setTimeout]
    appends an entry to an explicit timer queue which [advance] drains in
    deadline order; every [Audio] element that is started is appended to the
    [played] log. *)

From Stdlib Require Import ZArith QArith Reals Lra Lia Ascii String List.
From stdpp Require Import base list strings gmap pretty.

Local Open Scope string_scope.
Local Open Scope Z_scope.
Set Warnings "-register-all".

(* ===================================================================== *)
(** * Part I: the sound layer                                             *)
(* ===================================================================== *)

Module Sound.

(** ** Elements and their [dataset] *)

Abbreviation handle := nat.

Record WindowEl := mkEl {
  el_id : string;
  el_classes : list string;                  (* classList *)
  el_display : string;                       (* style.display *)
  ds_initialWindow : option string;          (* dataset.initialWindow *)
  ds_soundPlayed : option string;            (* dataset.soundPlayed *)
  ds_closingInProgress : option string;      (* dataset.closingInProgress *)
  ds_criticalSoundPlayed : option string     (* dataset.criticalSoundPlayed *)
}.

Definition set_initialWindow (s : string) (e : WindowEl) : WindowEl :=
  mkEl (el_id e) (el_classes e) (el_display e)
       (Some s) (ds_soundPlayed e) (ds_closingInProgress e)
       (ds_criticalSoundPlayed e).

Definition set_soundPlayed (s : string) (e : WindowEl) : WindowEl :=
  mkEl (el_id e) (el_classes e) (el_display e)
       (ds_initialWindow e) (Some s) (ds_closingInProgress e)
       (ds_criticalSoundPlayed e).

Definition set_closingInProgress (s : string) (e : WindowEl) : WindowEl :=
  mkEl (el_id e) (el_classes e) (el_display e)
       (ds_initialWindow e) (ds_soundPlayed e) (Some s)
       (ds_criticalSoundPlayed e).

Definition set_criticalSoundPlayed (s : string) (e : WindowEl) : WindowEl :=
  mkEl (el_id e) (el_classes e) (el_display e)
       (ds_initialWindow e) (ds_soundPlayed e) (ds_closingInProgress e)
       (Some s).

Definition set_classes (cl : list string) (e : WindowEl) : WindowEl :=
  mkEl (el_id e) cl (el_display e)
       (ds_initialWindow e) (ds_soundPlayed e) (ds_closingInProgress e)
       (ds_criticalSoundPlayed e).

Definition set_display (d : string) (e : WindowEl) : WindowEl :=
  mkEl (el_id e) (el_classes e) d
       (ds_initialWindow e) (ds_soundPlayed e) (ds_closingInProgress e)
       (ds_criticalSoundPlayed e).

(** [x === 'true'] on a dataset entry. *)
Definition is_true_attr (v : option string) : bool :=
  bool_decide (v = Some "true").

(** Truthiness of a dataset entry ([undefined] and [''] are falsy). *)
Definition attr_truthy (v : option string) : bool :=
  match v with
  | Some s => negb (bool_decide (s = ""))
  | None => false
  end.

Definition has_class (c : string) (e : WindowEl) : bool :=
  bool_decide (c ∈ el_classes e).

(** An element as the page source declares it: no [data-*] entry yet. *)
Definition fresh_el (id : string) (cl : list string) (d : string) : WindowEl :=
  mkEl id cl d None None None None.

Definition blank_el : WindowEl := fresh_el "" [] "".

(** ** Timers, audio and the global state *)

(** The two sound managers: the object literal [window.soundManager] of
    windowsXPSounds.js and the [SoundManager] instance of SoundManager.js. *)
Inductive owner := XP | SM.

(** The closures handed to [setTimeout]. *)
Inductive timer_action :=
| TClearClosingXP (h : handle)    (* playSoundForWindow: closingInProgress = '' *)
| TClearClosingSM (h : handle)    (* playForWindow: closingInProgress, criticalSoundPlayed = '' *)
| TClearSoundPlayed (h : handle)  (* soundPlayed = '' *)
| TDeleteActiveXP (id : string)   (* soundManager.activeWindows.delete(id) *)
| TDeleteActiveSM (id : string)   (* this.activeWindows.delete(id) *)
| TResetCloseFlags                (* close handler: both flags back to false *)
| TResetControlAction             (* recentWindowControlAction = false *)
| TInitialReset.                  (* setupWindowsSounds: the 3000ms reset *)

Record World := mkWorld {
  now : Z;                                   (* milliseconds *)
  dom : list WindowEl;
  xp_installed : bool;                       (* window.soundManager is defined *)
  xp_enabled : bool;                         (* window.soundManager.enabled *)
  xp_active : gset string;                   (* window.soundManager.activeWindows *)
  sm_enabled : bool;                         (* SoundManager: this.enabled *)
  sm_active : gset string;                   (* SoundManager: this.activeWindows *)
  preventAllSounds : bool;                   (* window.preventAllSounds *)
  recentWindowControlAction : bool;
  lastSoundWindow : option string;           (* null or a window id *)
  timers : list (Z * timer_action);          (* pending, in insertion order *)
  audio_throws : owner -> string -> Q -> bool; (* does starting this Audio throw *)
  played : list (owner * string * Q)         (* Audio elements started so far *)
}.

Definition set_now (t : Z) (w : World) : World :=
  mkWorld t (dom w) (xp_installed w) (xp_enabled w) (xp_active w)
          (sm_enabled w) (sm_active w) (preventAllSounds w)
          (recentWindowControlAction w) (lastSoundWindow w) (timers w)
          (audio_throws w) (played w).

Definition set_dom (d : list WindowEl) (w : World) : World :=
  mkWorld (now w) d (xp_installed w) (xp_enabled w) (xp_active w)
          (sm_enabled w) (sm_active w) (preventAllSounds w)
          (recentWindowControlAction w) (lastSoundWindow w) (timers w)
          (audio_throws w) (played w).

Definition set_xp_enabled (b : bool) (w : World) : World :=
  mkWorld (now w) (dom w) (xp_installed w) b (xp_active w)
          (sm_enabled w) (sm_active w) (preventAllSounds w)
          (recentWindowControlAction w) (lastSoundWindow w) (timers w)
          (audio_throws w) (played w).

Definition set_xp_active (s : gset string) (w : World) : World :=
  mkWorld (now w) (dom w) (xp_installed w) (xp_enabled w) s
          (sm_enabled w) (sm_active w) (preventAllSounds w)
          (recentWindowControlAction w) (lastSoundWindow w) (timers w)
          (audio_throws w) (played w).

Definition set_sm_enabled (b : bool) (w : World) : World :=
  mkWorld (now w) (dom w) (xp_installed w) (xp_enabled w) (xp_active w)
          b (sm_active w) (preventAllSounds w)
          (recentWindowControlAction w) (lastSoundWindow w) (timers w)
          (audio_throws w) (played w).

Definition set_sm_active (s : gset string) (w : World) : World :=
  mkWorld (now w) (dom w) (xp_installed w) (xp_enabled w) (xp_active w)
          (sm_enabled w) s (preventAllSounds w)
          (recentWindowControlAction w) (lastSoundWindow w) (timers w)
          (audio_throws w) (played w).

Definition set_prevent (b : bool) (w : World) : World :=
  mkWorld (now w) (dom w) (xp_installed w) (xp_enabled w) (xp_active w)
          (sm_enabled w) (sm_active w) b
          (recentWindowControlAction w) (lastSoundWindow w) (timers w)
          (audio_throws w) (played w).

Definition set_recent (b : bool) (w : World) : World :=
  mkWorld (now w) (dom w) (xp_installed w) (xp_enabled w) (xp_active w)
          (sm_enabled w) (sm_active w) (preventAllSounds w)
          b (lastSoundWindow w) (timers w)
          (audio_throws w) (played w).

Definition set_lastSoundWindow (l : option string) (w : World) : World :=
  mkWorld (now w) (dom w) (xp_installed w) (xp_enabled w) (xp_active w)
          (sm_enabled w) (sm_active w) (preventAllSounds w)
          (recentWindowControlAction w) l (timers w)
          (audio_throws w) (played w).

Definition set_timers (l : list (Z * timer_action)) (w : World) : World :=
  mkWorld (now w) (dom w) (xp_installed w) (xp_enabled w) (xp_active w)
          (sm_enabled w) (sm_active w) (preventAllSounds w)
          (recentWindowControlAction w) (lastSoundWindow w) l
          (audio_throws w) (played w).

Definition set_played (l : list (owner * string * Q)) (w : World) : World :=
  mkWorld (now w) (dom w) (xp_installed w) (xp_enabled w) (xp_active w)
          (sm_enabled w) (sm_active w) (preventAllSounds w)
          (recentWindowControlAction w) (lastSoundWindow w) (timers w)
          (audio_throws w) l.

(** The element behind a handle, and an in-place update of it. *)
Definition el (w : World) (h : handle) : WindowEl :=
  default blank_el (dom w !! h).

Definition upd (h : handle) (f : WindowEl -> WindowEl) (w : World) : World :=
  set_dom (alter f h (dom w)) w.

(** [setTimeout(a, delay)]. *)
Definition add_timer (delay : Z) (a : timer_action) (w : World) : World :=
  set_timers (timers w ++ [(now w + Z.max 0 delay, a)]) w.

(** ** The sound tables *)

(** [sounds] of windowsXPSounds.js. *)
Definition xp_sounds : list string :=
  ["error"; "critical"; "exclamation"; "ding"; "notify"; "minimize"; "tada"].

(** [soundFiles] of SoundManager.init. *)
Definition sm_sounds : list string :=
  ["startup"; "shutdown"; "error"; "exclamation"; "ding"; "notify";
   "windowOpen"; "windowClose"; "maximize"; "minimize"; "click"; "navigate";
   "critical"; "mediaPlay"; "mediaPause"; "mediaStop"; "mediaNext";
   "mediaPrev"; "logon"; "logoff"; "recycle"; "restore"; "balloon";
   "question"; "hardwareInsert"; "hardwareRemove"].

Definition has_sound (tbl : list string) (name : string) : bool :=
  bool_decide (name ∈ tbl).

(** The [try { sound.pause(); ...; sound.play() ...; return true }
    catch { return false }] block shared by both [play] functions. *)
Definition audio_start (o : owner) (name : string) (vol : Q) (w : World)
  : World * bool :=
  if audio_throws w o name vol then (w, false)
  else (set_played (played w ++ [(o, name, vol)]) w, true).

(** ** windowsXPSounds.js: [window.soundManager] *)

Definition xp_play_sound (name : string) (vol : Q) (w : World) : World * bool :=
  if has_sound xp_sounds name then audio_start XP name vol w else (w, false).

Definition xp_play (name : string) (vol : Q) (w : World) : World * bool :=
  if negb (xp_enabled w) || preventAllSounds w then
    if preventAllSounds w && negb (bool_decide (name = "critical")) then
      (w, false)
    else if negb (xp_enabled w) then (w, false)
    else xp_play_sound name vol w
  else xp_play_sound name vol w.

Definition xp_addActiveWindow (id : string) (w : World) : World :=
  add_timer 1000 (TDeleteActiveXP id) (set_xp_active ({[id]} ∪ xp_active w) w).

Definition xp_isWindowActive (id : string) (w : World) : bool :=
  bool_decide (id ∈ xp_active w).

(** ** SoundManager.js: the class instance *)

Definition sm_play (name : string) (vol : Q) (w : World) : World * bool :=
  if negb (sm_enabled w) then (w, false)
  else if xp_installed w && has_sound xp_sounds name then xp_play name vol w
  else if negb (has_sound sm_sounds name) then (w, false)
  else audio_start SM name vol w.

Definition sm_addActiveWindow (id : string) (w : World) : World :=
  if bool_decide (id = "") then w
  else add_timer 1000 (TDeleteActiveSM id)
                 (set_sm_active ({[id]} ∪ sm_active w) w).

Definition sm_isWindowActive (id : string) (w : World) : bool :=
  negb (bool_decide (id = "")) && bool_decide (id ∈ sm_active w).

(** ** windowsXPSounds.js: [playSoundForWindow] (closure of setupWindowsSounds) *)

(** Both close gates start alike: drop the initial-window marker and a
    stale [soundPlayed]. *)
Definition forget_initial (h : handle) (w : World) : World :=
  let w1 := upd h (set_initialWindow "") w in
  if is_true_attr (ds_soundPlayed (el w1 h))
  then upd h (set_soundPlayed "") w1 else w1.

(** The [if (soundName === 'critical') { ... }] block.  The boolean tells
    whether control falls through ([false]: the function returned [false]). *)
Definition xp_critical_gate (h : handle) (w : World) : World * bool :=
  let w2 := forget_initial h w in
  if is_true_attr (ds_closingInProgress (el w2 h)) then (w2, false)
  else
    let w3 := upd h (set_closingInProgress "true") w2 in
    (add_timer 1500 (TClearClosingXP h) w3, true).

(** The rest of the function, from the [isWindowActive] test on. *)
Definition xp_play_and_mark (h : handle) (name : string) (vol : Q)
    (duration : Z) (w1 : World) : World * bool :=
  let id := el_id (el w1 h) in
  if negb (bool_decide (id = "")) && xp_isWindowActive id w1
     && negb (bool_decide (name = "critical"))
  then (w1, false)
  else
    let '(w2, result) := xp_play name vol w1 in
    let w3 := if negb (bool_decide (id = ""))
              then set_lastSoundWindow (Some id) (xp_addActiveWindow id w2)
              else w2 in
    let w4 := upd h (set_soundPlayed "true") w3 in
    (add_timer duration (TClearSoundPlayed h) w4, result).

Definition playSoundForWindow (h : handle) (name : string) (vol : Q)
    (duration : Z) (w : World) : World * bool :=
  let '(w1, go) := if bool_decide (name = "critical")
                   then xp_critical_gate h w else (w, true) in
  if negb go then (w1, false)
  else xp_play_and_mark h name vol duration w1.

(** ** SoundManager.js: [playForWindow] *)

(** The [if (soundName === 'windowClose' || soundName === 'critical')] block. *)
Definition sm_close_gate (h : handle) (name : string) (w : World)
  : World * bool :=
  let w2 := forget_initial h w in
  if is_true_attr (ds_closingInProgress (el w2 h)) then (w2, false)
  else if xp_installed w2 && bool_decide (name = "windowClose")
          && is_true_attr (ds_criticalSoundPlayed (el w2 h))
  then (w2, false)
  else
    let w3 := upd h (set_closingInProgress "true") w2 in
    let w4 := if bool_decide (name = "critical")
              then upd h (set_criticalSoundPlayed "true") w3 else w3 in
    (add_timer 1500 (TClearClosingSM h) w4, true).

Definition is_close_name (name : string) : bool :=
  bool_decide (name = "windowClose") || bool_decide (name = "critical").

(** The rest of the method, from the [isWindowActive] test on. *)
Definition sm_play_and_mark (h : handle) (name : string) (vol : Q)
    (duration : Z) (w1 : World) : World * bool :=
  let id := el_id (el w1 h) in
  if sm_isWindowActive id w1 && negb (is_close_name name)
  then (w1, false)
  else
    let '(w2, result) := sm_play name vol w1 in
    let w3 := sm_addActiveWindow id w2 in
    let w4 := upd h (set_soundPlayed "true") w3 in
    (add_timer duration (TClearSoundPlayed h) w4, result).

(** [windowElement] is [None] for a [null] / [undefined] argument. *)
Definition playForWindow (oh : option handle) (name : string) (vol : Q)
    (duration : Z) (w : World) : World * bool :=
  match oh with
  | None => sm_play name vol w
  | Some h =>
    let '(w1, go) := if is_close_name name
                     then sm_close_gate h name w else (w, true) in
    if negb go then (w1, false)
    else sm_play_and_mark h name vol duration w1
  end.

(** ** windowsXPSounds.js: the handlers installed by [setupWindowsSounds] *)

(** Close button. *)
Definition close_click (h : handle) (w : World) : World :=
  let w1 := if is_true_attr (ds_initialWindow (el w h))
            then upd h (fun e => set_soundPlayed "" (set_initialWindow "" e)) w
            else w in
  let w2 := set_prevent true (set_recent true w1) in
  let w3 := fst (playSoundForWindow h "critical" 0.6 2000 w2) in
  add_timer 1000 TResetCloseFlags w3.

(** Maximize and minimize buttons differ in the sound only. *)
Definition control_click (name : string) (h : handle) (w : World) : World :=
  let w1 := set_recent true (upd h (set_initialWindow "") w) in
  let w2 := fst (playSoundForWindow h name 0.6 1000 w1) in
  add_timer 500 TResetControlAction w2.

Definition maximize_click : handle -> World -> World := control_click "exclamation".
Definition minimize_click : handle -> World -> World := control_click "minimize".

(** [handleIconClick] and the task-bar buttons: [target] is the element
    found by [getElementById], if any. *)
Definition icon_click (target : option handle) (name : string) (w : World)
  : World :=
  let w1 := set_recent true w in
  let w2 := match target with
            | Some h =>
              let w' := if is_true_attr (ds_initialWindow (el w1 h))
                        then upd h (set_initialWindow "") w1 else w1 in
              fst (playSoundForWindow h name 0.6 1000 w')
            | None => fst (xp_play name 0.6 w1)
            end in
  add_timer 500 TResetControlAction w2.

(** One record of the window [MutationObserver] (a [style] or [class]
    attribute mutation whose target is the element [h]). *)
Definition observe_one (h : handle) (w : World) : World :=
  let e := el w h in
  if preventAllSounds w then w
  else if bool_decide (lastSoundWindow w = Some (el_id e)) then w
  else if negb (bool_decide (el_id e = "")) && xp_isWindowActive (el_id e) w
  then w
  else if has_class "window" e && negb (has_class "minimized" e)
          && negb (bool_decide (el_display e = "none"))
          && negb (attr_truthy (ds_soundPlayed e))
  then
    if is_true_attr (ds_initialWindow e) then
      add_timer 800 (TClearSoundPlayed h)
        (upd h (fun e => set_soundPlayed "true" (set_initialWindow "" e)) w)
    else fst (playSoundForWindow h "notify" 0.6 800 w)
  else w.

(** The observer callback on a batch of mutation records. *)
Definition observer (ms : list handle) (w : World) : World :=
  if recentWindowControlAction w || preventAllSounds w then w
  else foldl (fun w h => observe_one h w) w ms.

(** ** [setupWindowsSounds]: marking the windows visible at load *)

Definition mark_initial (e : WindowEl) : WindowEl :=
  if has_class "window" e && negb (has_class "minimized" e)
     && negb (bool_decide (el_display e = "none"))
  then set_initialWindow "true" (set_soundPlayed "true" e)
  else e.

Definition setupWindowsSounds (w : World) : World :=
  add_timer 3000 TInitialReset (set_dom (map mark_initial (dom w)) w).

(** [querySelectorAll('.window[data-initial-window="true"]')], in document
    order. *)
Definition matches_initial (l : list WindowEl) (h : handle) : bool :=
  match l !! h with
  | Some e => has_class "window" e && is_true_attr (ds_initialWindow e)
  | None => false
  end.

Definition initial_handles (l : list WindowEl) : list handle :=
  List.filter (matches_initial l) (seq 0 (length l)).

(** ** Timer callbacks and the passage of time *)

(** The body of the 3000ms callback's [forEach]. *)
Definition reset_step (w : World) (h : handle) : World :=
  add_timer 500 (TClearSoundPlayed h) (upd h (set_initialWindow "") w).

Definition fire (a : timer_action) (w : World) : World :=
  match a with
  | TClearClosingXP h => upd h (set_closingInProgress "") w
  | TClearClosingSM h =>
      upd h (fun e => set_criticalSoundPlayed "" (set_closingInProgress "" e)) w
  | TClearSoundPlayed h => upd h (set_soundPlayed "") w
  | TDeleteActiveXP id => set_xp_active (xp_active w ∖ {[id]}) w
  | TDeleteActiveSM id => set_sm_active (sm_active w ∖ {[id]}) w
  | TResetCloseFlags => set_prevent false (set_recent false w)
  | TResetControlAction => set_recent false w
  | TInitialReset => foldl reset_step w (initial_handles (dom w))
  end.

(** The pending timer that fires next: the earliest deadline, and among
    equal deadlines the one registered first.  Returned with the rest of the
    queue. *)
Fixpoint next_timer (l : list (Z * timer_action))
  : option ((Z * timer_action) * list (Z * timer_action)) :=
  match l with
  | [] => None
  | t :: rest =>
    match next_timer rest with
    | None => Some (t, [])
    | Some (t', rest') =>
      if (fst t <=? fst t')%Z then Some (t, rest) else Some (t', t :: rest')
    end
  end.

(** Run the timers that are due by time [T], each at its deadline. *)
Fixpoint run_timers (fuel : nat) (T : Z) (w : World) : World :=
  match fuel with
  | O => w
  | S fuel' =>
    match next_timer (timers w) with
    | None => w
    | Some ((d, a), rest) =>
      if (d <=? T)%Z
      then run_timers fuel' T (fire a (set_timers rest (set_now (Z.max (now w) d) w)))
      else w
    end
  end.

(** A callback registers at most one new timer per element, and only
    [TInitialReset] registers any: this bounds the number of callbacks that
    can run. *)
Definition timer_weight (n : nat) (t : Z * timer_action) : nat :=
  match snd t with
  | TInitialReset => S n
  | _ => 1%nat
  end.

Definition timers_weight (n : nat) (l : list (Z * timer_action)) : nat :=
  list_sum (map (timer_weight n) l).

Definition timer_fuel (w : World) : nat :=
  timers_weight (length (dom w)) (timers w).

(** [dt] milliseconds pass. *)
Definition advance (dt : Z) (w : World) : World :=
  let T := now w + Z.max 0 dt in
  set_now T (run_timers (timer_fuel w) T w).

(** ** Events *)

Inductive event :=
| Advance (dt : Z)
| CloseClick (h : handle)
| MaximizeClick (h : handle)
| MinimizeClick (h : handle)
| IconClick (target : option handle) (name : string)
| Observer (ms : list handle)
| XPPlay (name : string) (vol : Q)
| XPSetEnabled (b : bool)
| SMPlayForWindow (oh : option handle) (name : string) (vol : Q) (duration : Z)
| SMPlay (name : string) (vol : Q)
| SMSetEnabled (b : bool)
| DomSetClasses (h : handle) (cl : list string)
| DomSetDisplay (h : handle) (d : string).

(** The handlers of windowsXPSounds.js exist only where that script ran. *)
Definition handle_event (ev : event) (w : World) : World :=
  match ev with
  | Advance dt => advance dt w
  | CloseClick h => if xp_installed w then close_click h w else w
  | MaximizeClick h => if xp_installed w then maximize_click h w else w
  | MinimizeClick h => if xp_installed w then minimize_click h w else w
  | IconClick t n => if xp_installed w then icon_click t n w else w
  | Observer ms => if xp_installed w then observer ms w else w
  | XPPlay n v => if xp_installed w then fst (xp_play n v w) else w
  | XPSetEnabled b => if xp_installed w then set_xp_enabled b w else w
  | SMPlayForWindow oh n v d => fst (playForWindow oh n v d w)
  | SMPlay n v => fst (sm_play n v w)
  | SMSetEnabled b => set_sm_enabled b w
  | DomSetClasses h cl => upd h (set_classes cl) w
  | DomSetDisplay h d => upd h (set_display d) w
  end.

Definition run (evs : list event) (w : World) : World :=
  foldl (fun w ev => handle_event ev w) w evs.

(** The page over the elements [els] (given by id, class list and
    [style.display]) before any script ran: managers enabled, nothing
    played.  [installed] tells whether windowsXPSounds.js is on the page. *)
Definition page (installed : bool) (els : list (string * list string * string))
    (throws : owner -> string -> Q -> bool) : World :=
  mkWorld 0 (map (fun '(id, cl, d) => fresh_el id cl d) els)
          installed true ∅ true ∅ false false None [] throws [].

(** ... and after the scripts ran: with windowsXPSounds.js the initial
    windows are marked and the reset timer is pending. *)
Definition init_world (installed : bool)
    (els : list (string * list string * string))
    (throws : owner -> string -> Q -> bool) : World :=
  if installed then setupWindowsSounds (page true els throws)
  else page false els throws.

Definition never_throws : owner -> string -> Q -> bool := fun _ _ _ => false.

(** ** Notions used by the statements *)

Definition closing (w : World) (h : handle) : bool :=
  is_true_attr (ds_closingInProgress (el w h)).

Definition critical_played (w : World) (h : handle) : bool :=
  is_true_attr (ds_criticalSoundPlayed (el w h)).

Definition initial_marked (w : World) (h : handle) : bool :=
  is_true_attr (ds_initialWindow (el w h)).

(** Does the callback clear [closingInProgress] of [h]? *)
Definition clears (h : handle) (t : Z * timer_action) : bool :=
  match snd t with
  | TClearClosingXP h' | TClearClosingSM h' => bool_decide (h = h')
  | _ => false
  end.

Definition clears_xp (h : handle) (t : Z * timer_action) : bool :=
  match snd t with
  | TClearClosingXP h' => bool_decide (h = h')
  | _ => false
  end.

Definition count_timers (p : Z * timer_action -> bool)
    (l : list (Z * timer_action)) : nat :=
  length (List.filter p l).

(** The invariant of the close gate: a window that is not closing has no
    pending clear callback; a closing one has at most one; the critical
    marker is only set on closing windows, and never while the pending
    callback is the one of windowsXPSounds.js (which would leave it set). *)
Definition gate_inv (w : World) : Prop :=
  forall h, (h < length (dom w))%nat ->
    (closing w h = false -> count_timers (clears h) (timers w) = 0%nat) /\
    (count_timers (clears h) (timers w) <= 1)%nat /\
    (critical_played w h = true -> closing w h = true) /\
    (critical_played w h = true -> count_timers (clears_xp h) (timers w) = 0%nat).

(** A request for the close sound of window [h], by either manager. *)
Inductive close_request :=
| ReqXP (vol : Q) (duration : Z)          (* playSoundForWindow(h, 'critical', ..) *)
| ReqSMCritical (vol : Q) (duration : Z)  (* playForWindow(h, 'critical', ..) *)
| ReqSMClose (vol : Q) (duration : Z).    (* playForWindow(h, 'windowClose', ..) *)

Definition request (h : handle) (r : close_request) (w : World)
  : World * bool :=
  match r with
  | ReqXP v d => playSoundForWindow h "critical" v d w
  | ReqSMCritical v d => playForWindow (Some h) "critical" v d w
  | ReqSMClose v d => playForWindow (Some h) "windowClose" v d w
  end.

(** Further requests, each after a delay. *)
Fixpoint burst (h : handle) (rs : list (Z * close_request)) (w : World)
  : World * list bool :=
  match rs with
  | [] => (w, [])
  | (dt, r) :: rest =>
    let '(w1, b) := request h r (advance dt w) in
    let '(w2, bs) := burst h rest w1 in
    (w2, b :: bs)
  end.

Definition elapsed (rs : list (Z * close_request)) : Z :=
  foldr (fun x acc => Z.max 0 (fst x) + acc) 0 rs.

Definition is_clear (a : timer_action) : bool :=
  match a with
  | TClearClosingXP _ | TClearClosingSM _ => true
  | _ => false
  end.

(** The pending callbacks that clear some [closingInProgress]. *)
Definition clear_part (l : list (Z * timer_action)) : list (Z * timer_action) :=
  List.filter (fun t => is_clear (snd t)) l.

(** Two worlds that agree on everything the close gate looks at. *)
Definition same_gate (w w' : World) : Prop :=
  length (dom w') = length (dom w) /\
  (forall h, closing w' h = closing w h /\
             critical_played w' h = critical_played w h) /\
  clear_part (timers w') = clear_part (timers w).

Definition keeps_gate_flags (f : WindowEl -> WindowEl) : Prop :=
  forall e, ds_closingInProgress (f e) = ds_closingInProgress e /\
            ds_criticalSoundPlayed (f e) = ds_criticalSoundPlayed e.

(** Window [h] is closing and stays so until time [D] at least. *)
Definition closing_until (D : Z) (h : handle) (w : World) : Prop :=
  closing w h = true /\
  forall t, t ∈ timers w -> clears h t = true -> D <= fst t.

(** Nothing was played and no time passed between [w] and [w']. *)
Definition quiet (w w' : World) : Prop :=
  played w' = played w /\ now w' = now w.

(** Two worlds with the same clock, switches and audio behaviour. *)
Definition same_env (w w' : World) : Prop :=
  now w' = now w /\ xp_installed w' = xp_installed w /\
  xp_enabled w' = xp_enabled w /\ sm_enabled w' = sm_enabled w /\
  preventAllSounds w' = preventAllSounds w /\
  recentWindowControlAction w' = recentWindowControlAction w /\
  audio_throws w' = audio_throws w.

Definition is_reset (t : Z * timer_action) : bool :=
  match snd t with
  | TInitialReset => true
  | _ => false
  end.

(** The three stages of a window that was visible at load: marked; the
    initial marker dropped and the [soundPlayed] cleanup pending; clean. *)
Definition initial_stage (h : handle) (w : World) : Prop :=
  (ds_initialWindow (el w h) = Some "true" /\
   ds_soundPlayed (el w h) = Some "true" /\
   count_timers is_reset (timers w) = 1%nat /\ now w <= 3000)
  \/
  (ds_initialWindow (el w h) = Some "" /\
   ds_soundPlayed (el w h) = Some "true" /\
   count_timers is_reset (timers w) = 0%nat /\
   (3500, TClearSoundPlayed h) ∈ timers w)
  \/
  (ds_initialWindow (el w h) = Some "" /\
   ds_soundPlayed (el w h) = Some "" /\
   count_timers is_reset (timers w) = 0%nat /\ 3500 <= now w).

(** A page on which nothing happened since load but the passage of time,
    seen from the window [h] with identity [id], classes [cl] and display
    [d]. *)
Record idle (throws : owner -> string -> Q -> bool) (h : handle)
    (id : string) (cl : list string) (d : string) (w : World) : Prop := {
  idle_played : played w = [];
  idle_enabled : xp_enabled w = true;
  idle_prevent : preventAllSounds w = false;
  idle_recent : recentWindowControlAction w = false;
  idle_last : lastSoundWindow w = None;
  idle_active : xp_active w = ∅;
  idle_throws : audio_throws w = throws;
  idle_valid : (h < length (dom w))%nat;
  idle_id : el_id (el w h) = id;
  idle_classes : el_classes (el w h) = cl;
  idle_display : el_display (el w h) = d;
  idle_timers : forall t, t ∈ timers w ->
    t = (3000, TInitialReset) \/ exists h', t = (3500, TClearSoundPlayed h');
  idle_stage : initial_stage h w
}.

(** No timer is due at time [T]. *)
Definition none_due (T : Z) (w : World) : Prop :=
  forall d a, (d, a) ∈ timers w -> T < d.

End Sound.

(* ===================================================================== *)
(** * Part II: the visualizer                                             *)
(* ===================================================================== *)

Module Viz.

(** ** JavaScript values *)

(** The values that reach the playback code: message payloads, controller
    event data and the [isPlaying] field itself (which the code assigns
    without checking its type). *)
Inductive jsval :=
| JUndefined
| JNull
| JBool (b : bool)
| JNum (n : Z)
| JStr (s : string)
| JObj (fields : list (string * jsval)).

(** ToBoolean. *)
Definition truthy (v : jsval) : bool :=
  match v with
  | JUndefined | JNull => false
  | JBool b => b
  | JNum n => negb (n =? 0)%Z
  | JStr s => negb (bool_decide (s = ""))
  | JObj _ => true
  end.

Fixpoint assoc (k : string) (l : list (string * jsval)) : jsval :=
  match l with
  | [] => JUndefined
  | (k', v) :: r => if bool_decide (k = k') then v else assoc k r
  end.

(** [v.k]: a TypeError ([None]) on [undefined] and [null], [undefined] for
    a missing property. *)
Definition get_prop (v : jsval) (k : string) : option jsval :=
  match v with
  | JUndefined | JNull => None
  | JObj fs => Some (assoc k fs)
  | _ => Some JUndefined
  end.

(** [v && typeof v === 'object']. *)
Definition is_object (v : jsval) : bool :=
  match v with
  | JObj _ => true
  | _ => false
  end.

(** [a === b]; two objects are distinct references. *)
Definition strict_eq (a b : jsval) : bool :=
  match a, b with
  | JUndefined, JUndefined => true
  | JNull, JNull => true
  | JBool x, JBool y => bool_decide (x = y)
  | JNum x, JNum y => (x =? y)%Z
  | JStr x, JStr y => bool_decide (x = y)
  | _, _ => false
  end.

(** [s.includes(sub)]. *)
Fixpoint includes (sub s : string) : bool :=
  String.prefix sub s
  || match s with
     | EmptyString => false
     | String _ s' => includes sub s'
     end.

(** ** [parseInt(s)] with no radix, and [n.toString()] *)

Definition is_space (c : Ascii.ascii) : bool :=
  let n := Ascii.nat_of_ascii c in
  ((9 <=? n) && (n <=? 13) || (n =? 32))%nat.

Fixpoint skip_spaces (s : string) : string :=
  match s with
  | String c r => if is_space c then skip_spaces r else s
  | EmptyString => s
  end.

Definition digit_value (radix : Z) (c : Ascii.ascii) : option Z :=
  let n := Z.of_nat (Ascii.nat_of_ascii c) in
  let d := if (48 <=? n) && (n <=? 57) then Some (n - 48)
           else if (97 <=? n) && (n <=? 122) then Some (n - 87)
           else if (65 <=? n) && (n <=? 90) then Some (n - 55)
           else None in
  match d with
  | Some k => if k <? radix then Some k else None
  | None => None
  end.

(** The longest prefix of digits, accumulated; [None] when there is none. *)
Fixpoint parse_digits (radix : Z) (acc : option Z) (s : string) : option Z :=
  match s with
  | String c r =>
    match digit_value radix c with
    | Some k => parse_digits radix (Some (default 0 acc * radix + k)) r
    | None => acc
    end
  | EmptyString => acc
  end.

Definition strip_hex_prefix (s : string) : option string :=
  match s with
  | String "0"%char (String "x"%char r) => Some r
  | String "0"%char (String "X"%char r) => Some r
  | _ => None
  end.

(** [None] is [NaN]. *)
Definition parseInt (s : string) : option Z :=
  let s1 := skip_spaces s in
  let '(sign, s2) := match s1 with
                     | String "-"%char r => (-1, r)
                     | String "+"%char r => (1, r)
                     | _ => (1, s1)
                     end in
  let mag := match strip_hex_prefix s2 with
             | Some r => parse_digits 16 None r
             | None => parse_digits 10 None s2
             end in
  (fun m => sign * m) <$> mag.

Definition toString (n : Z) : string := pretty n.

(** ** The page state *)

(** [localStorage]; a [broken] store throws on every access. *)
Record Storage := mkStorage {
  items : gmap string string;
  broken : bool
}.

(** The uniforms of the shader material. [None] as a number is [NaN]. *)
Record Uniforms := mkUniforms {
  iTime : R;
  iIntensity : option R;
  iKaleidoscopePattern : Z
}.

(** The embed controller, as far as [togglePlayback] sees it: which of its
    commands throw. *)
Record Controller := mkController {
  play_throws : bool;      (* playFromClickEvent() *)
  pause_throws : bool;     (* pause() *)
  toggle_throws : bool     (* toggle() *)
}.

(** The iframe found by ['#spotify-embed-iframe iframe']. *)
Record Iframe := mkIframe {
  postMessage_throws : bool
}.

(** The [ModalVisualizer] fields the playback code touches. *)
Record Modal := mkModal {
  m_isPlaying : jsval;
  m_isInitialized : bool;
  m_init_throws : bool      (* something inside initialize()'s try throws *)
}.

Record Visualizer := mkViz {
  isPlaying : jsval;
  intensity : R;
  visualizationIntensity : option R;       (* [None] is [undefined] *)
  kaleidoscopePattern : Z;
  material : option Uniforms;              (* a material that has uniforms *)
  spotifyController : option Controller;
  embedFrame : option Iframe;
  modalVisualizer : option Modal;
  listeners : list bool;                   (* 'playback-update' callbacks; [true]: it throws *)
  delivered : list (nat * jsval);          (* callback invocations: listener, data.isPlaying *)
  commands : list string;                  (* commands that reached the player *)
  pendingClicks : nat;                     (* pending 100ms simulated clicks *)
  heuristicsReady : bool;                  (* setupDirectIframeListeners found the iframe *)
  lastIframeClickTime : Z;
  lastPlaybackState : jsval;
  pendingChecks : nat;                     (* scheduled getPlaybackState checks *)
  localStorage : Storage
}.


(** Field updates ([this.f = x]). *)
Definition set_isPlaying (x : jsval) (v : Visualizer) : Visualizer :=
  mkViz x (intensity v) (visualizationIntensity v) (kaleidoscopePattern v)
       (material v) (spotifyController v) (embedFrame v) (modalVisualizer v)
       (listeners v) (delivered v) (commands v) (pendingClicks v)
       (heuristicsReady v) (lastIframeClickTime v) (lastPlaybackState v)
       (pendingChecks v) (localStorage v).

Definition set_intensity (x : R) (v : Visualizer) : Visualizer :=
  mkViz (isPlaying v) x (visualizationIntensity v) (kaleidoscopePattern v)
       (material v) (spotifyController v) (embedFrame v) (modalVisualizer v)
       (listeners v) (delivered v) (commands v) (pendingClicks v)
       (heuristicsReady v) (lastIframeClickTime v) (lastPlaybackState v)
       (pendingChecks v) (localStorage v).

Definition set_visualizationIntensity (x : option R) (v : Visualizer) : Visualizer :=
  mkViz (isPlaying v) (intensity v) x (kaleidoscopePattern v) (material v)
       (spotifyController v) (embedFrame v) (modalVisualizer v)
       (listeners v) (delivered v) (commands v) (pendingClicks v)
       (heuristicsReady v) (lastIframeClickTime v) (lastPlaybackState v)
       (pendingChecks v) (localStorage v).

Definition set_kaleidoscopePattern (x : Z) (v : Visualizer) : Visualizer :=
  mkViz (isPlaying v) (intensity v) (visualizationIntensity v) x
       (material v) (spotifyController v) (embedFrame v) (modalVisualizer v)
       (listeners v) (delivered v) (commands v) (pendingClicks v)
       (heuristicsReady v) (lastIframeClickTime v) (lastPlaybackState v)
       (pendingChecks v) (localStorage v).

Definition set_material (x : option Uniforms) (v : Visualizer) : Visualizer :=
  mkViz (isPlaying v) (intensity v) (visualizationIntensity v)
       (kaleidoscopePattern v) x (spotifyController v) (embedFrame v)
       (modalVisualizer v) (listeners v) (delivered v) (commands v)
       (pendingClicks v) (heuristicsReady v) (lastIframeClickTime v)
       (lastPlaybackState v) (pendingChecks v) (localStorage v).

Definition set_spotifyController (x : option Controller) (v : Visualizer) : Visualizer :=
  mkViz (isPlaying v) (intensity v) (visualizationIntensity v)
       (kaleidoscopePattern v) (material v) x (embedFrame v)
       (modalVisualizer v) (listeners v) (delivered v) (commands v)
       (pendingClicks v) (heuristicsReady v) (lastIframeClickTime v)
       (lastPlaybackState v) (pendingChecks v) (localStorage v).

Definition set_embedFrame (x : option Iframe) (v : Visualizer) : Visualizer :=
  mkViz (isPlaying v) (intensity v) (visualizationIntensity v)
       (kaleidoscopePattern v) (material v) (spotifyController v) x
       (modalVisualizer v) (listeners v) (delivered v) (commands v)
       (pendingClicks v) (heuristicsReady v) (lastIframeClickTime v)
       (lastPlaybackState v) (pendingChecks v) (localStorage v).

Definition set_modalVisualizer (x : option Modal) (v : Visualizer) : Visualizer :=
  mkViz (isPlaying v) (intensity v) (visualizationIntensity v)
       (kaleidoscopePattern v) (material v) (spotifyController v)
       (embedFrame v) x (listeners v) (delivered v) (commands v)
       (pendingClicks v) (heuristicsReady v) (lastIframeClickTime v)
       (lastPlaybackState v) (pendingChecks v) (localStorage v).

Definition set_listeners (x : list bool) (v : Visualizer) : Visualizer :=
  mkViz (isPlaying v) (intensity v) (visualizationIntensity v)
       (kaleidoscopePattern v) (material v) (spotifyController v)
       (embedFrame v) (modalVisualizer v) x (delivered v) (commands v)
       (pendingClicks v) (heuristicsReady v) (lastIframeClickTime v)
       (lastPlaybackState v) (pendingChecks v) (localStorage v).

Definition set_delivered (x : list (nat * jsval)) (v : Visualizer) : Visualizer :=
  mkViz (isPlaying v) (intensity v) (visualizationIntensity v)
       (kaleidoscopePattern v) (material v) (spotifyController v)
       (embedFrame v) (modalVisualizer v) (listeners v) x (commands v)
       (pendingClicks v) (heuristicsReady v) (lastIframeClickTime v)
       (lastPlaybackState v) (pendingChecks v) (localStorage v).

Definition set_commands (x : list string) (v : Visualizer) : Visualizer :=
  mkViz (isPlaying v) (intensity v) (visualizationIntensity v)
       (kaleidoscopePattern v) (material v) (spotifyController v)
       (embedFrame v) (modalVisualizer v) (listeners v) (delivered v) x
       (pendingClicks v) (heuristicsReady v) (lastIframeClickTime v)
       (lastPlaybackState v) (pendingChecks v) (localStorage v).

Definition set_pendingClicks (x : nat) (v : Visualizer) : Visualizer :=
  mkViz (isPlaying v) (intensity v) (visualizationIntensity v)
       (kaleidoscopePattern v) (material v) (spotifyController v)
       (embedFrame v) (modalVisualizer v) (listeners v) (delivered v)
       (commands v) x (heuristicsReady v) (lastIframeClickTime v)
       (lastPlaybackState v) (pendingChecks v) (localStorage v).

Definition set_heuristicsReady (x : bool) (v : Visualizer) : Visualizer :=
  mkViz (isPlaying v) (intensity v) (visualizationIntensity v)
       (kaleidoscopePattern v) (material v) (spotifyController v)
       (embedFrame v) (modalVisualizer v) (listeners v) (delivered v)
       (commands v) (pendingClicks v) x (lastIframeClickTime v)
       (lastPlaybackState v) (pendingChecks v) (localStorage v).

Definition set_lastIframeClickTime (x : Z) (v : Visualizer) : Visualizer :=
  mkViz (isPlaying v) (intensity v) (visualizationIntensity v)
       (kaleidoscopePattern v) (material v) (spotifyController v)
       (embedFrame v) (modalVisualizer v) (listeners v) (delivered v)
       (commands v) (pendingClicks v) (heuristicsReady v) x
       (lastPlaybackState v) (pendingChecks v) (localStorage v).

Definition set_lastPlaybackState (x : jsval) (v : Visualizer) : Visualizer :=
  mkViz (isPlaying v) (intensity v) (visualizationIntensity v)
       (kaleidoscopePattern v) (material v) (spotifyController v)
       (embedFrame v) (modalVisualizer v) (listeners v) (delivered v)
       (commands v) (pendingClicks v) (heuristicsReady v)
       (lastIframeClickTime v) x (pendingChecks v) (localStorage v).

Definition set_pendingChecks (x : nat) (v : Visualizer) : Visualizer :=
  mkViz (isPlaying v) (intensity v) (visualizationIntensity v)
       (kaleidoscopePattern v) (material v) (spotifyController v)
       (embedFrame v) (modalVisualizer v) (listeners v) (delivered v)
       (commands v) (pendingClicks v) (heuristicsReady v)
       (lastIframeClickTime v) (lastPlaybackState v) x (localStorage v).

Definition set_localStorage (x : Storage) (v : Visualizer) : Visualizer :=
  mkViz (isPlaying v) (intensity v) (visualizationIntensity v)
       (kaleidoscopePattern v) (material v) (spotifyController v)
       (embedFrame v) (modalVisualizer v) (listeners v) (delivered v)
       (commands v) (pendingClicks v) (heuristicsReady v)
       (lastIframeClickTime v) (lastPlaybackState v) (pendingChecks v) x.

(** ** Exceptions

    A computation on the page state either returns or throws; [try_catch]
    is [try { body } catch (e) { handler }]. *)

Inductive result (A : Type) :=
| Ok (a : A) (v : Visualizer)
| Throw (v : Visualizer).
Arguments Ok {A} a v.
Arguments Throw {A} v.

Definition M (A : Type) : Type := Visualizer -> result A.

Definition ret {A} (a : A) : M A := fun v => Ok a v.

Definition bind {A B} (m : M A) (k : A -> M B) : M B :=
  fun v => match m v with
           | Ok a v' => k a v'
           | Throw v' => Throw v'
           end.

Definition throw {A} : M A := fun v => Throw v.

Definition try_catch {A} (body handler : M A) : M A :=
  fun v => match body v with
           | Ok a v' => Ok a v'
           | Throw v' => handler v'
           end.

Definition modify (f : Visualizer -> Visualizer) : M unit :=
  fun v => Ok tt (f v).

Definition when {A} (b : bool) (m : M A) (a : A) : M A :=
  if b then m else ret a.

Notation "x <- m ;; k" := (bind m (fun x => k))
  (at level 100, m at next level, right associativity).
Notation "m ;;; k" := (bind m (fun _ => k))
  (at level 100, right associativity).

(** The page state a computation ends in, returned or thrown. *)
Definition state_of {A} (r : result A) : Visualizer :=
  match r with
  | Ok _ v => v
  | Throw v => v
  end.

Definition returns {A} (r : result A) : bool :=
  match r with
  | Ok _ _ => true
  | Throw _ => false
  end.

(** ** Event dispatch and the status update *)

(** One callback of [dispatchEvent]'s [forEach], inside its [try]. *)
Definition call_listener (i : nat) (throws : bool) (data : jsval) : M unit :=
  modify (fun v => set_delivered (delivered v ++ [(i, data)]) v) ;;;
  (if throws then throw else ret tt).

Fixpoint notify_from (i : nat) (ls : list bool) (data : jsval) : M unit :=
  match ls with
  | [] => ret tt
  | l :: rest =>
    try_catch (call_listener i l data) (ret tt) ;;;
    notify_from (S i) rest data
  end.

(** [dispatchEvent('playback-update', { isPlaying })]. *)
Definition dispatchEvent (data : jsval) : M bool :=
  fun v => match listeners v with
           | [] => Ok false v
           | ls => (notify_from 0 ls data ;;; ret true) v
           end.

(** [ModalVisualizer.updatePlaybackStatus]; [initialize] is an [async]
    function whose whole body sits in a [try], so nothing propagates. *)
Definition modal_update (p : jsval) (m : Modal) : Modal :=
  let init := if truthy p && negb (m_isInitialized m)
              then negb (m_init_throws m) else m_isInitialized m in
  mkModal p init (m_init_throws m).

Definition base_intensity (playing : bool) : R :=
  if playing then 1.0%R else 0.5%R.

(** [updatePlaybackStatus(newState = null)]: an [undefined] argument takes
    the default. *)
Definition updatePlaybackStatus (arg : jsval) : M unit :=
  let newState := match arg with JUndefined => JNull | _ => arg end in
  modify (fun v => if negb (strict_eq newState JNull)
                   then set_isPlaying newState v else v) ;;;
  modify (fun v => set_intensity (base_intensity (truthy (isPlaying v))) v) ;;;
  modify (fun v => set_modalVisualizer
                     (modal_update (isPlaying v) <$> modalVisualizer v) v) ;;;
  (fun v => dispatchEvent (isPlaying v) v) ;;;
  ret tt.

(** ** The reconciler's signal handlers *)

(** A property read that may throw. *)
Definition read (v : jsval) (k : string) : M jsval :=
  match get_prop v k with
  | Some x => ret x
  | None => throw
  end.

(** The ['message'] listener of [setupSpotifyAPI]. *)
Definition onMessage (origin : string) (data : jsval) : M unit :=
  try_catch
    (if includes "spotify.com" origin then
       if truthy data && is_object data then
         ty <- read data "type" ;;
         if strict_eq ty (JStr "player_state_changed") then
           payload <- read data "payload" ;;
           paused <- read payload "paused" ;;
           modify (set_intensity (base_intensity (negb (truthy paused)))) ;;;
           updatePlaybackStatus (JBool (negb (truthy paused)))
         else if strict_eq ty (JStr "playback_update") then
           isPaused <- read data "isPaused" ;;
           modify (set_intensity (base_intensity (negb (truthy isPaused)))) ;;;
           updatePlaybackStatus (JBool (negb (truthy isPaused)))
         else
           playing <- read data "playing" ;;
           if negb (strict_eq playing JUndefined) then
             modify (set_intensity (base_intensity (truthy playing))) ;;;
             updatePlaybackStatus playing
           else ret tt
       else ret tt
     else ret tt)
    (ret tt).

(** The controller's ['playback_update'] listener; [isPaused] is
    [e.data.isPaused]. *)
Definition onControllerUpdate (isPaused : jsval) : M unit :=
  modify (set_isPlaying (JBool (negb (truthy isPaused)))) ;;;
  modify (fun v => set_intensity (base_intensity (truthy (isPlaying v))) v) ;;;
  (fun v => updatePlaybackStatus (isPlaying v) v).

(** The controller's ['ready'] listener. *)
Definition onControllerReady : M unit := updatePlaybackStatus (JBool false).

(** [setupDirectIframeListeners], once its 2000ms timeout found the iframe:
    the closure variables are initialised. *)
Definition setupDirectIframeListeners : M unit :=
  modify (fun v => set_heuristicsReady true
                     (set_lastPlaybackState (isPlaying v)
                        (set_lastIframeClickTime 0 v))).

(** The iframe ['click'] listener at time [t]: record the click and start
    [checkForChanges(5)]. *)
Definition onIframeClick (t : Z) : M unit :=
  modify (fun v => if heuristicsReady v
                   then set_pendingChecks (5 + pendingChecks v)
                          (set_lastIframeClickTime t v)
                   else v).

(** [parentObserver] on one [attributes] / [childList] record at time [t]. *)
Definition onContainerMutation (t : Z) : M unit :=
  modify (fun v => if heuristicsReady v && (t - lastIframeClickTime v <? 3000)
                   then set_pendingChecks (S (pendingChecks v)) v
                   else v).

(** One scheduled check comes due and [getPlaybackState()] settles:
    [Some p] when it resolves with a state whose [isPaused] is [p], [None]
    when it rejects or the call throws. *)
Definition onCheck (r : option jsval) : M unit :=
  fun v =>
    match pendingChecks v with
    | O => Ok tt v
    | S n =>
      let v1 := set_pendingChecks n v in
      match spotifyController v1, r with
      | Some _, Some p =>
        let playingNow := JBool (negb (truthy p)) in
        if negb (strict_eq playingNow (lastPlaybackState v1)) then
          (updatePlaybackStatus playingNow ;;;
           modify (set_intensity (base_intensity (truthy playingNow))) ;;;
           modify (set_lastPlaybackState playingNow)) v1
        else Ok tt v1
      | _, _ => Ok tt v1
      end
    end.

(** The two probes that compare with [this.isPlaying]: the iframe class
    observer ([hasPlayingClass]) and the same-origin click probe
    ([isAnyAudioPlaying]). *)
Definition onDirectProbe (b : bool) : M unit :=
  fun v =>
    if heuristicsReady v && negb (strict_eq (JBool b) (isPlaying v)) then
      (updatePlaybackStatus (JBool b) ;;;
       modify (set_intensity (base_intensity b))) v
    else Ok tt v.

Inductive signal :=
| SigController (isPaused : jsval)
| SigReady
| SigMessage (origin : string) (data : jsval)
| SigSetup
| SigIframeClick (t : Z)
| SigContainerMutation (t : Z)
| SigCheck (r : option jsval)
| SigClassMutation (hasPlayingClass : bool)
| SigAudioProbe (isAnyAudioPlaying : bool).

Definition on_signal (s : signal) : M unit :=
  match s with
  | SigController p => onControllerUpdate p
  | SigReady => onControllerReady
  | SigMessage o d => onMessage o d
  | SigSetup => setupDirectIframeListeners
  | SigIframeClick t => onIframeClick t
  | SigContainerMutation t => onContainerMutation t
  | SigCheck r => onCheck r
  | SigClassMutation b => onDirectProbe b
  | SigAudioProbe b => onDirectProbe b
  end.

(** ** [togglePlayback] *)

Definition send (c : string) : M unit :=
  modify (fun v => set_commands (commands v ++ [c]) v).

Definition controller_command (c : Controller) (newState : bool) : M unit :=
  if newState then
    (if play_throws c then throw else send "playFromClickEvent")
  else
    (if pause_throws c then throw else send "pause").

Definition controller_toggle (c : Controller) : M unit :=
  if toggle_throws c then throw else send "toggle".

Definition iframe_command (f : Iframe) (newState : bool) : M unit :=
  (if postMessage_throws f then throw
   else send (if newState then "postMessage:play" else "postMessage:pause")) ;;;
  modify (fun v => set_pendingClicks (S (pendingClicks v)) v).

Definition togglePlayback : M jsval :=
  fun v =>
    let isCurrentlyPlaying := isPlaying v in
    let newPlaybackState := negb (truthy isCurrentlyPlaying) in
    ((match spotifyController v with
      | Some c =>
        try_catch (controller_command c newPlaybackState)
                  (try_catch (controller_toggle c) (ret tt))
      | None =>
        match embedFrame v with
        | Some f => try_catch (iframe_command f newPlaybackState) (ret tt)
        | None => ret tt
        end
      end) ;;;
     modify (set_isPlaying (JBool newPlaybackState)) ;;;
     updatePlaybackStatus JUndefined ;;;
     modify (fun v => set_modalVisualizer
                        (modal_update (isPlaying v) <$> modalVisualizer v) v) ;;;
     (fun v => dispatchEvent (isPlaying v) v) ;;;
     (fun v => Ok (isPlaying v) v)) v.

(** ** Style, pattern and the frame callback *)

(** [None] as a factor is [undefined], which makes the product [NaN]. *)
Definition mul_num (a : R) (b : option R) : option R :=
  (fun x => (a * x)%R) <$> b.

Definition intensities : list R := [0.3%R; 0.7%R; 1.2%R].

(** [intensities[style]]. *)
Definition style_intensity (style : Z) : option R :=
  if style <? 0 then None else intensities !! Z.to_nat style.

Definition setItem (k val : string) : M unit :=
  fun v => if broken (localStorage v) then Throw v
           else Ok tt (set_localStorage
                         (mkStorage (<[k := val]> (items (localStorage v))) false) v).

(** [None] is [null]. *)
Definition getItem (k : string) : M (option string) :=
  fun v => if broken (localStorage v) then Throw v
           else Ok (items (localStorage v) !! k) v.

Definition updateVisualizationStyle (style : Z) : M unit :=
  modify (set_visualizationIntensity (style_intensity style)) ;;;
  modify (fun v =>
            match material v with
            | Some u =>
              set_material
                (Some (mkUniforms (iTime u)
                         (mul_num (intensity v) (visualizationIntensity v))
                         (iKaleidoscopePattern u))) v
            | None => v
            end) ;;;
  try_catch (setItem "wmp_viz_style" (toString style)) (ret tt).

Definition updateKaleidoscopePattern (pattern : Z) : M unit :=
  modify (set_kaleidoscopePattern pattern) ;;;
  modify (fun v =>
            match material v with
            | Some u =>
              set_material
                (Some (mkUniforms (iTime u) (iIntensity u) pattern)) v
            | None => v
            end) ;;;
  try_catch (setItem "wmp_kaleido_pattern" (toString pattern)) (ret tt).

(** [loadShader] succeeded: the shader material is built from the fields. *)
Definition shaderLoaded : M unit :=
  modify (fun v =>
            set_material
              (Some (mkUniforms 0%R
                       (mul_num (intensity v) (visualizationIntensity v))
                       (kaleidoscopePattern v))) v).

Definition pulse (time : R) (playing : bool) : R :=
  if playing then (1.0 + 0.2 * sin (time * 3.0))%R else 1.0%R.

(** [animate] at clock time [time] (the render call itself is not
    modelled). *)
Definition animate (time : R) : M unit :=
  modify (fun v =>
            match material v with
            | Some u =>
              let combinedIntensity :=
                mul_num (intensity v) (visualizationIntensity v) in
              let pulseFactor := pulse time (truthy (isPlaying v)) in
              set_material
                (Some (mkUniforms time
                         ((fun c => (c * pulseFactor)%R) <$> combinedIntensity)
                         (iKaleidoscopePattern u))) v
            | None => v
            end).

(** ** A new session *)

(** The fields as the constructor leaves them, over the store [st] and with
    the given playback-update listeners. *)
Definition new_visualizer (st : Storage) (ls : list bool) : Visualizer :=
  mkViz (JBool false) 0.5%R (Some 1.0%R) 1 None None None None ls [] [] 0
        false 0 (JBool false) 0 st.

Definition in_range (lo hi : Z) (n : option Z) : bool :=
  match n with
  | Some k => (lo <=? k) && (k <=? hi)
  | None => false
  end.

(** The preference restore of the ['load'] handler. *)
Definition restore_preferences : M unit :=
  try_catch
    (savedStyle <- getItem "wmp_viz_style" ;;
     (match savedStyle with
      | Some s =>
        let styleIndex := parseInt s in
        if in_range 0 2 styleIndex
        then updateVisualizationStyle (default 0 styleIndex)
        else ret tt
      | None => ret tt
      end) ;;;
     savedPattern <- getItem "wmp_kaleido_pattern" ;;
     match savedPattern with
     | Some s =>
       let patternIndex := parseInt s in
       if in_range 1 4 patternIndex
       then updateKaleidoscopePattern (default 0 patternIndex)
       else ret tt
     | None => ret tt
     end)
    (ret tt).

(** The ['load'] handler. *)
Definition on_load (st : Storage) (ls : list bool) : result unit :=
  restore_preferences (new_visualizer st ls).

(** ** Page actions *)

Inductive action :=
| ASignal (s : signal)
| AToggle
| AStyle (style : Z)
| APattern (pattern : Z)
| AShaderLoaded
| AFrame (time : R)
| AControllerCreated (c : Controller)
| AModalCreated (init_throws : bool).

Definition do_action (a : action) (v : Visualizer) : Visualizer :=
  match a with
  | ASignal s => state_of (on_signal s v)
  | AToggle => state_of (togglePlayback v)
  | AStyle n => state_of (updateVisualizationStyle n v)
  | APattern n => state_of (updateKaleidoscopePattern n v)
  | AShaderLoaded => state_of (shaderLoaded v)
  | AFrame t => state_of (animate t v)
  | AControllerCreated c => set_spotifyController (Some c) v
  | AModalCreated b =>
      set_modalVisualizer (Some (mkModal (JBool false) false b)) v
  end.

Definition run_actions (l : list action) (v : Visualizer) : Visualizer :=
  foldl (fun v a => do_action a v) v l.

(** ** What the handlers amount to *)

(** The callback invocations of one [dispatchEvent]. *)
Fixpoint deliveries (i : nat) (ls : list bool) (data : jsval)
  : list (nat * jsval) :=
  match ls with
  | [] => []
  | _ :: rest => (i, data) :: deliveries (S i) rest data
  end.

Definition has_listeners (v : Visualizer) : bool :=
  match listeners v with
  | [] => false
  | _ => true
  end.

Definition after_dispatch (data : jsval) (v : Visualizer) : Visualizer :=
  match listeners v with
  | [] => v
  | ls => set_delivered (delivered v ++ deliveries 0 ls data) v
  end.

(** The page state [updatePlaybackStatus(arg)] ends in. *)
Definition after_update (arg : jsval) (v : Visualizer) : Visualizer :=
  let v1 := match arg with
            | JUndefined | JNull => v
            | _ => set_isPlaying arg v
            end in
  let v2 := set_intensity (base_intensity (truthy (isPlaying v1))) v1 in
  let v3 := set_modalVisualizer
              (modal_update (isPlaying v2) <$> modalVisualizer v2) v2 in
  after_dispatch (isPlaying v3) v3.

(** What a message asserts about playback, if anything: the argument that
    reaches [updatePlaybackStatus]. *)
Definition message_value (origin : string) (data : jsval) : option jsval :=
  if includes "spotify.com" origin then
    match data with
    | JObj fs =>
      if strict_eq (assoc "type" fs) (JStr "player_state_changed") then
        match get_prop (assoc "payload" fs) "paused" with
        | Some paused => Some (JBool (negb (truthy paused)))
        | None => None
        end
      else if strict_eq (assoc "type" fs) (JStr "playback_update") then
        Some (JBool (negb (truthy (assoc "isPaused" fs))))
      else
        match assoc "playing" fs with
        | JUndefined => None
        | playing => Some playing
        end
    | _ => None
    end
  else None.

(** The three payload shapes of the specification, with the boolean each
    carries. *)
Definition has_type (fs : list (string * jsval)) (ty : string) : bool :=
  strict_eq (assoc "type" fs) (JStr ty).

Definition recognized_shape (data : jsval) : option bool :=
  match data with
  | JObj fs =>
    if has_type fs "player_state_changed" then
      match assoc "payload" fs with
      | JObj ps =>
        match assoc "paused" ps with
        | JBool paused => Some (negb paused)
        | _ => None
        end
      | _ => None
      end
    else if has_type fs "playback_update" then
      match assoc "isPaused" fs with
      | JBool isPaused => Some (negb isPaused)
      | _ => None
      end
    else
      match assoc "playing" fs with
      | JBool playing => Some playing
      | _ => None
      end
  | _ => None
  end.

(** The value a signal asserts when the reconciler accepts it in state
    [v]; [None] when the signal leaves [isPlaying] alone. *)
Definition asserted (s : signal) (v : Visualizer) : option jsval :=
  match s with
  | SigController p => Some (JBool (negb (truthy p)))
  | SigReady => Some (JBool false)
  | SigMessage o d =>
    match message_value o d with
    | Some JNull => None
    | x => x
    end
  | SigSetup | SigIframeClick _ | SigContainerMutation _ => None
  | SigCheck r =>
    match pendingChecks v, spotifyController v, r with
    | S _, Some _, Some p =>
      if strict_eq (JBool (negb (truthy p))) (lastPlaybackState v)
      then None else Some (JBool (negb (truthy p)))
    | _, _, _ => None
    end
  | SigClassMutation b | SigAudioProbe b =>
    if heuristicsReady v && negb (strict_eq (JBool b) (isPlaying v))
    then Some (JBool b) else None
  end.

Definition run_signals (l : list signal) (v : Visualizer) : Visualizer :=
  foldl (fun v s => state_of (on_signal s v)) v l.

(** The value asserted by the most recent accepted signal of [l], starting
    in state [v]; [None] when no signal of [l] is accepted. *)
Fixpoint last_accepted (l : list signal) (v : Visualizer) : option jsval :=
  match l with
  | [] => None
  | s :: rest =>
    match last_accepted rest (state_of (on_signal s v)) with
    | Some x => Some x
    | None => asserted s v
    end
  end.

(** What a new session restores from the store [st]: the stored value when
    it parses to a number in range, the constructor's default otherwise. *)
Definition restored_style (st : Storage) : option R :=
  if broken st then Some 1.0%R
  else match items st !! "wmp_viz_style" with
       | Some str =>
         if in_range 0 2 (parseInt str)
         then style_intensity (default 0 (parseInt str)) else Some 1.0%R
       | None => Some 1.0%R
       end.

Definition restored_pattern (st : Storage) : Z :=
  if broken st then 1
  else match items st !! "wmp_kaleido_pattern" with
       | Some str =>
         if in_range 1 4 (parseInt str) then default 0 (parseInt str) else 1
       | None => 1
       end.

(** [intensity] is the base value of the current [isPlaying]. *)
Definition synced (v : Visualizer) : Prop :=
  intensity v = base_intensity (truthy (isPlaying v)).

(** The style multiplier after the actions [l], starting from [m]: the one
    of the style selected last, if any. *)
Definition style_step (m : option R) (a : action) : option R :=
  match a with
  | AStyle n => style_intensity n
  | _ => m
  end.

Definition style_after (l : list action) (m : option R) : option R :=
  foldl style_step m l.

(** The constructor's default or one of the three style constants. *)
Definition known_multiplier (m : option R) : Prop :=
  m = Some 1.0%R \/ m = Some 0.3%R \/ m = Some 0.7%R \/ m = Some 1.2%R.

Definition valid_action (a : action) : Prop :=
  match a with
  | AStyle n => 0 <= n <= 2
  | _ => True
  end.

End Viz.

(* ===================================================================== *)
(** * Part III: the sound layer over time                                *)
(* ===================================================================== *)

Module Expiry.
Import Sound.

(** ** Which callback ends which suppression *)

(** [activeWindows.delete(id)] of [window.soundManager]. *)
Definition deletes_xp (id : string) (t : Z * timer_action) : bool :=
  match snd t with
  | TDeleteActiveXP id' => bool_decide (id = id')
  | _ => false
  end.

(** [activeWindows.delete(id)] of the [SoundManager] instance. *)
Definition deletes_sm (id : string) (t : Z * timer_action) : bool :=
  match snd t with
  | TDeleteActiveSM id' => bool_decide (id = id')
  | _ => false
  end.

(** The callback of [playForWindow] that clears [criticalSoundPlayed]. *)
Definition clears_sm (h : handle) (t : Z * timer_action) : bool :=
  match snd t with
  | TClearClosingSM h' => bool_decide (h = h')
  | _ => false
  end.

(** The callbacks that put [window.preventAllSounds] back to [false] ... *)
Definition resets_close (t : Z * timer_action) : bool :=
  match snd t with
  | TResetCloseFlags => true
  | _ => false
  end.

(** ... and [recentWindowControlAction]. *)
Definition resets_recent (t : Z * timer_action) : bool :=
  match snd t with
  | TResetCloseFlags | TResetControlAction => true
  | _ => false
  end.

(** The window id [id] is in [window.soundManager.activeWindows] and stays
    there until time [D] at least. *)
Definition active_until_xp (D : Z) (id : string) (w : World) : Prop :=
  id ∈ xp_active w /\
  forall t, t ∈ timers w -> deletes_xp id t = true -> D <= fst t.

Definition active_until_sm (D : Z) (id : string) (w : World) : Prop :=
  id ∈ sm_active w /\
  forall t, t ∈ timers w -> deletes_sm id t = true -> D <= fst t.

(** A callback selected by [p] is pending with a deadline of [B] at most. *)
Definition due_by (B : Z) (p : Z * timer_action -> bool) (w : World) : Prop :=
  exists t, t ∈ timers w /\ p t = true /\ fst t <= B.

(** Every suppression that is in force has the callback that ends it
    pending: by [B1] for the active-window marks and the two global flags,
    by [B2] for the close markers. *)
Record expiring (B1 B2 : Z) (w : World) : Prop := {
  exp_xp_active : forall id, id ∈ xp_active w -> due_by B1 (deletes_xp id) w;
  exp_sm_active : forall id, id ∈ sm_active w -> due_by B1 (deletes_sm id) w;
  exp_closing : forall h, closing w h = true -> due_by B2 (clears h) w;
  exp_critical :
    forall h, critical_played w h = true -> due_by B2 (clears_sm h) w;
  exp_prevent : preventAllSounds w = true -> due_by B1 resets_close w;
  exp_recent :
    recentWindowControlAction w = true -> due_by B1 resets_recent w
}.

(** From [w] to [w'] no time passed, no pending callback was dropped, and
    whatever suppression is new in [w'] has its callback pending. *)
Record flag_ok (B1 B2 : Z) (w w' : World) : Prop := {
  fo_now : now w' = now w;
  fo_timers : forall t, t ∈ timers w -> t ∈ timers w';
  fo_xp_active : forall id, id ∈ xp_active w' ->
    id ∈ xp_active w \/ due_by B1 (deletes_xp id) w';
  fo_sm_active : forall id, id ∈ sm_active w' ->
    id ∈ sm_active w \/ due_by B1 (deletes_sm id) w';
  fo_closing : forall h, closing w' h = true ->
    closing w h = true \/ due_by B2 (clears h) w';
  fo_critical : forall h, critical_played w' h = true ->
    critical_played w h = true \/ due_by B2 (clears_sm h) w';
  fo_prevent : preventAllSounds w' = true ->
    preventAllSounds w = true \/ due_by B1 resets_close w';
  fo_recent : recentWindowControlAction w' = true ->
    recentWindowControlAction w = true \/ due_by B1 resets_recent w'
}.

(** No script changes the [id] of an element. *)
Definition same_ids (w w' : World) : Prop :=
  forall h, el_id (el w' h) = el_id (el w h).

(** No suppression is in force. *)
Definition open_state (w : World) : Prop :=
  xp_active w = ∅ /\ sm_active w = ∅ /\
  preventAllSounds w = false /\ recentWindowControlAction w = false.

Definition no_close_marker (w : World) : Prop :=
  forall h, closing w h = false /\ critical_played w h = false.

(** ** Switching a manager off *)

Definition enabled (o : owner) (w : World) : bool :=
  match o with
  | XP => xp_enabled w
  | SM => sm_enabled w
  end.

(** [setEnabled(true)] on the manager [o]. *)
Definition enables (o : owner) (ev : event) : bool :=
  match o, ev with
  | XP, XPSetEnabled true => true
  | SM, SMSetEnabled true => true
  | _, _ => false
  end.

Definition owned_by (o : owner) (e : owner * string * Q) : bool :=
  match o, fst (fst e) with
  | XP, XP | SM, SM => true
  | _, _ => false
  end.

(** The [Audio] elements of the manager [o] among those started. *)
Definition by_owner (o : owner) (l : list (owner * string * Q))
  : list (owner * string * Q) :=
  List.filter (owned_by o) l.

(** With [o] switched off in [w], nothing of [o] is played up to [w'] and
    [o] is still off. *)
Definition mute (o : owner) (w w' : World) : Prop :=
  enabled o w = false ->
  by_owner o (played w') = by_owner o (played w) /\ enabled o w' = false.

(** ** The window that sounded last *)

(** The observer's test for a window that is on screen:
    [classList.contains('window') && !classList.contains('minimized') &&
    style.display !== 'none']. *)
Definition visible_window (e : WindowEl) : bool :=
  has_class "window" e && negb (has_class "minimized" e)
  && negb (bool_decide (el_display e = "none")).

(** Events that leave [lastSoundWindow] at the window id [id]: time
    passing, attribute changes, and observer batches whose records all
    have a target with that id. *)
Definition calm (id : string) (w : World) (ev : event) : bool :=
  match ev with
  | Advance _ | DomSetClasses _ _ | DomSetDisplay _ _ => true
  | Observer ms =>
      forallb (fun h => bool_decide (el_id (el w h) = id)) ms
  | _ => false
  end.

End Expiry.

(* ===================================================================== *)
(** * Part IV: the event system of the visualizer classes                *)
(* ===================================================================== *)

Module Events.
Import Viz.

(** [this.eventListeners = {}] is a plain object: a name that
    [Object.prototype] defines is found on it although no listener was ever
    added, and what is found is not an array. *)
Definition object_prototype_names : list string :=
  ["constructor"; "hasOwnProperty"; "isPrototypeOf"; "propertyIsEnumerable";
   "toLocaleString"; "toString"; "valueOf"; "__proto__";
   "__defineGetter__"; "__defineSetter__";
   "__lookupGetter__"; "__lookupSetter__"].

Definition inherited (name : string) : bool :=
  bool_decide (name ∈ object_prototype_names).

(** A callback is a function reference; [throwing] tells which of them
    throw when called.  Callbacks are taken not to touch the listener
    table themselves. *)
Abbreviation callback := nat.

Record Emitter := mkEmitter {
  eventListeners : gmap string (list callback);   (* own properties *)
  throwing : callback -> bool;
  calls : list (callback * string * jsval)        (* callback, event.type, event.data *)
}.

Definition set_eventListeners (m : gmap string (list callback)) (e : Emitter)
  : Emitter :=
  mkEmitter m (throwing e) (calls e).

Definition set_calls (l : list (callback * string * jsval)) (e : Emitter)
  : Emitter :=
  mkEmitter (eventListeners e) (throwing e) l.

Inductive outcome (A : Type) :=
| Returned (a : A) (e : Emitter)
| Thrown (e : Emitter).
Arguments Returned {A} a e.
Arguments Thrown {A} e.

Definition emitter_of {A} (r : outcome A) : Emitter :=
  match r with
  | Returned _ e => e
  | Thrown e => e
  end.

(** [addEventListener(eventName, callback)]; on an inherited name the
    test [!this.eventListeners[eventName]] fails and [push] is not a
    function. *)
Definition addEventListener (name : string) (cb : callback) (e : Emitter)
  : outcome unit :=
  if inherited name then Thrown e
  else
    let arr := default [] (eventListeners e !! name) in
    Returned tt (set_eventListeners
                   (<[name := (arr ++ [cb])%list]> (eventListeners e)) e).

(** [removeEventListener(eventName, callback)]. *)
Definition removeEventListener (name : string) (cb : callback) (e : Emitter)
  : outcome unit :=
  if inherited name then Thrown e
  else
    match eventListeners e !! name with
    | None => Returned tt e
    | Some arr =>
      Returned tt
        (set_eventListeners
           (<[name := List.filter (fun l => negb (l =? cb)%nat) arr]>
              (eventListeners e)) e)
    end.

(** One callback of the [forEach], with its [try] / [catch]. *)
Definition call (name : string) (data : jsval) (cb : callback) (e : Emitter)
  : outcome unit :=
  let e' := set_calls (calls e ++ [(cb, name, data)]) e in
  if throwing e cb then Thrown e' else Returned tt e'.

Definition guarded_call (name : string) (data : jsval) (e : Emitter)
    (cb : callback) : Emitter :=
  emitter_of (call name data cb e).

(** [dispatchEvent(eventName, data = {})]. *)
Definition dispatchEvent (name : string) (arg : jsval) (e : Emitter)
  : outcome bool :=
  let data := match arg with JUndefined => JObj [] | _ => arg end in
  if inherited name then Thrown e
  else
    match eventListeners e !! name with
    | None => Returned false e
    | Some arr => Returned true (foldl (guarded_call name data) e arr)
    end.

(** [this.eventListeners = {}] of the constructors. *)
Definition new_emitter (throws : callback -> bool) : Emitter :=
  mkEmitter ∅ throws [].

Inductive op :=
| Add (name : string) (cb : callback)
| Remove (name : string) (cb : callback)
| Dispatch (name : string) (data : jsval).

Definition do_op (e : Emitter) (o : op) : Emitter :=
  match o with
  | Add n cb => emitter_of (addEventListener n cb e)
  | Remove n cb => emitter_of (removeEventListener n cb e)
  | Dispatch n d => emitter_of (dispatchEvent n d e)
  end.

Definition run_ops (ops : list op) (e : Emitter) : Emitter :=
  foldl do_op e ops.

(** The callbacks registered for [name], in registration order. *)
Definition listeners_of (name : string) (e : Emitter) : list callback :=
  default [] (eventListeners e !! name).

Definition adds (name : string) (o : op) : bool :=
  match o with
  | Add n _ => bool_decide (n = name)
  | _ => false
  end.

Definition default_data (arg : jsval) : jsval :=
  match arg with
  | JUndefined => JObj []
  | _ => arg
  end.

End Events.

(* ===================================================================== *)
(** * Part V: the page controls of the visualizer                        *)
(* ===================================================================== *)

Module Controls.
Import Viz.

(** ** The visualization-style button ([setupWindowsControls]) *)

(** The closure variable [vizStyle] and the button's [textContent]. *)
Record VizButton := mkVizButton {
  vizStyle : Z;
  textContent : string
}.

Definition modeNames : list string := ["Low"; "Medium"; "High"].

(** [`${names[i]}`]: a missing element prints as [undefined]. *)
Definition name_at (names : list string) (i : Z) : string :=
  if i <? 0 then "undefined" else default "undefined" (names !! Z.to_nat i).

(** The button's ['click'] listener: the counter is advanced before the
    style is applied, the text is set after it. *)
Definition viz_click (b : VizButton) (v : Visualizer)
  : VizButton * Visualizer :=
  let vizStyle' := Z.rem (vizStyle b + 1) 3 in
  match updateVisualizationStyle vizStyle' v with
  | Ok _ v' =>
      (mkVizButton vizStyle' ("Visual: " ++ name_at modeNames vizStyle'), v')
  | Throw v' => (mkVizButton vizStyle' (textContent b), v')
  end.

(** [n] clicks in a row. *)
Fixpoint viz_clicks (n : nat) (b : VizButton) (v : Visualizer)
  : VizButton * Visualizer :=
  match n with
  | O => (b, v)
  | S k => let '(b', v') := viz_click b v in viz_clicks k b' v'
  end.

(** The button as [setupWindowsControls] finds it: [let vizStyle = 0]. *)
Definition new_button (text : string) : VizButton := mkVizButton 0 text.

(** ** The legacy interaction fallback ([handleIframeInteraction]) *)

Record Page := mkPage {
  viz : Visualizer;
  lastInteractionTime : Z;
  playbackToggleTimeout : option Z;   (* deadline of the pending toggle *)
  posted : list jsval;                (* window.postMessage payloads *)
  clock : Z                           (* Date.now() *)
}.

Definition set_viz (v : Visualizer) (p : Page) : Page :=
  mkPage v (lastInteractionTime p) (playbackToggleTimeout p) (posted p)
         (clock p).

(** The callback of the 300ms timeout. *)
Definition toggle_later (p : Page) : Page :=
  let v1 := set_isPlaying (JBool (negb (truthy (isPlaying (viz p))))) (viz p) in
  let v2 := state_of (updatePlaybackStatus (isPlaying v1) v1) in
  let v3 := set_intensity (base_intensity (truthy (isPlaying v2))) v2 in
  mkPage v3 (lastInteractionTime p) None
         (posted p ++ [JObj [("type", JStr "playback_update");
                             ("playing", isPlaying v3)]])
         (clock p).

(** [handleIframeInteraction()]: with a controller it toggles at once;
    without one it restarts the 300ms timeout ([clearTimeout] on a timer
    that has fired does nothing). *)
Definition handleIframeInteraction (p : Page) : Page :=
  match spotifyController (viz p) with
  | Some _ => set_viz (state_of (togglePlayback (viz p))) p
  | None =>
    mkPage (viz p) (clock p) (Some (clock p + 300)) (posted p) (clock p)
  end.

(** [dt] milliseconds pass. *)
Definition elapse (dt : Z) (p : Page) : Page :=
  let T := clock p + Z.max 0 dt in
  let p' := match playbackToggleTimeout p with
            | Some d => if d <=? T then toggle_later p else p
            | None => p
            end in
  mkPage (viz p') (lastInteractionTime p') (playbackToggleTimeout p')
         (posted p') T.

(** Further interactions, each after a pause. *)
Definition interactions (gaps : list Z) (p : Page) : Page :=
  foldl (fun p dt => handleIframeInteraction (elapse dt p)) p gaps.

(** [checkPlaybackStatus()]. *)
Definition checkPlaybackStatus (p : Page) : Page :=
  if (5 * 60 * 1000 <? clock p - lastInteractionTime p)
     && truthy (isPlaying (viz p))
  then set_viz (state_of (updatePlaybackStatus (JBool false) (viz p))) p
  else p.

(** ** Dragging the window ([setupWindowsControls]) *)

(** The closure variables of the drag handlers; [None] is a variable that
    was declared and not assigned yet. *)
Record DragState := mkDrag {
  isDragging : bool;
  initialX : option Z;
  initialY : option Z
}.

(** What the handlers write on the window element: [style.left] and
    [style.top] in pixels ([None]: not set), and [style.transform].
    Lengths are whole CSS pixels, as [offsetLeft], [offsetWidth] and
    [innerWidth] are. *)
Record Placement := mkPlacement {
  p_left : option Z;
  p_top : option Z;
  p_transform : string
}.

(** What a handler reads from the event and the layout, in CSS pixels. *)
Inductive pointer_event :=
| MouseDown (clientX clientY offsetLeft offsetTop : Z)
| MouseMove (clientX clientY innerWidth innerHeight
             offsetWidth offsetHeight : Z)
| MouseUp
| TouchStart (clientX clientY rectLeft rectTop offsetLeft offsetTop : Z)
| TouchMove (clientX clientY innerWidth innerHeight
             offsetWidth offsetHeight : Z)
| TouchEnd
| TouchCancel.

(** [Math.max(0, Math.min(limit, x))]. *)
Definition clamp (limit x : Z) : Z := Z.max 0 (Z.min limit x).

(** The body of the [mousemove] and [touchmove] listeners under
    [if (isDragging)]; [margin] is 50 for the mouse and 60 for touch.  With
    an unassigned [initialX] the value is [NaN], and assigning ['NaNpx'] to
    [style.left] leaves it as it was. *)
Definition move (margin : Z) (cx cy iw ih ow oh : Z) (d : DragState)
    (pl : Placement) : Placement :=
  mkPlacement
    (match initialX d with
     | Some ix => Some (clamp (iw - ow) (cx - ix))
     | None => p_left pl
     end)
    (match initialY d with
     | Some iy => Some (clamp (ih - oh - margin) (cy - iy))
     | None => p_top pl
     end)
    "none".

Definition pointer (ev : pointer_event) (s : DragState * Placement)
  : DragState * Placement :=
  let '(d, pl) := s in
  match ev with
  | MouseDown cx cy ol ot => (mkDrag true (Some (cx - ol)) (Some (cy - ot)), pl)
  | MouseMove cx cy iw ih ow oh =>
      if isDragging d then (d, move 50 cx cy iw ih ow oh d pl) else (d, pl)
  | MouseUp => (mkDrag false (initialX d) (initialY d), pl)
  | TouchStart cx cy rl rt ol ot =>
      if negb (bool_decide (p_transform pl = ""))
         && includes "translate" (p_transform pl)
      then (mkDrag true (Some (cx - rl)) (Some (cy - rt)), pl)
      else (mkDrag true (Some (cx - ol)) (Some (cy - ot)), pl)
  | TouchMove cx cy iw ih ow oh =>
      if isDragging d then (d, move 60 cx cy iw ih ow oh d pl) else (d, pl)
  | TouchEnd | TouchCancel => (mkDrag false (initialX d) (initialY d), pl)
  end.

(** [let isDragging = false; let initialX; let initialY;]. *)
Definition new_drag : DragState := mkDrag false None None.

(** The placements written while the events [evs] are handled, each with
    the viewport and window size it was computed for. *)
Fixpoint writes (evs : list pointer_event) (s : DragState * Placement)
  : list (Placement * (Z * Z * Z * Z * Z)) :=
  match evs with
  | [] => []
  | ev :: rest =>
    let s' := pointer ev s in
    match ev with
    | MouseMove _ _ iw ih ow oh =>
        if isDragging (fst s)
        then (snd s', (iw, ih, ow, oh, 50)) :: writes rest s'
        else writes rest s'
    | TouchMove _ _ iw ih ow oh =>
        if isDragging (fst s)
        then (snd s', (iw, ih, ow, oh, 60)) :: writes rest s'
        else writes rest s'
    | _ => writes rest s'
    end
  end.

(** The window lies inside the viewport, clear of the task bar, where its
    size allows it. *)
Definition inside (w : Placement * (Z * Z * Z * Z * Z)) : Prop :=
  let '(pl, (iw, ih, ow, oh, margin)) := w in
  exists x y,
    p_left pl = Some x /\ p_top pl = Some y /\ p_transform pl = "none" /\
    0 <= x /\ 0 <= y /\
    (ow <= iw -> x + ow <= iw) /\
    (oh + margin <= ih -> y + oh + margin <= ih).

(** ** The task-bar clock ([setupClock]) *)

(** [s.padStart(n, c)] for a one-character [c]. *)
Definition padStart (n : nat) (c : Ascii.ascii) (s : string) : string :=
  String.concat "" (replicate (n - String.length s) (String c "")) ++ s.

(** [updateClock]: the text for [getHours()] and [getMinutes()]. *)
Definition clock_text (hours minutes : Z) : string :=
  padStart 2 "0" (toString hours) ++ ":" ++ padStart 2 "0" (toString minutes).

(** The text has the form [HH:MM] and reads back as [h] and [m]. *)
Definition clock_ok (h m : Z) : bool :=
  let t := clock_text h m in
  (String.length t =? 5)%nat
  && bool_decide (parseInt (substring 0 2 t) = Some h)
  && bool_decide (substring 2 1 t = ":")
  && bool_decide (parseInt (substring 3 2 t) = Some m).

(** ** The modal visualizer's frame ([ModalVisualizer.animate]) *)

Definition modal_frame_intensity (time : R) (m : Modal) : R :=
  let intensity := if truthy (m_isPlaying m) then 1.0%R else 0.5%R in
  if truthy (m_isPlaying m)
  then (intensity * (1.0 + 0.2 * sin (time * 3.0)))%R
  else intensity.

(** The modal visualizer, if there is one, has the main visualizer's
    [isPlaying]. *)
Definition modal_synced (v : Visualizer) : Prop :=
  forall m, modalVisualizer v = Some m -> m_isPlaying m = isPlaying v.

Definition creates_modal (a : action) : bool :=
  match a with
  | AModalCreated _ => true
  | _ => false
  end.

End Controls.

(* ===================================================================== *)
(** * Part VI: the sound manager bundled with the visualizer             *)
(* ===================================================================== *)

Module VizSound.
Import Sound.

(** The [SoundManager] class at the end of visualizer.js keeps what it
    knows about a window in its own maps ([windowStates], [closingWindows])
    instead of the element's [dataset].  It reads the page (element ids and
    classes, [window.soundManager]) and starts [Audio] elements on it; the
    page is the [World] of the sound layer. *)

(** The closures handed to [setTimeout]. *)
Inductive callback :=
| DeleteActive (id : string)              (* addActiveWindow *)
| DeleteClosing (h : handle)              (* markWindowClosing *)
| ClearState (h : handle) (key : string)  (* setWindowState(el, key, false) *)
| InitialReset (ws : list handle).        (* setupWindowEventHandlers, 3000ms *)

Record Manager := mkManager {
  clock : Z;                                   (* milliseconds *)
  page : World;
  enabled : bool;                              (* this.enabled *)
  activeWindows : gset string;                 (* this.activeWindows *)
  windowStates : gmap handle (gmap string bool); (* this.windowStates *)
  closingWindows : gset handle;                (* this.closingWindows *)
  wired : option (list handle);                (* windows whose buttons got
                                                  handlers, once set up *)
  pending : list (Z * callback)                (* timers, in insertion order *)
}.

Definition set_clock (t : Z) (m : Manager) : Manager :=
  mkManager t (page m) (enabled m) (activeWindows m) (windowStates m)
            (closingWindows m) (wired m) (pending m).

Definition set_page (p : World) (m : Manager) : Manager :=
  mkManager (clock m) p (enabled m) (activeWindows m) (windowStates m)
            (closingWindows m) (wired m) (pending m).

Definition set_enabled (b : bool) (m : Manager) : Manager :=
  mkManager (clock m) (page m) b (activeWindows m) (windowStates m)
            (closingWindows m) (wired m) (pending m).

Definition set_activeWindows (s : gset string) (m : Manager) : Manager :=
  mkManager (clock m) (page m) (enabled m) s (windowStates m)
            (closingWindows m) (wired m) (pending m).

Definition set_windowStates (s : gmap handle (gmap string bool))
    (m : Manager) : Manager :=
  mkManager (clock m) (page m) (enabled m) (activeWindows m) s
            (closingWindows m) (wired m) (pending m).

Definition set_closingWindows (s : gset handle) (m : Manager) : Manager :=
  mkManager (clock m) (page m) (enabled m) (activeWindows m) (windowStates m)
            s (wired m) (pending m).

Definition set_wired (l : option (list handle)) (m : Manager) : Manager :=
  mkManager (clock m) (page m) (enabled m) (activeWindows m) (windowStates m)
            (closingWindows m) l (pending m).

Definition set_pending (l : list (Z * callback)) (m : Manager) : Manager :=
  mkManager (clock m) (page m) (enabled m) (activeWindows m) (windowStates m)
            (closingWindows m) (wired m) l.

(** [setTimeout(c, delay)]. *)
Definition add_timer (delay : Z) (c : callback) (m : Manager) : Manager :=
  set_pending (pending m ++ [(clock m + Z.max 0 delay, c)]) m.

(** ** The bookkeeping methods *)

Definition addActiveWindow (id : string) (m : Manager) : Manager :=
  if bool_decide (id = "") then m
  else add_timer 1000 (DeleteActive id)
                 (set_activeWindows ({[id]} ∪ activeWindows m) m).

Definition isWindowActive (id : string) (m : Manager) : bool :=
  negb (bool_decide (id = "")) && bool_decide (id ∈ activeWindows m).

Definition markWindowClosing (h : handle) (m : Manager) : Manager :=
  add_timer 1500 (DeleteClosing h)
            (set_closingWindows ({[h]} ∪ closingWindows m) m).

Definition isWindowClosing (h : handle) (m : Manager) : bool :=
  bool_decide (h ∈ closingWindows m).

(** [state = this.windowStates.get(el) || {}; state[key] = value]. *)
Definition setWindowState (h : handle) (key : string) (value : bool)
    (m : Manager) : Manager :=
  set_windowStates
    (<[h := <[key := value]> (default ∅ (windowStates m !! h))]>
       (windowStates m)) m.

(** [None] is [undefined].  The class only uses the keys 'initialWindow',
    'soundPlayed' and 'criticalSoundPlayed'. *)
Definition getWindowState (h : handle) (key : string) (m : Manager)
  : option bool :=
  default ∅ (windowStates m !! h) !! key.

Definition truthy_state (v : option bool) : bool := default false v.

(** ** [play] *)

(** [soundFiles] of [init]. *)
Definition soundFiles : list string :=
  ["startup"; "shutdown"; "error"; "exclamation"; "ding"; "notify";
   "windowOpen"; "windowClose"; "maximize"; "minimize"; "click"; "navigate";
   "critical"; "mediaPlay"; "mediaPause"; "mediaStop"; "mediaNext";
   "mediaPrev"; "logon"; "logoff"; "recycle"; "restore"; "balloon";
   "question"; "hardwareInsert"; "hardwareRemove"].

(** Something done on the page. *)
Definition on_page (f : World -> World * bool) (m : Manager)
  : Manager * bool :=
  (set_page (fst (f (page m))) m, snd (f (page m))).

Definition play (name : string) (vol : Q) (m : Manager) : Manager * bool :=
  if negb (enabled m) then (m, false)
  else if xp_installed (page m) && has_sound xp_sounds name
  then on_page (xp_play name vol) m
  else if negb (has_sound soundFiles name) then (m, false)
  else on_page (audio_start SM name vol) m.

(** ** [playForWindow] *)

(** The [if (soundName === 'windowClose' || soundName === 'critical')]
    block.  The boolean tells whether control falls through. *)
Definition close_gate (h : handle) (name : string) (m : Manager)
  : Manager * bool :=
  let m1 := setWindowState h "initialWindow" false m in
  let m2 := if truthy_state (getWindowState h "soundPlayed" m1)
            then setWindowState h "soundPlayed" false m1 else m1 in
  if isWindowClosing h m2 then (m2, false)
  else if xp_installed (page m2) && bool_decide (name = "windowClose")
          && truthy_state (getWindowState h "criticalSoundPlayed" m2)
  then (m2, false)
  else
    let m3 := markWindowClosing h m2 in
    if bool_decide (name = "critical")
    then (add_timer 1500 (ClearState h "criticalSoundPlayed")
                    (setWindowState h "criticalSoundPlayed" true m3), true)
    else (m3, true).

(** The rest of the method, from the [isWindowActive] test on. *)
Definition play_and_mark (h : handle) (name : string) (vol : Q)
    (duration : Z) (m1 : Manager) : Manager * bool :=
  let id := el_id (el (page m1) h) in
  if isWindowActive id m1 && negb (is_close_name name)
  then (m1, false)
  else
    let m2 := fst (play name vol m1) in
    let result := snd (play name vol m1) in
    let m3 := addActiveWindow id m2 in
    let m4 := setWindowState h "soundPlayed" true m3 in
    (add_timer duration (ClearState h "soundPlayed") m4, result).

(** [windowElement] is [None] for a [null] / [undefined] argument. *)
Definition playForWindow (oh : option handle) (name : string) (vol : Q)
    (duration : Z) (m : Manager) : Manager * bool :=
  match oh with
  | None => play name vol m
  | Some h =>
    let g := if is_close_name name then close_gate h name m else (m, true) in
    if negb (snd g) then (fst g, false)
    else play_and_mark h name vol duration (fst g)
  end.

(** ** [setupWindowEventHandlers] and the page-load handler *)

(** [document.querySelectorAll('.window')], in document order. *)
Definition windows (p : World) : list handle :=
  List.filter (fun h => has_class "window" (el p h)) (seq 0 (length (dom p))).

Definition shown (e : WindowEl) : bool :=
  negb (bool_decide (el_display e = "none")) && negb (has_class "minimized" e).

Definition mark_initial (m : Manager) (h : handle) : Manager :=
  if shown (el (page m) h)
  then setWindowState h "soundPlayed" true
         (setWindowState h "initialWindow" true m)
  else m.

Definition setupWindowEventHandlers (m : Manager) : Manager :=
  if xp_installed (page m) then m
  else
    let ws := windows (page m) in
    add_timer 3000 (InitialReset ws)
              (set_wired (Some ws) (foldl mark_initial m ws)).

(** The body of the 3000ms callback's [forEach]. *)
Definition reset_step (m : Manager) (h : handle) : Manager :=
  if truthy_state (getWindowState h "initialWindow" m)
  then add_timer 500 (ClearState h "soundPlayed")
                 (setWindowState h "initialWindow" false m)
  else m.

(** The manager as the constructor leaves it. *)
Definition new_manager (p : World) : Manager :=
  mkManager 0 p true ∅ ∅ ∅ None [].

(** The [DOMContentLoaded] handler. *)
Definition loaded (p : World) : Manager :=
  let m := new_manager p in
  if xp_installed p then m
  else fst (play "startup" 0.7 (setupWindowEventHandlers m)).

(** ** Timer callbacks and the passage of time *)

Definition fire (c : callback) (m : Manager) : Manager :=
  match c with
  | DeleteActive id => set_activeWindows (activeWindows m ∖ {[id]}) m
  | DeleteClosing h => set_closingWindows (closingWindows m ∖ {[h]}) m
  | ClearState h key => setWindowState h key false m
  | InitialReset ws => foldl reset_step m ws
  end.

(** The pending timer that fires next: the earliest deadline, and among
    equal deadlines the one registered first. *)
Fixpoint next_due (l : list (Z * callback))
  : option ((Z * callback) * list (Z * callback)) :=
  match l with
  | [] => None
  | t :: rest =>
    match next_due rest with
    | None => Some (t, [])
    | Some (t', rest') =>
      if (fst t <=? fst t')%Z then Some (t, rest) else Some (t', t :: rest')
    end
  end.

Fixpoint run_timers (fuel : nat) (T : Z) (m : Manager) : Manager :=
  match fuel with
  | O => m
  | S fuel' =>
    match next_due (pending m) with
    | None => m
    | Some ((d, c), rest) =>
      if (d <=? T)%Z
      then run_timers fuel' T
             (fire c (set_pending rest (set_clock (Z.max (clock m) d) m)))
      else m
    end
  end.

(** Only [InitialReset] registers timers, at most one per window. *)
Definition weight (t : Z * callback) : nat :=
  match snd t with
  | InitialReset ws => S (length ws)
  | _ => 1%nat
  end.

Definition fuel_of (l : list (Z * callback)) : nat := list_sum (map weight l).

(** [dt] milliseconds pass. *)
Definition advance (dt : Z) (m : Manager) : Manager :=
  let T := clock m + Z.max 0 dt in
  set_clock T (run_timers (fuel_of (pending m)) T m).

(** ** Events *)

(** The handlers of [setupWindowEventHandlers]. *)
Definition close_click (h : handle) (m : Manager) : Manager :=
  fst (playForWindow (Some h) "windowClose" 0.6 1500 m).

Definition maximize_click (h : handle) (m : Manager) : Manager :=
  if has_class "maximized" (el (page m) h)
  then fst (playForWindow (Some h) "restore" 0.6 1000 m)
  else fst (playForWindow (Some h) "maximize" 0.6 1000 m).

Definition minimize_click (h : handle) (m : Manager) : Manager :=
  fst (playForWindow (Some h) "minimize" 0.6 1000 m).

Definition is_wired (h : handle) (m : Manager) : bool :=
  match wired m with
  | Some ws => bool_decide (h ∈ ws)
  | None => false
  end.

(** Did [setupWindowEventHandlers] install its handlers? *)
Definition set_up (m : Manager) : bool :=
  match wired m with Some _ => true | None => false end.

Inductive event :=
| Wait (dt : Z)
| PageChange (p : World)            (* anything the rest of the page does *)
| Call (oh : option handle) (name : string) (vol : Q) (duration : Z)
| Play (name : string) (vol : Q)
| SetEnabled (b : bool)
| CloseClick (h : handle)
| MaximizeClick (h : handle)
| MinimizeClick (h : handle)
| ErrorEvent                        (* window 'error' *)
| Alert.                            (* a call of window.alert *)

Definition handle_event (ev : event) (m : Manager) : Manager :=
  match ev with
  | Wait dt => advance dt m
  | PageChange p => set_page p m
  | Call oh n v d => fst (playForWindow oh n v d m)
  | Play n v => fst (play n v m)
  | SetEnabled b => set_enabled b m
  | CloseClick h => if is_wired h m then close_click h m else m
  | MaximizeClick h => if is_wired h m then maximize_click h m else m
  | MinimizeClick h => if is_wired h m then minimize_click h m else m
  | ErrorEvent => if set_up m then fst (play "error" 0.6 m) else m
  | Alert => if set_up m then fst (play "exclamation" 0.6 m) else m
  end.

Definition run (evs : list event) (m : Manager) : Manager :=
  foldl (fun m ev => handle_event ev m) m evs.

(** ** Notions used by the statements *)

Definition critical_marked (h : handle) (m : Manager) : bool :=
  truthy_state (getWindowState h "criticalSoundPlayed" m).

(** The time that passes during a run. *)
Definition waited (evs : list event) : Z :=
  foldr (fun ev acc => match ev with Wait dt => Z.max 0 dt + acc | _ => acc end)
        0 evs.

Definition is_dc (h : handle) (t : Z * callback) : bool :=
  match snd t with
  | DeleteClosing h' => bool_decide (h' = h)
  | _ => false
  end.

Definition count (p : Z * callback -> bool) (l : list (Z * callback)) : nat :=
  length (List.filter p l).

(** What the closing marker and its timers satisfy while callbacks run:
    one pending removal per marked window and none for the others, each
    due within 1500ms; and a 'criticalSoundPlayed' entry has its reset
    pending, due no later than the removal of the closing marker. *)
Record wf (m : Manager) : Prop := {
  wf_closing : forall h,
    count (is_dc h) (pending m)
    = if bool_decide (h ∈ closingWindows m) then 1%nat else 0%nat;
  wf_due : forall t h,
    (t, DeleteClosing h) ∈ pending m -> t <= clock m + 1500;
  wf_critical : forall h,
    critical_marked h m = true ->
    exists t, (t, ClearState h "criticalSoundPlayed") ∈ pending m /\
              (forall t', (t', DeleteClosing h) ∈ pending m -> t <= t') /\
              (h ∉ closingWindows m -> t <= clock m)
}.

(** No timer is due. *)
Definition settled (m : Manager) : Prop :=
  forall t c, (t, c) ∈ pending m -> clock m < t.

(** No reset of a 'criticalSoundPlayed' entry is due. *)
Definition calm (m : Manager) : Prop :=
  forall t h, (t, ClearState h "criticalSoundPlayed") ∈ pending m -> clock m < t.

(** The changes that leave the closing markers, the 'criticalSoundPlayed'
    entries and their timers alone. *)
Record same_core (m m' : Manager) : Prop := {
  sc_clock : clock m' = clock m;
  sc_closing : closingWindows m' = closingWindows m;
  sc_critical : forall h, critical_marked h m' = critical_marked h m;
  sc_count : forall h, count (is_dc h) (pending m') = count (is_dc h) (pending m);
  sc_dc : forall t h,
    (t, DeleteClosing h) ∈ pending m' <-> (t, DeleteClosing h) ∈ pending m;
  sc_cs : forall t h,
    (t, ClearState h "criticalSoundPlayed") ∈ pending m' <->
    (t, ClearState h "criticalSoundPlayed") ∈ pending m
}.

(** The callbacks that touch the closing markers or the
    'criticalSoundPlayed' entries. *)
Definition core_cb (c : callback) : bool :=
  match c with
  | DeleteClosing _ => true
  | ClearState _ key => bool_decide (key = "criticalSoundPlayed")
  | _ => false
  end.

(** The marker of [h] stays until time [D]. *)
Definition closing_until (D : Z) (h : handle) (m : Manager) : Prop :=
  h ∈ closingWindows m /\
  forall t, (t, DeleteClosing h) ∈ pending m -> D <= t.

End VizSound.

(* ===================================================================== *)
(** * Part VII: the start of the visualizer                              *)
(* ===================================================================== *)

Module Startup.

(** Three.js constructors and DOM calls on elements that exist are taken
    not to throw; what the start depends on is which loads settle and
    which elements the page has. *)

(** ** [setupScene]: the wallpaper texture *)

(** What becomes of a [textureLoader.load] or a [fetch]: its success
    callback runs, its error callback runs, or neither ever does. *)
Inductive load_result := Loaded | Failed | Pending.

(** The texture [setupScene] ends up with: an image, or the gradient it
    paints on a canvas. *)
Inductive texture := Image (url : string) | Canvas.

Definition blissImageUrl : string := "shaders/bliss.jpg".

Definition fallbackUrls : list string :=
  ["https://i.imgur.com/JMhHPz6.jpg";
   "https://cdn.wallpapersafari.com/38/77/hKvU4q.jpg"].

(** An [async] computation: the URLs it requested, and its value unless an
    [await] in it never returns. *)
Definition Run (A : Type) : Type := (list string * option A)%type.

(** The [for (const fallbackUrl of fallbackUrls)] loop; the value is
    [blissTexture] after it, [None] while still [undefined]. *)
Fixpoint try_fallbacks (net : string -> load_result) (urls : list string)
  : Run (option texture) :=
  match urls with
  | [] => ([], Some None)
  | u :: rest =>
    match net u with
    | Loaded => ([u], Some (Some (Image u)))          (* break *)
    | Failed => let r := try_fallbacks net rest in (u :: fst r, snd r)
    | Pending => ([u], None)
    end
  end.

(** From [let blissTexture] to the canvas fallback. *)
Definition load_texture (net : string -> load_result) : Run texture :=
  match net blissImageUrl with
  | Loaded => ([blissImageUrl], Some (Image blissImageUrl))
  | Pending => ([blissImageUrl], None)
  | Failed =>
    let r := try_fallbacks net fallbackUrls in
    (blissImageUrl :: fst r,
     match snd r with
     | None => None
     | Some None => Some Canvas                        (* !blissTexture *)
     | Some (Some t) => Some t
     end)
  end.

(** [loadShader]: a [ShaderMaterial] with uniforms, or after a failed
    fetch a [MeshBasicMaterial] without. *)
Inductive material :=
| ShaderMaterial (t : texture)
| MeshBasicMaterial (t : texture).

Definition loadShader (shaders : load_result) (t : texture) : option material :=
  match shaders with
  | Loaded => Some (ShaderMaterial t)
  | Failed => Some (MeshBasicMaterial t)
  | Pending => None
  end.

Definition setupScene (net : string -> load_result) (shaders : load_result)
  : Run material :=
  (fst (load_texture net),
   match snd (load_texture net) with
   | Some t => loadShader shaders t
   | None => None
   end).

(** ** The constructor's [.then] chain *)

(** The elements the chain looks up. *)
Record PageEls := mkEls {
  title_bar : bool;            (* .title-bar *)
  btn_visualization : bool;    (* .btn-visualization *)
  btn_fullscreen : bool;       (* .btn-fullscreen *)
  taskbar_time : bool;         (* #taskbar-time *)
  controls : bool;             (* .controls *)
  modal_canvas : bool          (* #modal-visualizer *)
}.

(** What the chain did, in order. *)
Inductive effect :=
| MessageListener      (* setupSpotifyAPI *)
| DragListeners        (* setupWindowsControls: title bar and document *)
| StyleButton          (* ... the .btn-visualization click handler *)
| FullscreenButton     (* ... the .btn-fullscreen click handler *)
| OrientationListener  (* ... the orientationchange handler *)
| Resized              (* handleResize *)
| ClockShown           (* setupClock: the first updateClock *)
| ClockInterval        (* ... setInterval(updateClock, 1000) *)
| StatusElement        (* createStatusDisplay: the .playback-status element *)
| StatusPaused         (* ... updatePlaybackStatus(false) *)
| ModalCreated         (* initModalVisualizer *)
| Animating            (* animate *)
| Positioned           (* positionWindowForDevice *)
| LoggedSuccess        (* "Visualizer initialized successfully!" *)
| LoggedError.         (* the .catch handler *)

#[global] Instance effect_eq_dec : EqDecision effect.
Proof. solve_decision. Defined.

(** A step appends its effects and tells whether it threw (a method called
    on the [null] that a failed lookup returned). *)
Definition step : Type := list effect -> list effect * bool.

Definition does (es : list effect) : step := fun log => ((log ++ es)%list, false).
Definition throws : step := fun log => (log, true).

Fixpoint steps (l : list step) : step :=
  fun log =>
    match l with
    | [] => (log, false)
    | s :: rest =>
      if snd (s log) then (fst (s log), true) else steps rest (fst (s log))
    end.

Definition setupSpotifyAPI : step := does [MessageListener].

Definition setupWindowsControls (p : PageEls) : step :=
  steps [ (if title_bar p then does [DragListeners] else throws);
          (if btn_visualization p then does [StyleButton] else throws);
          (if btn_fullscreen p then does [FullscreenButton] else throws);
          does [OrientationListener] ].

Definition handleResize : step := does [Resized].

Definition setupClock (p : PageEls) : step :=
  steps [ (if taskbar_time p then does [ClockShown] else throws);
          does [ClockInterval] ].

Definition createStatusDisplay (p : PageEls) : step :=
  steps [ (if controls p then does [StatusElement] else does []);
          does [StatusPaused] ].

Definition initModalVisualizer (p : PageEls) : step :=
  if modal_canvas p then does [ModalCreated] else does [].

Definition animate : step := does [Animating].

Definition positionWindowForDevice : step := does [Positioned].

(** [this.setupScene().then(() => { ... }).catch(err => ...)]; [None] while
    [setupScene] never completes. *)
Definition start (net : string -> load_result) (shaders : load_result)
    (p : PageEls) : option (list effect) :=
  match snd (setupScene net shaders) with
  | None => None
  | Some _ =>
    let r := steps [ setupSpotifyAPI; setupWindowsControls p; handleResize;
                     setupClock p; createStatusDisplay p;
                     initModalVisualizer p; animate; positionWindowForDevice;
                     does [LoggedSuccess] ] [] in
    Some (if snd r then (fst r ++ [LoggedError])%list else fst r)
  end.

Definition happened (e : effect) (log : list effect) : bool :=
  bool_decide (e ∈ log).

Definition failed (net : string -> load_result) (u : string) : Prop :=
  net u = Failed.

End Startup.

(* ===================================================================== *)
(** * Part VIII: the sound download script                               *)
(* ===================================================================== *)

Module FetchSounds.

(** The [name] fields of [sounds], in order. *)
Definition sounds : list string :=
  ["close"; "minimize"; "ding"; "error"; "exclamation";
   "startup"; "shutdown"; "logon"; "logoff"; "critical_stop"; "notify";
   "tada"; "maximize"; "restore"; "click"; "navigate"; "recycle";
   "hardware_insert"; "hardware_remove"; "battery_critical"; "battery_low";
   "balloon"; "menu_command"; "menu_popup"; "question"; "default";
   "asterisk"; "print_complete";
   "media_play"; "media_pause"; "media_stop"; "media_next"; "media_prev"].

(** The files of the directory [windows-xp-sounds], by name. *)
Abbreviation Dir := (gmap string string).

Definition placeholder : string :=
  "// This is a placeholder for the sound file".

Definition fileName (name : string) : string := name ++ ".mp3".

(** [downloadSound]: [write_throws] tells for which files
    [fs.writeFileSync] throws; the [catch] logs and goes on. *)
Definition downloadSound (write_throws : string -> bool) (name : string)
    (d : Dir) : Dir :=
  match d !! fileName name with
  | Some _ => d                                       (* existsSync *)
  | None =>
    if write_throws (fileName name) then d
    else <[fileName name := placeholder]> d
  end.

Definition downloadAllSounds (write_throws : string -> bool) (d : Dir) : Dir :=
  foldl (fun d name => downloadSound write_throws name d) d sounds.

(** [sound.name.replace(/_/g, ' ')]. *)
Fixpoint spaced (s : string) : string :=
  match s with
  | EmptyString => EmptyString
  | String c r => String (if Ascii.eqb c "_" then " "%char else c) (spaced r)
  end.

Definition newline : string := String (Ascii.ascii_of_nat 10) EmptyString.

Definition soundLine (name : string) : string :=
  "- `" ++ name ++ ".mp3` - Windows XP " ++ spaced name ++ " sound".

Fixpoint join (sep : string) (l : list string) : string :=
  match l with
  | [] => ""
  | [x] => x
  | x :: r => x ++ sep ++ join sep r
  end.

Definition lines (l : list string) : string :=
  join newline l ++ newline.

Definition readmeContent : string :=
  lines ["# Windows XP Sounds"; "";
         "This directory contains Windows XP system sounds for use in the media player application.";
         ""; "## Sound Files"; "";
         join newline (map soundLine sounds);
         ""; "## Sources"; "";
         "These sounds are from the Windows XP operating system. They can be downloaded from:";
         "- [101soundboards.com Windows XP Sounds](https://www.101soundboards.com/boards/33948-windows-xp-sounds)";
         ""; "## Usage"; "";
         "These sounds are used in the media player application to provide authentic Windows XP sound effects.";
         "They are loaded via the `windowsXPSounds.js` file.";
         ""; "## Legal"; "";
         "These sounds are copyright Microsoft Corporation and are included here for educational purposes only.";
         "If you're using this project commercially, please ensure you have the appropriate licenses."].

Definition readme : string := "README.md".

(** [createReadme]: its [writeFileSync] is not guarded; [None] when it
    throws. *)
Definition createReadme (write_throws : string -> bool) (d : Dir)
  : option Dir :=
  if write_throws readme then None
  else Some (<[readme := readmeContent]> d).

(** [createReadme(); downloadAllSounds();]: an exception of the first
    statement ends the script. *)
Definition main (write_throws : string -> bool) (d : Dir) : Dir :=
  match createReadme write_throws d with
  | None => d
  | Some d1 => downloadAllSounds write_throws d1
  end.

(** Once a sound was tried, its file exists or cannot be written. *)
Definition tried (write_throws : string -> bool) (d : Dir) (name : string)
  : Prop :=
  is_Some (d !! fileName name) \/ write_throws (fileName name) = true.

End FetchSounds.

(* ===================================================================== *)
(** * Part IX: properties of the sound layer                             *)
(* ===================================================================== *)

Module SoundFacts.
Import Sound.

(** ** Element updates *)

Lemma dom_upd h f w : dom (upd h f w) = alter f h (dom w).
Proof. reflexivity. Qed.

Lemma length_dom_upd h f w : length (dom (upd h f w)) = length (dom w).
Proof. rewrite dom_upd. apply length_alter. Qed.

Lemma el_upd_ne h h' f w : h <> h' -> el (upd h f w) h' = el w h'.
Proof.
  intros Hne. unfold el. rewrite dom_upd.
  by rewrite list_lookup_alter_ne.
Qed.

Lemma el_upd_eq h f w :
  (h < length (dom w))%nat -> el (upd h f w) h = f (el w h).
Proof.
  intros Hlt. unfold el. rewrite dom_upd.
  rewrite list_lookup_alter. destruct (decide (h = h)) as [_|]; [|done].
  destruct (lookup_lt_is_Some_2 (dom w) h Hlt) as [e He].
  rewrite He. reflexivity.
Qed.

(** A field that [f] leaves alone is unchanged everywhere, also when the
    handle is out of range. *)
Lemma el_upd_keep {A} (P : WindowEl -> A) h h' f w :
  (forall e, P (f e) = P e) -> P (el (upd h f w) h') = P (el w h').
Proof.
  intros Hf. unfold el. rewrite dom_upd.
  rewrite list_lookup_alter. destruct (decide (h = h')) as [->|]; [|done].
  destruct (dom w !! h'); cbn; auto.
Qed.

(** ** Worlds that agree on what the close gate looks at *)

Lemma same_gate_refl w : same_gate w w.
Proof. by repeat split. Qed.

Lemma same_gate_trans w1 w2 w3 :
  same_gate w1 w2 -> same_gate w2 w3 -> same_gate w1 w3.
Proof.
  intros (L1 & F1 & T1) (L2 & F2 & T2). split; [congruence|].
  split; [|congruence]. intros h.
  destruct (F1 h), (F2 h). split; congruence.
Qed.

Lemma filter_filter_sub {A} (p q : A -> bool) (l : list A) :
  (forall x, p x = true -> q x = true) ->
  List.filter p (List.filter q l) = List.filter p l.
Proof.
  intros Hpq. induction l as [|x l IH]; [done|]. cbn.
  destruct (q x) eqn:Hq; cbn.
  - by rewrite IH.
  - destruct (p x) eqn:Hp; [|done]. apply Hpq in Hp. congruence.
Qed.

Lemma clears_is_clear h t : clears h t = true -> is_clear (snd t) = true.
Proof. destruct t as [d a]. by destruct a. Qed.

Lemma clears_xp_is_clear h t : clears_xp h t = true -> is_clear (snd t) = true.
Proof. destruct t as [d a]. by destruct a. Qed.

Lemma count_clears_part h l :
  count_timers (clears h) (clear_part l) = count_timers (clears h) l.
Proof.
  unfold count_timers, clear_part. f_equal.
  apply filter_filter_sub, clears_is_clear.
Qed.

Lemma count_clears_xp_part h l :
  count_timers (clears_xp h) (clear_part l) = count_timers (clears_xp h) l.
Proof.
  unfold count_timers, clear_part. f_equal.
  apply filter_filter_sub, clears_xp_is_clear.
Qed.

Lemma elem_clear_part t l :
  t ∈ clear_part l <-> t ∈ l /\ is_clear (snd t) = true.
Proof.
  unfold clear_part. rewrite !list_elem_of_In. apply List.filter_In.
Qed.

Lemma same_gate_counts w w' h :
  same_gate w w' ->
  count_timers (clears h) (timers w') = count_timers (clears h) (timers w) /\
  count_timers (clears_xp h) (timers w')
  = count_timers (clears_xp h) (timers w).
Proof.
  intros (_ & _ & T).
  rewrite <- (count_clears_part h (timers w')), <- (count_clears_part h (timers w)).
  rewrite <- (count_clears_xp_part h (timers w')),
          <- (count_clears_xp_part h (timers w)).
  by rewrite T.
Qed.

Lemma same_gate_inv w w' : same_gate w w' -> gate_inv w -> gate_inv w'.
Proof.
  intros S I h Hh. destruct (same_gate_counts w w' h S) as [E3 E4].
  destruct S as (L & F & T). rewrite L in Hh.
  destruct (I h Hh) as (I1 & I2 & I3 & I4), (F h) as [E1 E2].
  rewrite E1, E2, E3, E4. done.
Qed.

Lemma same_gate_closing_until w w' D h :
  same_gate w w' -> closing_until D h w -> closing_until D h w'.
Proof.
  intros (L & F & T) [C U]. split.
  - destruct (F h) as [-> _]. done.
  - intros t Ht Hc. apply U; [|done].
    assert (t ∈ clear_part (timers w')) as Hin
      by (apply elem_clear_part; eauto using clears_is_clear).
    rewrite T in Hin. by apply elem_clear_part in Hin as [? _].
Qed.

Lemma same_gate_upd h f w : keeps_gate_flags f -> same_gate w (upd h f w).
Proof.
  intros Hf. split; [apply length_dom_upd|]. split; [|done].
  intros h'. unfold closing, critical_played. split.
  - apply (el_upd_keep (fun e => is_true_attr (ds_closingInProgress e))).
    intros e. by destruct (Hf e) as [-> _].
  - apply (el_upd_keep (fun e => is_true_attr (ds_criticalSoundPlayed e))).
    intros e. by destruct (Hf e) as [_ ->].
Qed.

Lemma count_timers_app p (l1 l2 : list (Z * timer_action)) :
  count_timers p (l1 ++ l2)%list =
  (count_timers p l1 + count_timers p l2)%nat.
Proof. unfold count_timers. by rewrite List.filter_app, length_app. Qed.

Lemma timers_add_timer d a w :
  timers (add_timer d a w) = (timers w ++ [(now w + Z.max 0 d, a)])%list.
Proof. reflexivity. Qed.

Lemma count_timers_one p t :
  count_timers p [t] = if p t then 1%nat else 0%nat.
Proof. unfold count_timers. cbn. by destruct (p t). Qed.

Lemma clear_part_app (l1 l2 : list (Z * timer_action)) :
  clear_part (l1 ++ l2)%list = (clear_part l1 ++ clear_part l2)%list.
Proof. apply List.filter_app. Qed.

Lemma same_gate_add_timer d a w :
  is_clear a = false -> same_gate w (add_timer d a w).
Proof.
  intros Ha. split; [done|]. split; [done|].
  rewrite timers_add_timer, clear_part_app. unfold clear_part at 2. cbn.
  rewrite Ha. apply app_nil_r.
Qed.

Lemma same_gate_audio_start o n v w : same_gate w (fst (audio_start o n v w)).
Proof. unfold audio_start. destruct (audio_throws w o n v); by repeat split. Qed.

Lemma same_gate_xp_play n v w : same_gate w (fst (xp_play n v w)).
Proof.
  unfold xp_play, xp_play_sound.
  repeat (case_match; try apply same_gate_refl; try apply same_gate_audio_start).
Qed.

Lemma same_gate_sm_play n v w : same_gate w (fst (sm_play n v w)).
Proof.
  unfold sm_play.
  repeat (case_match; try apply same_gate_refl; try apply same_gate_audio_start;
          try apply same_gate_xp_play).
Qed.

Lemma same_gate_xp_addActiveWindow id w : same_gate w (xp_addActiveWindow id w).
Proof. unfold xp_addActiveWindow. by apply (same_gate_add_timer _ _ (set_xp_active _ w)). Qed.

Lemma same_gate_sm_addActiveWindow id w : same_gate w (sm_addActiveWindow id w).
Proof.
  unfold sm_addActiveWindow. case_match; [apply same_gate_refl|].
  by apply (same_gate_add_timer _ _ (set_sm_active _ w)).
Qed.

Lemma keeps_set_initialWindow s : keeps_gate_flags (set_initialWindow s).
Proof. by intros e. Qed.
Lemma keeps_set_soundPlayed s : keeps_gate_flags (set_soundPlayed s).
Proof. by intros e. Qed.
Lemma keeps_set_classes c : keeps_gate_flags (set_classes c).
Proof. by intros e. Qed.
Lemma keeps_set_display d : keeps_gate_flags (set_display d).
Proof. by intros e. Qed.
Lemma keeps_compose f g :
  keeps_gate_flags f -> keeps_gate_flags g -> keeps_gate_flags (fun e => f (g e)).
Proof. intros Hf Hg e. destruct (Hf (g e)), (Hg e). split; congruence. Qed.

Create HintDb gate.

#[local] Hint Resolve same_gate_refl same_gate_upd same_gate_add_timer
  same_gate_xp_play same_gate_sm_play same_gate_xp_addActiveWindow
  same_gate_sm_addActiveWindow keeps_set_initialWindow keeps_set_soundPlayed
  keeps_set_classes keeps_set_display keeps_compose : gate.

(** Peel the outermost update off the right-hand world. *)
Ltac sg_step :=
  match goal with
  | |- same_gate ?w ?w => apply same_gate_refl
  | |- same_gate ?w (add_timer ?d ?a ?x) =>
      apply (same_gate_trans w x); [| by apply same_gate_add_timer]
  | |- same_gate ?w (upd ?h ?f ?x) =>
      apply (same_gate_trans w x); [| apply same_gate_upd; eauto with gate]
  | |- same_gate ?w (fst (xp_play ?n ?v ?x)) =>
      apply (same_gate_trans w x); [| apply same_gate_xp_play]
  | |- same_gate ?w (fst (sm_play ?n ?v ?x)) =>
      apply (same_gate_trans w x); [| apply same_gate_sm_play]
  | |- same_gate ?w (xp_addActiveWindow ?i ?x) =>
      apply (same_gate_trans w x); [| apply same_gate_xp_addActiveWindow]
  | |- same_gate ?w (sm_addActiveWindow ?i ?x) =>
      apply (same_gate_trans w x); [| apply same_gate_sm_addActiveWindow]
  | |- same_gate ?w (set_lastSoundWindow _ ?x) =>
      apply (same_gate_trans w x); [| by repeat split]
  | |- same_gate ?w (set_recent _ ?x) =>
      apply (same_gate_trans w x); [| by repeat split]
  | |- same_gate ?w (set_prevent _ ?x) =>
      apply (same_gate_trans w x); [| by repeat split]
  | |- same_gate ?w (set_xp_enabled _ ?x) =>
      apply (same_gate_trans w x); [| by repeat split]
  | |- same_gate ?w (set_sm_enabled _ ?x) =>
      apply (same_gate_trans w x); [| by repeat split]
  | |- same_gate ?w (set_xp_active _ ?x) =>
      apply (same_gate_trans w x); [| by repeat split]
  | |- same_gate ?w (set_sm_active _ ?x) =>
      apply (same_gate_trans w x); [| by repeat split]
  | |- same_gate ?w (set_now _ ?x) =>
      apply (same_gate_trans w x); [| by repeat split]
  | |- same_gate _ (if ?b then _ else _) => destruct b
  | |- same_gate _ (fst (if ?b then _ else _)) => destruct b
  | |- same_gate _ (fst (_, _)) => cbn [fst]
  end.

Ltac sg := repeat sg_step.

Lemma same_gate_xp_play_and_mark h n v d w :
  same_gate w (fst (xp_play_and_mark h n v d w)).
Proof.
  unfold xp_play_and_mark. case_match; [apply same_gate_refl|].
  destruct (xp_play n v w) as [w2 r] eqn:E. cbn [fst].
  assert (same_gate w w2) by (change w2 with (fst (w2, r)); rewrite <- E; sg).
  apply (same_gate_trans _ w2); [done|]. sg.
Qed.

Lemma same_gate_sm_play_and_mark h n v d w :
  same_gate w (fst (sm_play_and_mark h n v d w)).
Proof.
  unfold sm_play_and_mark. case_match; [apply same_gate_refl|].
  destruct (sm_play n v w) as [w2 r] eqn:E. cbn [fst].
  assert (same_gate w w2) by (change w2 with (fst (w2, r)); rewrite <- E; sg).
  apply (same_gate_trans _ w2); [done|]. sg.
Qed.

(** ** The close gates keep the invariant *)

Lemma same_gate_forget_initial h w : same_gate w (forget_initial h w).
Proof. unfold forget_initial. sg. Qed.

Lemma upd_upd h f g w : upd h f (upd h g w) = upd h (fun e => f (g e)) w.
Proof.
  unfold upd, set_dom; cbn. f_equal.
  apply list_alter_alter_eq.
Qed.

Lemma count_timers_le p q (l : list (Z * timer_action)) :
  (forall t, p t = true -> q t = true) ->
  (count_timers p l <= count_timers q l)%nat.
Proof.
  intros Hpq. unfold count_timers. induction l as [|t l IH]; [done|]. cbn.
  destruct (p t) eqn:Hp.
  - rewrite (Hpq t Hp). cbn. lia.
  - destruct (q t); cbn; lia.
Qed.

Lemma clears_xp_clears h t : clears_xp h t = true -> clears h t = true.
Proof. destruct t as [d a]. by destruct a. Qed.

Lemma count_timers_0 p (l : list (Z * timer_action)) t :
  count_timers p l = 0%nat -> t ∈ l -> p t = false.
Proof.
  unfold count_timers. intros H0 Hin.
  destruct (p t) eqn:Hp; [|done].
  assert (In t (List.filter p l)) as Hf
    by (apply List.filter_In; split; [by apply list_elem_of_In|done]).
  destruct (List.filter p l); [done|discriminate].
Qed.

(** Marking a window that is not closing and registering its clear
    callback.  [g] is what happens to the element: [closingInProgress]
    becomes ['true']; the callback of windowsXPSounds.js must not come with
    a change of [criticalSoundPlayed]. *)
Lemma gate_inv_mark w h g a :
  gate_inv w -> closing w h = false ->
  (forall e, ds_closingInProgress (g e) = Some "true") ->
  (a = TClearClosingSM h \/
   a = TClearClosingXP h /\
   forall e, ds_criticalSoundPlayed (g e) = ds_criticalSoundPlayed e) ->
  gate_inv (add_timer 1500 a (upd h g w)).
Proof.
  intros I Hc Hg Ha h' Hh'.
  change (length (dom (add_timer 1500 a (upd h g w))))
    with (length (dom (upd h g w))) in Hh'.
  rewrite length_dom_upd in Hh'.
  destruct (I h' Hh') as (I1 & I2 & I3 & I4).
  rewrite timers_add_timer, !count_timers_app, !count_timers_one.
  change (timers (upd h g w)) with (timers w).
  unfold closing, critical_played in *.
  change (el (add_timer 1500 a (upd h g w)) h') with (el (upd h g w) h').
  destruct (decide (h = h')) as [<-|Hne].
  - rewrite el_upd_eq by done. rewrite Hg.
    specialize (I1 Hc).
    assert (count_timers (clears_xp h) (timers w) = 0%nat) as X0.
    { pose proof (count_timers_le (clears_xp h) (clears h) (timers w)
                    (clears_xp_clears h)). lia. }
    assert (clears h (now (upd h g w) + Z.max 0 1500, a) = true) as ->.
    { destruct Ha as [->|[-> _]]; unfold clears; cbn; by rewrite bool_decide_eq_true. }
    rewrite I1, X0. repeat split; try done; try lia.
    intros Hcr. destruct Ha as [->|[-> Hk]]; [done|].
    rewrite Hk in Hcr. specialize (I3 Hcr). congruence.
  - rewrite el_upd_ne by done.
    assert (clears h' (now (upd h g w) + Z.max 0 1500, a) = false) as ->.
    { destruct Ha as [->|[-> _]]; unfold clears; cbn;
        by rewrite bool_decide_eq_false. }
    assert (clears_xp h' (now (upd h g w) + Z.max 0 1500, a) = false) as ->.
    { destruct Ha as [->|[-> _]]; unfold clears_xp; cbn; [done|].
      by rewrite bool_decide_eq_false. }
    rewrite !Nat.add_0_r. done.
Qed.

Lemma closing_until_mark w h g a :
  gate_inv w -> (h < length (dom w))%nat -> closing w h = false ->
  (forall e, ds_closingInProgress (g e) = Some "true") ->
  closing_until (now w + 1500) h (add_timer 1500 a (upd h g w)).
Proof.
  intros I Hh Hc Hg. destruct (I h Hh) as (I1 & _). specialize (I1 Hc).
  split.
  - unfold closing.
    change (el (add_timer 1500 a (upd h g w)) h) with (el (upd h g w) h).
    by rewrite el_upd_eq, Hg.
  - intros t. rewrite timers_add_timer. change (timers (upd h g w)) with (timers w).
    rewrite elem_of_app, list_elem_of_singleton. intros [Hin | ->] Hcl.
    + by rewrite (count_timers_0 _ _ _ I1 Hin) in Hcl.
    + cbn. change (now (upd h g w)) with (now w). lia.
Qed.

Lemma playSoundForWindow_inv h n v d w :
  gate_inv w -> gate_inv (fst (playSoundForWindow h n v d w)).
Proof.
  intros I. unfold playSoundForWindow.
  destruct (bool_decide (n = "critical")); cbn [negb].
  2: { eapply same_gate_inv; [apply same_gate_xp_play_and_mark|done]. }
  unfold xp_critical_gate.
  pose proof (same_gate_forget_initial h w) as S.
  pose proof (same_gate_inv _ _ S I) as I2.
  destruct (is_true_attr (ds_closingInProgress (el (forget_initial h w) h))) eqn:Hc;
    cbn [negb fst]; [done|].
  eapply same_gate_inv; [apply same_gate_xp_play_and_mark|].
  apply gate_inv_mark; auto.
Qed.

Lemma playForWindow_inv oh n v d w :
  gate_inv w -> gate_inv (fst (playForWindow oh n v d w)).
Proof.
  intros I. destruct oh as [h|]; cbn [playForWindow].
  2: { eapply same_gate_inv; [apply same_gate_sm_play|done]. }
  destruct (is_close_name n); cbn [negb].
  2: { eapply same_gate_inv; [apply same_gate_sm_play_and_mark|done]. }
  unfold sm_close_gate.
  pose proof (same_gate_forget_initial h w) as S.
  pose proof (same_gate_inv _ _ S I) as I2.
  destruct (is_true_attr (ds_closingInProgress (el (forget_initial h w) h))) eqn:Hc;
    cbn [negb fst]; [done|].
  match goal with |- context [if ?b then (_, false) else _] => destruct b end;
    cbn [negb fst]; [done|].
  eapply same_gate_inv; [apply same_gate_sm_play_and_mark|].
  destruct (bool_decide (n = "critical")).
  - rewrite upd_upd. apply gate_inv_mark; auto.
  - apply gate_inv_mark; auto.
Qed.

(** ** Timers *)

Lemma next_timer_perm l t rest :
  next_timer l = Some (t, rest) -> Permutation l (t :: rest).
Proof.
  revert t rest. induction l as [|x l IH]; intros t rest; [done|]. cbn.
  destruct (next_timer l) as [[t' rest']|] eqn:E.
  - specialize (IH _ _ eq_refl). case_match; intros [= <- <-]; [done|].
    rewrite IH. apply perm_swap.
  - intros [= <- <-]. destruct l; [done|]. cbn in E.
    destruct (next_timer l) as [[? ?]|]; [case_match|]; discriminate.
Qed.

Lemma next_timer_count p l t rest :
  next_timer l = Some (t, rest) ->
  count_timers p l = ((if p t then 1 else 0) + count_timers p rest)%nat.
Proof.
  intros H%next_timer_perm. unfold count_timers.
  assert (Permutation (List.filter p l) (List.filter p (t :: rest))) as HP.
  { clear -H. induction H; cbn; repeat case_match; eauto using Permutation. }
  rewrite (Permutation_length HP). cbn. destruct (p t); done.
Qed.

Lemma next_timer_elem l t rest x :
  next_timer l = Some (t, rest) -> x ∈ l <-> x = t \/ x ∈ rest.
Proof.
  intros H%next_timer_perm. rewrite H. apply elem_of_cons.
Qed.

(** The timer picked is an earliest one. *)
Lemma next_timer_min l t rest x :
  next_timer l = Some (t, rest) -> x ∈ l -> fst t <= fst x.
Proof.
  revert t rest. induction l as [|y l IH]; intros t rest; [done|]. cbn.
  destruct (next_timer l) as [[t' rest']|] eqn:E.
  - specialize (IH _ _ eq_refl).
    destruct (Z.leb_spec (fst y) (fst t')); intros [= <- <-];
      rewrite elem_of_cons; intros [->|Hx]; try lia; specialize (IH Hx); lia.
  - intros [= <- <-]. destruct l.
    + rewrite list_elem_of_singleton. intros ->. lia.
    + cbn in E. destruct (next_timer l) as [[? ?]|]; [case_match|]; discriminate.
Qed.

Lemma next_timer_none l : next_timer l = None -> l = [].
Proof.
  destruct l as [|x l]; [done|]. cbn.
  destruct (next_timer l) as [[? ?]|]; [case_match|]; discriminate.
Qed.

Lemma clears_not_clear h d a : is_clear a = false -> clears h (d, a) = false.
Proof. by destruct a. Qed.

Lemma clears_xp_not_clear h d a :
  is_clear a = false -> clears_xp h (d, a) = false.
Proof. by destruct a. Qed.

Lemma same_gate_foldl {A} (step : World -> A -> World) (l : list A) w :
  (forall w x, same_gate w (step w x)) -> same_gate w (foldl step w l).
Proof.
  intros Hs. revert w. induction l as [|x l IH]; intros w; cbn.
  - apply same_gate_refl.
  - eapply same_gate_trans; [apply Hs|apply IH].
Qed.

Lemma same_gate_fire a w : is_clear a = false -> same_gate w (fire a w).
Proof.
  destruct a; try discriminate; intros _; cbn [fire]; sg.
  apply same_gate_foldl. intros w' h. unfold reset_step. sg.
Qed.

(** Dropping a timer that clears nothing. *)
Lemma gate_inv_drop w d a rest t :
  gate_inv w -> next_timer (timers w) = Some ((d, a), rest) ->
  is_clear a = false ->
  gate_inv (set_timers rest (set_now t w)).
Proof.
  intros I Hn Ha h Hh. destruct (I h Hh) as (I1 & I2 & I3 & I4).
  rewrite (next_timer_count (clears h) _ _ _ Hn) in I1, I2.
  rewrite (next_timer_count (clears_xp h) _ _ _ Hn) in I4.
  rewrite clears_not_clear in I1, I2 by done.
  rewrite clears_xp_not_clear in I4 by done.
  done.
Qed.

(** Running the callback that clears [closingInProgress] of [h0]. *)
Lemma gate_inv_unmark w d a rest t h0 g :
  gate_inv w -> next_timer (timers w) = Some ((d, a), rest) ->
  (a = TClearClosingXP h0 /\ g = set_closingInProgress "" \/
   a = TClearClosingSM h0 /\
   g = (fun e => set_criticalSoundPlayed "" (set_closingInProgress "" e))) ->
  gate_inv (upd h0 g (set_timers rest (set_now t w))).
Proof.
  intros I Hn Ha h Hh. rewrite length_dom_upd in Hh.
  change (length (dom (set_timers rest (set_now t w))))
    with (length (dom w)) in Hh.
  destruct (I h Hh) as (I1 & I2 & I3 & I4).
  rewrite (next_timer_count (clears h) _ _ _ Hn) in I1, I2.
  rewrite (next_timer_count (clears_xp h) _ _ _ Hn) in I4.
  change (timers (upd h0 g (set_timers rest (set_now t w)))) with rest.
  unfold closing, critical_played in *.
  destruct (decide (h0 = h)) as [->|Hne].
  - rewrite el_upd_eq by done.
    change (el (set_timers rest (set_now t w)) h) with (el w h).
    assert (clears h (d, a) = true) as Hcl.
    { destruct Ha as [[-> _]|[-> _]]; unfold clears; cbn;
        by rewrite bool_decide_eq_true. }
    rewrite Hcl in I1, I2.
    assert (count_timers (clears h) rest = 0%nat) as R0 by lia.
    assert (count_timers (clears_xp h) rest = 0%nat) as X0.
    { pose proof (count_timers_le (clears_xp h) (clears h) rest
                    (clears_xp_clears h)). lia. }
    destruct Ha as [[-> ->]|[-> ->]]; cbn.
    + assert (clears_xp h (d, TClearClosingXP h) = true) as Hx
        by (unfold clears_xp; cbn; by rewrite bool_decide_eq_true).
      rewrite Hx in I4.
      destruct (is_true_attr (ds_criticalSoundPlayed (el w h))) eqn:Hcr.
      * specialize (I4 eq_refl). lia.
      * repeat split; try done; lia.
    + repeat split; try done; lia.
  - rewrite el_upd_ne by done.
    change (el (set_timers rest (set_now t w)) h) with (el w h).
    assert (clears h (d, a) = false) as Hcl.
    { destruct Ha as [[-> _]|[-> _]]; unfold clears; cbn;
        by rewrite bool_decide_eq_false. }
    assert (clears_xp h (d, a) = false) as Hx.
    { destruct Ha as [[-> _]|[-> _]]; unfold clears_xp; cbn; [|done].
      by rewrite bool_decide_eq_false. }
    rewrite Hcl in I1, I2. rewrite Hx in I4. done.
Qed.

Lemma fire_inv w d a rest t :
  gate_inv w -> next_timer (timers w) = Some ((d, a), rest) ->
  gate_inv (fire a (set_timers rest (set_now t w))).
Proof.
  intros I Hn. destruct (is_clear a) eqn:Ha.
  - destruct a; try discriminate; cbn [fire];
      eapply gate_inv_unmark; eauto.
  - eapply same_gate_inv; [by apply same_gate_fire|].
    by eapply gate_inv_drop.
Qed.

Lemma run_timers_inv fuel T w : gate_inv w -> gate_inv (run_timers fuel T w).
Proof.
  revert w. induction fuel as [|fuel IH]; intros w I; cbn; [done|].
  destruct (next_timer (timers w)) as [[[d a] rest]|] eqn:Hn; [|done].
  case_match; [|done]. apply IH. by eapply fire_inv.
Qed.

Lemma advance_inv dt w : gate_inv w -> gate_inv (advance dt w).
Proof.
  intros I. unfold advance. cbv zeta.
  eapply same_gate_inv; [|apply run_timers_inv, I]. by repeat split.
Qed.

(** ** Every reachable world satisfies the invariant *)

Lemma observe_one_inv h w : gate_inv w -> gate_inv (observe_one h w).
Proof.
  intros I. unfold observe_one. repeat (case_match; try done).
  - eapply same_gate_inv; [|done]. sg.
  - by apply playSoundForWindow_inv.
Qed.

Lemma observer_inv ms w : gate_inv w -> gate_inv (observer ms w).
Proof.
  unfold observer. case_match; [done|]. clear.
  revert w. induction ms as [|h ms IH]; intros w I; cbn; [done|].
  apply IH. by apply observe_one_inv.
Qed.

Lemma close_click_inv h w : gate_inv w -> gate_inv (close_click h w).
Proof.
  intros I. unfold close_click.
  eapply same_gate_inv; [apply same_gate_add_timer; done|].
  apply playSoundForWindow_inv.
  eapply same_gate_inv; [|done]. sg.
Qed.

Lemma control_click_inv n h w : gate_inv w -> gate_inv (control_click n h w).
Proof.
  intros I. unfold control_click.
  eapply same_gate_inv; [apply same_gate_add_timer; done|].
  apply playSoundForWindow_inv.
  eapply same_gate_inv; [|done]. sg.
Qed.

Lemma icon_click_inv t n w : gate_inv w -> gate_inv (icon_click t n w).
Proof.
  intros I. unfold icon_click.
  eapply same_gate_inv; [apply same_gate_add_timer; done|].
  destruct t as [h|].
  - apply playSoundForWindow_inv. eapply same_gate_inv; [|done]. sg.
  - eapply same_gate_inv; [|done]. sg.
Qed.

Lemma handle_event_inv ev w : gate_inv w -> gate_inv (handle_event ev w).
Proof.
  intros I.
  destruct ev; cbn [handle_event];
    try (destruct (xp_installed w); [|done]);
    first [ by apply advance_inv
          | by apply close_click_inv
          | by apply control_click_inv
          | by apply icon_click_inv
          | by apply observer_inv
          | by apply playForWindow_inv
          | by (eapply same_gate_inv; [|done]; sg) ].
Qed.

Lemma run_inv evs w : gate_inv w -> gate_inv (run evs w).
Proof.
  revert w. induction evs as [|ev evs IH]; intros w I; cbn; [done|].
  apply IH. by apply handle_event_inv.
Qed.

Lemma el_page_flags installed els throws h :
  ds_closingInProgress (el (page installed els throws) h) = None /\
  ds_criticalSoundPlayed (el (page installed els throws) h) = None.
Proof.
  unfold el, page; cbn. rewrite list_lookup_fmap.
  destruct (els !! h) as [[[id cl] d]|]; done.
Qed.

Lemma page_inv installed els throws : gate_inv (page installed els throws).
Proof.
  intros h _. unfold closing, critical_played.
  destruct (el_page_flags installed els throws h) as [-> ->].
  repeat split; cbn; try done; lia.
Qed.

Lemma same_gate_setup w : same_gate w (setupWindowsSounds w).
Proof.
  unfold setupWindowsSounds.
  eapply same_gate_trans; [|by apply same_gate_add_timer].
  split; [cbn; apply length_map|]. split; [|done].
  intros h. unfold closing, critical_played, el; cbn.
  rewrite list_lookup_fmap. destruct (dom w !! h) as [e|]; [|done]. cbn.
  unfold mark_initial. by case_match.
Qed.

Lemma init_inv installed els throws : gate_inv (init_world installed els throws).
Proof.
  unfold init_world. destruct installed; [|apply page_inv].
  eapply same_gate_inv; [apply same_gate_setup|apply page_inv].
Qed.

Lemma reachable_inv installed els throws evs :
  gate_inv (run evs (init_world installed els throws)).
Proof. apply run_inv, init_inv. Qed.

(** ** Steps that play nothing *)

Lemma quiet_refl w : quiet w w.
Proof. by split. Qed.

Lemma quiet_trans w1 w2 w3 : quiet w1 w2 -> quiet w2 w3 -> quiet w1 w3.
Proof. intros [? ?] [? ?]. split; congruence. Qed.

Lemma quiet_upd h f w : quiet w (upd h f w).
Proof. by split. Qed.

Lemma quiet_add_timer d a w : quiet w (add_timer d a w).
Proof. by split. Qed.

Lemma quiet_forget_initial h w : quiet w (forget_initial h w).
Proof. unfold forget_initial. by case_match. Qed.

Lemma quiet_foldl {A} (step : World -> A -> World) (l : list A) w :
  (forall w x, quiet w (step w x)) -> quiet w (foldl step w l).
Proof.
  intros Hs. revert w. induction l as [|x l IH]; intros w; cbn.
  - apply quiet_refl.
  - eapply quiet_trans; [apply Hs|apply IH].
Qed.

Lemma played_fire a w : played (fire a w) = played w.
Proof.
  destruct a; try reflexivity. cbn [fire].
  apply (quiet_foldl reset_step). intros w' h. by split.
Qed.

(** ** A closing window stays closing until its callback comes due *)

Lemma closing_until_fire D h w d a rest t :
  closing_until D h w ->
  next_timer (timers w) = Some ((d, a), rest) -> d < D ->
  closing_until D h (fire a (set_timers rest (set_now t w))).
Proof.
  intros [C U] Hn Hd.
  assert (clears h (d, a) = false) as Hcl.
  { destruct (clears h (d, a)) eqn:E; [|done].
    assert ((d, a) ∈ timers w) as Hin
      by (apply (next_timer_elem _ _ _ _ Hn); by left).
    specialize (U _ Hin E). cbn in U. lia. }
  assert (closing_until D h (set_timers rest (set_now t w))) as CU0.
  { split; [done|]. intros x Hx. apply U.
    apply (next_timer_elem _ _ _ _ Hn). by right. }
  destruct (is_clear a) eqn:Ha.
  - destruct CU0 as [C0 U0].
    destruct a; try discriminate; cbn [fire]; (split; [|done]);
      unfold clears in Hcl; cbn in Hcl; apply bool_decide_eq_false in Hcl;
      unfold closing; rewrite el_upd_ne by done; exact C0.
  - eapply same_gate_closing_until; [by apply same_gate_fire|done].
Qed.

Lemma run_timers_closing_until fuel T D h w :
  closing_until D h w -> T < D ->
  closing_until D h (run_timers fuel T w) /\
  played (run_timers fuel T w) = played w.
Proof.
  revert w. induction fuel as [|fuel IH]; intros w CU HT; cbn; [done|].
  destruct (next_timer (timers w)) as [[[d a] rest]|] eqn:Hn; [|done].
  destruct (Z.leb_spec d T); [|done].
  destruct (IH (fire a (set_timers rest (set_now (Z.max (now w) d) w))))
    as [CU' P']; [apply (closing_until_fire D h w d a rest _ CU Hn); lia|done|].
  split; [done|]. rewrite P'. by rewrite played_fire.
Qed.

Lemma advance_closing_until dt D h w :
  closing_until D h w -> now w + Z.max 0 dt < D ->
  closing_until D h (advance dt w) /\
  played (advance dt w) = played w /\
  now (advance dt w) = now w + Z.max 0 dt.
Proof.
  intros CU HT. unfold advance. cbv zeta.
  destruct (run_timers_closing_until (timer_fuel w) _ D h w CU HT) as [CU' P'].
  split; [|by split]. destruct CU' as [C U]. by split.
Qed.

(** A close request on a closing window is dropped. *)
Lemma request_closing h r w :
  closing w h = true ->
  snd (request h r w) = false /\
  same_gate w (fst (request h r w)) /\ quiet w (fst (request h r w)).
Proof.
  intros C.
  pose proof (same_gate_forget_initial h w) as S.
  pose proof (quiet_forget_initial h w) as Q.
  assert (is_true_attr (ds_closingInProgress (el (forget_initial h w) h)) = true)
    as C2.
  { destruct S as (_ & F & _). destruct (F h) as [E _].
    unfold closing in E, C. by rewrite E. }
  destruct r; cbn [request playForWindow]; unfold playSoundForWindow.
  - replace (bool_decide ("critical" = "critical")) with true by reflexivity.
    unfold xp_critical_gate. rewrite C2. by cbn.
  - replace (is_close_name "critical") with true by reflexivity.
    unfold sm_close_gate. rewrite C2. by cbn.
  - replace (is_close_name "windowClose") with true by reflexivity.
    unfold sm_close_gate. rewrite C2. by cbn.
Qed.

Lemma elapsed_nonneg rs : 0 <= elapsed rs.
Proof. unfold elapsed. induction rs as [|[? ?] ? ?]; cbn; lia. Qed.

Lemma burst_closing h D rs w :
  closing_until D h w -> now w + elapsed rs < D ->
  snd (burst h rs w) = repeat false (length rs) /\
  played (fst (burst h rs w)) = played w.
Proof.
  revert w. induction rs as [|[dt r] rs IH]; intros w CU HT; [done|].
  cbn [burst elapsed foldr fst] in *.
  fold (elapsed rs) in HT.
  pose proof (elapsed_nonneg rs) as Hpos.
  destruct (advance_closing_until dt D h w CU) as (CU1 & P1 & N1); [lia|].
  destruct (request_closing h r (advance dt w)) as (R & S & [Q1 Q2]);
    [apply CU1|].
  destruct (request h r (advance dt w)) as [w1 b] eqn:E. cbn [fst snd] in *.
  destruct (IH w1) as (B & P2).
  { eapply same_gate_closing_until; eauto. }
  { lia. }
  destruct (burst h rs w1) as [w2 bs]. cbn [fst snd length repeat] in *.
  split; [congruence|congruence].
Qed.

(** ** The first request of a close action plays *)

Lemma env_forget_initial h w :
  xp_installed (forget_initial h w) = xp_installed w /\
  xp_enabled (forget_initial h w) = xp_enabled w /\
  sm_enabled (forget_initial h w) = sm_enabled w /\
  audio_throws (forget_initial h w) = audio_throws w /\
  preventAllSounds (forget_initial h w) = preventAllSounds w.
Proof. unfold forget_initial. by case_match. Qed.

Lemma xp_play_critical v w :
  xp_enabled w = true -> audio_throws w XP "critical" v = false ->
  xp_play "critical" v w
  = (set_played (played w ++ [(XP, "critical", v)]) w, true).
Proof.
  intros He Ht. unfold xp_play. rewrite He. cbn [negb orb].
  replace (bool_decide ("critical" = "critical")) with true by reflexivity.
  rewrite andb_false_r.
  assert (xp_play_sound "critical" v w
          = (set_played (played w ++ [(XP, "critical", v)]) w, true)) as ->.
  { unfold xp_play_sound.
    replace (has_sound xp_sounds "critical") with true by reflexivity.
    unfold audio_start. by rewrite Ht. }
  by destruct (preventAllSounds w).
Qed.

Lemma xp_tail_critical h v d w :
  xp_enabled w = true -> audio_throws w XP "critical" v = false ->
  snd (xp_play_and_mark h "critical" v d w) = true /\
  played (fst (xp_play_and_mark h "critical" v d w))
  = (played w ++ [(XP, "critical", v)])%list /\
  now (fst (xp_play_and_mark h "critical" v d w)) = now w.
Proof.
  intros He Ht. unfold xp_play_and_mark.
  replace (bool_decide ("critical" = "critical")) with true by reflexivity.
  rewrite andb_false_r. rewrite (xp_play_critical v w He Ht).
  by destruct (negb (bool_decide (el_id (el w h) = ""))).
Qed.

Lemma close_name_cases n :
  is_close_name n = true -> n = "windowClose" \/ n = "critical".
Proof.
  unfold is_close_name. rewrite orb_true_iff, !bool_decide_eq_true. tauto.
Qed.

Lemma sm_play_close n v w :
  is_close_name n = true ->
  sm_enabled w = true -> xp_enabled w = true ->
  (forall o, audio_throws w o n v = false) ->
  exists o, sm_play n v w = (set_played (played w ++ [(o, n, v)]) w, true).
Proof.
  intros [-> | ->]%close_name_cases Hs Hx Ht; unfold sm_play; rewrite Hs;
    cbn [negb].
  - replace (has_sound xp_sounds "windowClose") with false by reflexivity.
    rewrite andb_false_r.
    replace (has_sound sm_sounds "windowClose") with true by reflexivity.
    cbn [negb]. unfold audio_start. rewrite Ht. by exists SM.
  - replace (has_sound xp_sounds "critical") with true by reflexivity.
    replace (has_sound sm_sounds "critical") with true by reflexivity.
    rewrite andb_true_r. destruct (xp_installed w); cbn [negb].
    + exists XP. by apply xp_play_critical.
    + unfold audio_start. rewrite Ht. by exists SM.
Qed.

Lemma sm_tail_close h n v d w :
  is_close_name n = true ->
  sm_enabled w = true -> xp_enabled w = true ->
  (forall o, audio_throws w o n v = false) ->
  exists o,
    snd (sm_play_and_mark h n v d w) = true /\
    played (fst (sm_play_and_mark h n v d w)) = (played w ++ [(o, n, v)])%list /\
    now (fst (sm_play_and_mark h n v d w)) = now w.
Proof.
  intros Hn Hs Hx Ht. unfold sm_play_and_mark. rewrite Hn.
  cbn [negb]. rewrite andb_false_r.
  destruct (sm_play_close n v w Hn Hs Hx Ht) as [o ->]. exists o.
  unfold sm_addActiveWindow. by case_match.
Qed.

Lemma first_request_plays h r w :
  gate_inv w -> (h < length (dom w))%nat -> closing w h = false ->
  xp_enabled w = true -> sm_enabled w = true ->
  (forall o n v, audio_throws w o n v = false) ->
  exists e,
    snd (request h r w) = true /\
    played (fst (request h r w)) = (played w ++ [e])%list /\
    now (fst (request h r w)) = now w /\
    closing_until (now w + 1500) h (fst (request h r w)).
Proof.
  intros I Hh C Hx Hs Ht.
  pose proof (same_gate_forget_initial h w) as S.
  pose proof (quiet_forget_initial h w) as [QP QN].
  destruct (env_forget_initial h w) as (EI & EX & ES & ET & _).
  pose proof (same_gate_inv _ _ S I) as I2.
  destruct S as (L & F & _). destruct (F h) as [FC FK].
  rewrite <- L in Hh. rewrite <- FC in C.
  assert (critical_played (forget_initial h w) h = false) as K.
  { destruct (critical_played (forget_initial h w) h) eqn:E; [|done].
    destruct (I2 h Hh) as (_ & _ & I3 & _). rewrite (I3 E) in C. done. }
  set (w2 := forget_initial h w) in *.
  destruct r as [v d|v d|v d]; cbn [request playForWindow];
    unfold playSoundForWindow.
  - replace (bool_decide ("critical" = "critical")) with true by reflexivity.
    unfold xp_critical_gate. fold w2. unfold closing in C. rewrite C.
    cbn [negb].
    set (w4 := add_timer 1500 (TClearClosingXP h)
                 (upd h (set_closingInProgress "true") w2)).
    destruct (xp_tail_critical h v d w4) as (R & P & N);
      [change (xp_enabled w2 = true); congruence
      |change (audio_throws w2 XP "critical" v = false); rewrite ET; apply Ht |].
    exists (XP, "critical", v). split; [done|]. split.
    + rewrite P. by rewrite <- QP.
    + split; [by rewrite N, <- QN|].
      eapply same_gate_closing_until; [apply same_gate_xp_play_and_mark|].
      rewrite <- QN. by apply closing_until_mark.
  - replace (is_close_name "critical") with true by reflexivity.
    unfold sm_close_gate. fold w2. unfold closing in C. rewrite C.
    replace (bool_decide ("critical" = "windowClose")) with false by reflexivity.
    rewrite andb_false_r. cbn [andb negb].
    replace (bool_decide ("critical" = "critical")) with true by reflexivity.
    rewrite upd_upd.
    set (w4 := add_timer 1500 (TClearClosingSM h) (upd h _ w2)).
    destruct (sm_tail_close h "critical" v d w4) as (o & R & P & N);
      [done | change (sm_enabled w2 = true); congruence
       | change (xp_enabled w2 = true); congruence
       | intros o; change (audio_throws w2 o "critical" v = false);
         rewrite ET; apply Ht |].
    exists (o, "critical", v). split; [done|]. split.
    + rewrite P. by rewrite <- QP.
    + split; [by rewrite N, <- QN|].
      eapply same_gate_closing_until; [apply same_gate_sm_play_and_mark|].
      rewrite <- QN. by apply closing_until_mark.
  - replace (is_close_name "windowClose") with true by reflexivity.
    unfold sm_close_gate. fold w2. unfold closing in C. rewrite C.
    unfold critical_played in K. rewrite K. rewrite andb_false_r.
    replace (bool_decide ("windowClose" = "critical")) with false by reflexivity.
    cbn [negb].
    set (w4 := add_timer 1500 (TClearClosingSM h) (upd h _ w2)).
    destruct (sm_tail_close h "windowClose" v d w4) as (o & R & P & N);
      [done | change (sm_enabled w2 = true); congruence
       | change (xp_enabled w2 = true); congruence
       | intros o; change (audio_throws w2 o "windowClose" v = false);
         rewrite ET; apply Ht |].
    exists (o, "windowClose", v). split; [done|]. split.
    + rewrite P. by rewrite <- QP.
    + split; [by rewrite N, <- QN|].
      eapply same_gate_closing_until; [apply same_gate_sm_play_and_mark|].
      rewrite <- QN. by apply closing_until_mark.
Qed.

(** ** C1 and C8 *)

(** C1.  In every reachable world, for a window that is not yet closing and
    with both managers enabled and audio that starts: of a first request for
    the close sound (by [playSoundForWindow] with 'critical', or by
    [playForWindow] with 'critical' or 'windowClose') followed by any number
    of further such requests for the same window that all arrive less than
    1500ms after the first, the first one returns [true], every later one
    returns [false], and exactly one sound was started. *)
Theorem C1_close_sound_plays_exactly_once installed els throws evs h r rs :
  let w := run evs (init_world installed els throws) in
  (h < length (dom w))%nat ->
  closing w h = false ->
  xp_enabled w = true -> sm_enabled w = true ->
  (forall o n v, audio_throws w o n v = false) ->
  elapsed rs < 1500 ->
  snd (request h r w) = true /\
  snd (burst h rs (fst (request h r w))) = repeat false (length rs) /\
  exists e,
    played (fst (burst h rs (fst (request h r w)))) = (played w ++ [e])%list.
Proof.
  intros w Hh C Hx Hs Ht Hel.
  pose proof (reachable_inv installed els throws evs) as I. fold w in I.
  destruct (first_request_plays h r w I Hh C Hx Hs Ht) as (e & R & P & N & CU).
  destruct (burst_closing h (now w + 1500) rs (fst (request h r w)) CU)
    as (B & P2); [lia|].
  split; [done|]. split; [done|]. exists e. congruence.
Qed.

Lemma C1_witness :
  let w := run [] (init_world true [("wmp-window", ["window"], "")] never_throws) in
  let rs := [(0, ReqSMClose 0.6 1500); (300, ReqXP 0.6 2000);
             (1000, ReqSMCritical 0.6 1500)] in
  snd (request 0%nat (ReqXP 0.6 2000) w) = true /\
  snd (burst 0%nat rs (fst (request 0%nat (ReqXP 0.6 2000) w)))
  = repeat false (length rs) /\
  exists e,
    played (fst (burst 0%nat rs (fst (request 0%nat (ReqXP 0.6 2000) w))))
    = (played w ++ [e])%list.
Proof.
  apply (C1_close_sound_plays_exactly_once true
           [("wmp-window", ["window"], "")] never_throws [] 0%nat
           (ReqXP 0.6 2000)
           [(0, ReqSMClose 0.6 1500); (300, ReqXP 0.6 2000);
            (1000, ReqSMCritical 0.6 1500)]).
  - vm_compute. lia.
  - reflexivity.
  - reflexivity.
  - reflexivity.
  - reflexivity.
  - reflexivity.
Defined.

Lemma played_forget_initial h w : played (forget_initial h w) = played w.
Proof. apply quiet_forget_initial. Qed.

(** C8.  In every reachable world, a 'windowClose' request through
    [playForWindow] for a window whose [criticalSoundPlayed] marker is set
    returns [false] and starts no sound. *)
Theorem C8_windowClose_suppressed_after_critical
    installed els throws evs h vol duration :
  let w := run evs (init_world installed els throws) in
  (h < length (dom w))%nat ->
  critical_played w h = true ->
  snd (playForWindow (Some h) "windowClose" vol duration w) = false /\
  played (fst (playForWindow (Some h) "windowClose" vol duration w)) = played w.
Proof.
  intros w Hh K.
  pose proof (reachable_inv installed els throws evs) as I. fold w in I.
  destruct (I h Hh) as (_ & _ & I3 & _).
  destruct (request_closing h (ReqSMClose vol duration) w (I3 K))
    as (R & _ & [P _]).
  done.
Qed.

Lemma C8_witness :
  let w := run [SMPlayForWindow (Some 0%nat) "critical" 0.6 1500; Advance 500]
               (init_world true [("wmp-window", ["window"], "")] never_throws) in
  snd (playForWindow (Some 0%nat) "windowClose" 0.6 1500 w) = false /\
  played (fst (playForWindow (Some 0%nat) "windowClose" 0.6 1500 w)) = played w.
Proof.
  apply (C8_windowClose_suppressed_after_critical true
           [("wmp-window", ["window"], "")] never_throws
           [SMPlayForWindow (Some 0%nat) "critical" 0.6 1500; Advance 500]
           0%nat 0.6 1500).
  - vm_compute. lia.
  - reflexivity.
Defined.

(** The test of [criticalSoundPlayed] itself, in any world where
    [window.soundManager] exists. *)
Lemma windowClose_suppressed_by_marker h vol duration w :
  xp_installed w = true -> critical_played w h = true ->
  snd (playForWindow (Some h) "windowClose" vol duration w) = false.
Proof.
  intros Hi K. cbn [playForWindow].
  replace (is_close_name "windowClose") with true by reflexivity.
  unfold sm_close_gate.
  destruct (same_gate_forget_initial h w) as (_ & F & _).
  destruct (F h) as [_ FK]. destruct (env_forget_initial h w) as (EI & _).
  unfold critical_played in FK, K. rewrite EI, Hi, FK, K.
  replace (bool_decide ("windowClose" = "windowClose")) with true by reflexivity.
  destruct (is_true_attr (ds_closingInProgress (el (forget_initial h w) h)));
    reflexivity.
Qed.

(** ** C9: [playForWindow] without a window *)

(** C9, the claim as stated, fails: right after a close click (the global
    prevention flag is set) both managers are enabled and 'notify' exists in
    both tables, yet [playForWindow(null, 'notify')] plays nothing. *)
Lemma C9_counterexample :
  let w := run [CloseClick 0%nat]
               (init_world true [("wmp-window", ["window"], "")] never_throws) in
  sm_enabled w = true /\ xp_enabled w = true /\
  has_sound sm_sounds "notify" = true /\
  snd (playForWindow None "notify" 0.5 1000 w) = false /\
  played (fst (playForWindow None "notify" 0.5 1000 w)) = played w.
Proof. vm_compute. repeat split; reflexivity. Qed.

Lemma snd_audio_start o n v w :
  snd (audio_start o n v w) = negb (audio_throws w o n v).
Proof. unfold audio_start. by destruct (audio_throws w o n v). Qed.

Lemma snd_xp_play n v w :
  snd (xp_play n v w)
  = xp_enabled w
    && (negb (preventAllSounds w) || bool_decide (n = "critical"))
    && has_sound xp_sounds n && negb (audio_throws w XP n v).
Proof.
  unfold xp_play, xp_play_sound.
  destruct (xp_enabled w), (preventAllSounds w), (bool_decide (n = "critical")),
    (has_sound xp_sounds n); cbn; try done; apply snd_audio_start.
Qed.

Lemma snd_sm_play n v w :
  snd (sm_play n v w)
  = sm_enabled w
    && (if xp_installed w && has_sound xp_sounds n
        then xp_enabled w
             && (negb (preventAllSounds w) || bool_decide (n = "critical"))
             && negb (audio_throws w XP n v)
        else has_sound sm_sounds n && negb (audio_throws w SM n v)).
Proof.
  unfold sm_play. destruct (sm_enabled w); cbn [negb andb]; [|done].
  destruct (xp_installed w); cbn [andb].
  - destruct (has_sound xp_sounds n) eqn:E.
    + rewrite snd_xp_play, E. by rewrite andb_true_r.
    + destruct (has_sound sm_sounds n); cbn; [apply snd_audio_start|done].
  - destruct (has_sound sm_sounds n); cbn; [apply snd_audio_start|done].
Qed.

(** Apart from the log of started sounds, [play] leaves the world alone. *)
Lemma fst_audio_start o n v w :
  fst (audio_start o n v w)
  = if snd (audio_start o n v w)
    then set_played (played w ++ [(o, n, v)]) w else w.
Proof. unfold audio_start. by destruct (audio_throws w o n v). Qed.

Lemma fst_xp_play n v w :
  fst (xp_play n v w)
  = if snd (xp_play n v w)
    then set_played (played w ++ [(XP, n, v)]) w else w.
Proof.
  unfold xp_play, xp_play_sound.
  destruct (xp_enabled w), (preventAllSounds w), (bool_decide (n = "critical")),
    (has_sound xp_sounds n); cbn; try done; apply fst_audio_start.
Qed.

Lemma fst_sm_play n v w :
  exists o,
    fst (sm_play n v w)
    = if snd (sm_play n v w)
      then set_played (played w ++ [(o, n, v)]) w else w.
Proof.
  unfold sm_play. destruct (sm_enabled w); cbn [negb]; [|by exists SM].
  destruct (xp_installed w && has_sound xp_sounds n).
  - exists XP. apply fst_xp_play.
  - exists SM. destruct (has_sound sm_sounds n); cbn [negb]; [|done].
    apply fst_audio_start.
Qed.

(** C9, amended.  [playForWindow] with no window element is [play]: the
    result does not depend on any marker, timer or active-window set.  It
    plays exactly when the [SoundManager] is enabled, the audio element
    starts without throwing, and either the sound belongs to an installed
    [window.soundManager], which is then the one to play it and must be
    enabled and not held back by [preventAllSounds] (unless the sound is
    'critical'), or the sound is in the [SoundManager]'s own table. *)
Theorem C9_null_window_is_plain_play name vol duration w :
  playForWindow None name vol duration w = sm_play name vol w /\
  snd (sm_play name vol w)
  = sm_enabled w
    && (if xp_installed w && has_sound xp_sounds name
        then xp_enabled w
             && (negb (preventAllSounds w) || bool_decide (name = "critical"))
             && negb (audio_throws w XP name vol)
        else has_sound sm_sounds name && negb (audio_throws w SM name vol)) /\
  exists o,
    fst (sm_play name vol w)
    = if snd (sm_play name vol w)
      then set_played (played w ++ [(o, name, vol)]) w else w.
Proof.
  split; [reflexivity|]. split; [apply snd_sm_play|apply fst_sm_play].
Qed.

(** ** C10: the global prevention flag *)

Create HintDb env.

Lemma same_env_refl w : same_env w w.
Proof. by repeat split. Qed.

Lemma same_env_trans w1 w2 w3 :
  same_env w1 w2 -> same_env w2 w3 -> same_env w1 w3.
Proof.
  intros (A1 & A2 & A3 & A4 & A5 & A6 & A7) (B1 & B2 & B3 & B4 & B5 & B6 & B7).
  repeat split; congruence.
Qed.

Lemma env_upd h f w : same_env w (upd h f w).
Proof. by repeat split. Qed.

Lemma env_add_timer d a w : same_env w (add_timer d a w).
Proof. by repeat split. Qed.

Lemma env_xp_play n v w : same_env w (fst (xp_play n v w)).
Proof. rewrite fst_xp_play. by case_match. Qed.

Lemma env_sm_play n v w : same_env w (fst (sm_play n v w)).
Proof. destruct (fst_sm_play n v w) as [o ->]. by case_match. Qed.

Lemma env_xp_addActiveWindow id w : same_env w (xp_addActiveWindow id w).
Proof. by repeat split. Qed.

Lemma env_sm_addActiveWindow id w : same_env w (sm_addActiveWindow id w).
Proof. unfold sm_addActiveWindow. by case_match. Qed.

(** Peel the outermost update off the right-hand world. *)
Ltac se_step :=
  match goal with
  | |- same_env ?w ?w => apply same_env_refl
  | |- same_env ?w (add_timer ?d ?a ?x) =>
      apply (same_env_trans w x); [| apply env_add_timer]
  | |- same_env ?w (upd ?h ?f ?x) =>
      apply (same_env_trans w x); [| apply env_upd]
  | |- same_env ?w (fst (xp_play ?n ?v ?x)) =>
      apply (same_env_trans w x); [| apply env_xp_play]
  | |- same_env ?w (fst (sm_play ?n ?v ?x)) =>
      apply (same_env_trans w x); [| apply env_sm_play]
  | |- same_env ?w (xp_addActiveWindow ?i ?x) =>
      apply (same_env_trans w x); [| apply env_xp_addActiveWindow]
  | |- same_env ?w (sm_addActiveWindow ?i ?x) =>
      apply (same_env_trans w x); [| apply env_sm_addActiveWindow]
  | |- same_env ?w (set_lastSoundWindow _ ?x) =>
      apply (same_env_trans w x); [| by repeat split]
  | |- same_env _ (if ?b then _ else _) => destruct b
  | |- same_env _ (fst (if ?b then _ else _)) => destruct b
  | |- same_env _ (fst (_, _)) => cbn [fst]
  end.

Ltac se := repeat se_step.

Lemma env_forget_initial' h w : same_env w (forget_initial h w).
Proof. unfold forget_initial. se. Qed.

Lemma env_xp_play_and_mark h n v d w :
  same_env w (fst (xp_play_and_mark h n v d w)).
Proof.
  unfold xp_play_and_mark. case_match; [apply same_env_refl|].
  destruct (xp_play n v w) as [w2 r] eqn:E. cbn [fst].
  assert (same_env w w2) by (change w2 with (fst (w2, r)); rewrite <- E; se).
  apply (same_env_trans _ w2); [done|]. se.
Qed.

Lemma env_sm_play_and_mark h n v d w :
  same_env w (fst (sm_play_and_mark h n v d w)).
Proof.
  unfold sm_play_and_mark. case_match; [apply same_env_refl|].
  destruct (sm_play n v w) as [w2 r] eqn:E. cbn [fst].
  assert (same_env w w2) by (change w2 with (fst (w2, r)); rewrite <- E; se).
  apply (same_env_trans _ w2); [done|]. se.
Qed.

Lemma env_playSoundForWindow h n v d w :
  same_env w (fst (playSoundForWindow h n v d w)).
Proof.
  unfold playSoundForWindow.
  destruct (bool_decide (n = "critical")); cbn [negb];
    [|apply env_xp_play_and_mark].
  unfold xp_critical_gate.
  pose proof (env_forget_initial' h w) as E.
  destruct (is_true_attr _); cbn [negb fst]; [done|].
  eapply same_env_trans; [|apply env_xp_play_and_mark].
  eapply same_env_trans; [exact E|]. se.
Qed.

Lemma env_playForWindow oh n v d w :
  same_env w (fst (playForWindow oh n v d w)).
Proof.
  destruct oh as [h|]; cbn [playForWindow]; [|apply env_sm_play].
  destruct (is_close_name n); cbn [negb]; [|apply env_sm_play_and_mark].
  unfold sm_close_gate.
  pose proof (env_forget_initial' h w) as E.
  destruct (is_true_attr (ds_closingInProgress _)); cbn [negb fst]; [done|].
  match goal with |- context [if ?b then (_, false) else _] => destruct b end;
    cbn [negb fst]; [done|].
  eapply same_env_trans; [|apply env_sm_play_and_mark].
  eapply same_env_trans; [exact E|]. se.
Qed.

(** After one close click the flag holds for 999ms and is gone at 1000ms;
    with two close clicks 800ms apart the first click's callback clears the
    flag 200ms after the second click. *)
Example prevention_window_examples :
  let w := init_world true [("a", ["window"], ""); ("b", ["window"], "")]
             never_throws in
  preventAllSounds (run [CloseClick 0%nat; Advance 999] w) = true /\
  preventAllSounds (run [CloseClick 0%nat; Advance 1000] w) = false /\
  preventAllSounds
    (run [CloseClick 0%nat; Advance 800; CloseClick 1%nat; Advance 199] w)
  = true /\
  preventAllSounds
    (run [CloseClick 0%nat; Advance 800; CloseClick 1%nat; Advance 200] w)
  = false.
Proof. repeat split; reflexivity. Qed.



(** ** [advance] runs every callback that is due *)

Lemma fire_initial_reset w :
  fire TInitialReset w = foldl reset_step w (initial_handles (dom w)).
Proof. reflexivity. Qed.

Lemma foldl_reset_timers l w :
  timers (foldl reset_step w l)
  = (timers w ++ map (fun h => (now w + 500, TClearSoundPlayed h)) l)%list.
Proof.
  revert w. induction l as [|h l IH]; intros w; cbn [foldl map].
  - by rewrite app_nil_r.
  - rewrite IH. unfold reset_step, add_timer, upd. cbn.
    by rewrite <- app_assoc.
Qed.

Lemma foldl_reset_length l w :
  length (dom (foldl reset_step w l)) = length (dom w).
Proof.
  revert w. induction l as [|h l IH]; intros w; cbn [foldl]; [done|].
  rewrite IH. unfold reset_step. apply length_dom_upd.
Qed.

Lemma length_dom_fire a w : length (dom (fire a w)) = length (dom w).
Proof.
  destruct a; cbn [fire]; try apply length_dom_upd; try reflexivity.
  apply foldl_reset_length.
Qed.

Lemma timers_weight_app n (l1 l2 : list (Z * timer_action)) :
  timers_weight n (l1 ++ l2)%list
  = (timers_weight n l1 + timers_weight n l2)%nat.
Proof. unfold timers_weight. by rewrite map_app, list_sum_app. Qed.

Lemma timers_weight_next n l t rest :
  next_timer l = Some (t, rest) ->
  timers_weight n l = (timer_weight n t + timers_weight n rest)%nat.
Proof.
  intros H%next_timer_perm. unfold timers_weight. by rewrite H.
Qed.

Lemma timers_weight_cleanups n (l : list handle) (d : Z) :
  timers_weight n (map (fun h => (d, TClearSoundPlayed h)) l) = length l.
Proof.
  unfold timers_weight. rewrite map_map.
  induction l as [|h l IH]; [done|].
  change (S (list_sum (map (fun x => timer_weight n (d, TClearSoundPlayed x)) l))
          = S (length l)).
  by rewrite IH.
Qed.

(** Each callback makes the weight of the queue drop. *)
Lemma timers_weight_fire w d a rest t :
  let n := length (dom w) in
  (timers_weight n (timers (fire a (set_timers rest (set_now t w))))
   < timer_weight n (d, a) + timers_weight n rest)%nat.
Proof.
  cbv zeta.
  destruct a;
    try (change (timers (fire _ _)) with rest; unfold timer_weight; cbn [snd];
         lia).
  rewrite fire_initial_reset, foldl_reset_timers, timers_weight_app,
    timers_weight_cleanups.
  change (timers (set_timers rest (set_now t w))) with rest.
  change (dom (set_timers rest (set_now t w))) with (dom w).
  pose proof (filter_length_le (matches_initial (dom w))
                (seq 0 (length (dom w)))) as Hle.
  rewrite length_seq in Hle. unfold initial_handles. cbn. lia.
Qed.

Lemma run_timers_drains fuel T w :
  (timers_weight (length (dom w)) (timers w) <= fuel)%nat ->
  none_due T (run_timers fuel T w).
Proof.
  revert w. induction fuel as [|fuel IH]; intros w Hw; cbn [run_timers].
  - destruct (timers w) as [|[d a] l] eqn:E;
      [intros d a Hin; rewrite E in Hin; inversion Hin|].
    unfold timers_weight in Hw. cbn in Hw. destruct a; cbn in Hw; lia.
  - destruct (next_timer (timers w)) as [[[d a] rest]|] eqn:Hn.
    + destruct (Z.leb_spec d T) as [Hd|Hd].
      * apply IH. rewrite length_dom_fire.
        change (dom (set_timers rest (set_now (Z.max (now w) d) w)))
          with (dom w).
        rewrite (timers_weight_next _ _ _ _ Hn) in Hw.
        pose proof (timers_weight_fire w d a rest (Z.max (now w) d)) as Hf.
        cbv zeta in Hf. lia.
      * intros d' a' Hin.
        pose proof (next_timer_min _ _ _ _ Hn Hin) as Hm. cbn in Hm. lia.
    + apply next_timer_none in Hn. intros d a Hin. rewrite Hn in Hin.
      inversion Hin.
Qed.

(** After [advance], no pending timer is due any more: the fuel of
    [run_timers] is enough. *)
Lemma advance_none_due dt w :
  none_due (now (advance dt w)) (advance dt w).
Proof.
  unfold advance. cbv zeta.
  change (now (set_now _ _)) with (now w + Z.max 0 dt).
  intros d a Hin.
  by apply (run_timers_drains (timer_fuel w) (now w + Z.max 0 dt) w
              (le_n _) d a).
Qed.

Lemma run_timers_now fuel T w :
  now w <= T -> now (run_timers fuel T w) <= T.
Proof.
  revert w. induction fuel as [|fuel IH]; intros w Hw; cbn [run_timers]; [done|].
  destruct (next_timer (timers w)) as [[[d a] rest]|]; [|done].
  destruct (Z.leb_spec d T); [|done]. apply IH.
  assert (now (fire a (set_timers rest (set_now (Z.max (now w) d) w)))
          = Z.max (now w) d) as ->; [|lia].
  destruct a; try reflexivity. rewrite fire_initial_reset.
  apply (quiet_foldl reset_step). intros w' h. by split.
Qed.

(** ** C7: windows visible at load *)

(** The reset callback changes elements and timers only. *)
Lemma foldl_reset_shape l w :
  exists dm tm, foldl reset_step w l = set_timers tm (set_dom dm w).
Proof.
  revert w. induction l as [|h l IH]; intros w; cbn [foldl].
  - exists (dom w), (timers w). by destruct w.
  - destruct (IH (reset_step w h)) as (dm & tm & ->). by exists dm, tm.
Qed.

Lemma foldl_reset_keep {A} (P : WindowEl -> A) l w h :
  (forall s e, P (set_initialWindow s e) = P e) ->
  P (el (foldl reset_step w l) h) = P (el w h).
Proof.
  intros HP. revert w. induction l as [|h' l IH]; intros w; cbn [foldl]; [done|].
  rewrite IH. unfold reset_step.
  change (el (add_timer 500 (TClearSoundPlayed h')
                (upd h' (set_initialWindow "") w)) h)
    with (el (upd h' (set_initialWindow "") w) h).
  by apply el_upd_keep.
Qed.

Lemma foldl_reset_stays l w h :
  ds_initialWindow (el w h) = Some "" ->
  ds_initialWindow (el (foldl reset_step w l) h) = Some "".
Proof.
  revert w. induction l as [|h' l IH]; intros w Hw; cbn [foldl]; [done|].
  apply IH. unfold reset_step.
  change (el (add_timer 500 (TClearSoundPlayed h')
                (upd h' (set_initialWindow "") w)) h)
    with (el (upd h' (set_initialWindow "") w) h).
  destruct (decide (h' = h)) as [->|Hne]; [|by rewrite el_upd_ne].
  destruct (decide (h < length (dom w))%nat) as [Hlt|Hge].
  - by rewrite el_upd_eq.
  - unfold el in *. rewrite dom_upd, list_lookup_alter.
    destruct (decide (h = h)); [|done].
    rewrite (lookup_ge_None_2 (dom w) h) in * by lia. done.
Qed.

Lemma foldl_reset_clears l w h :
  h ∈ l -> (h < length (dom w))%nat ->
  ds_initialWindow (el (foldl reset_step w l) h) = Some "".
Proof.
  revert w. induction l as [|h' l IH]; intros w Hin Hlt; [inversion Hin|].
  cbn [foldl]. apply elem_of_cons in Hin as [->|Hin].
  - apply foldl_reset_stays. unfold reset_step.
    change (el (add_timer 500 (TClearSoundPlayed h')
                  (upd h' (set_initialWindow "") w)) h')
      with (el (upd h' (set_initialWindow "") w) h').
    by rewrite el_upd_eq.
  - apply IH; [done|]. unfold reset_step.
    change (dom (add_timer 500 (TClearSoundPlayed h')
                   (upd h' (set_initialWindow "") w)))
      with (dom (upd h' (set_initialWindow "") w)).
    by rewrite length_dom_upd.
Qed.

Lemma elem_initial_handles w h :
  (h < length (dom w))%nat ->
  has_class "window" (el w h) = true ->
  ds_initialWindow (el w h) = Some "true" ->
  h ∈ initial_handles (dom w).
Proof.
  intros Hlt Hc Hi. unfold initial_handles.
  apply list_elem_of_In, List.filter_In. split.
  - apply list_elem_of_In, elem_of_seq. lia.
  - unfold matches_initial, el in *.
    destruct (dom w !! h) as [e|] eqn:E.
    + cbn in Hc, Hi. by rewrite Hc, Hi.
    + apply lookup_ge_None_1 in E. lia.
Qed.

Lemma count_timers_pos p (l : list (Z * timer_action)) :
  (0 < count_timers p l)%nat -> exists t, t ∈ l /\ p t = true.
Proof.
  unfold count_timers. induction l as [|t l IH]; cbn; [lia|].
  destruct (p t) eqn:E.
  - intros _. exists t. split; [left|done].
  - intros [t' [? ?]]%IH. exists t'. split; [by right|done].
Qed.

Lemma count_reset_cleanups (l : list handle) (d : Z) :
  count_timers is_reset (map (fun h => (d, TClearSoundPlayed h)) l) = 0%nat.
Proof. unfold count_timers. induction l; by cbn. Qed.

Section Idle.
Variable throws : owner -> string -> Q -> bool.
Variable h : handle.
Variables (id : string) (cl : list string) (d : string).
Hypothesis is_window : "window" ∈ cl.

Local Abbreviation Idle := (idle throws h id cl d).

(** The 3000ms callback: from the first stage to the second. *)
Lemma idle_fire_reset w rest :
  Idle w -> next_timer (timers w) = Some ((3000, TInitialReset), rest) ->
  Idle (fire TInitialReset (set_timers rest (set_now (Z.max (now w) 3000) w))).
Proof.
  intros I Hn. destruct I.
  pose proof (next_timer_count is_reset _ _ _ Hn) as Hc. cbn in Hc.
  destruct idle_stage0 as [(Hi & Hp & Hr & Hnow)|[(_ & _ & Hr & _)|(_ & _ & Hr & _)]];
    [|lia|lia].
  set (w0 := set_timers rest (set_now (Z.max (now w) 3000) w)).
  rewrite fire_initial_reset.
  destruct (foldl_reset_shape (initial_handles (dom w0)) w0) as (dm & tm & E).
  assert (h ∈ initial_handles (dom w0)) as Hin.
  { apply elem_initial_handles; [done| |done].
    change (el w0 h) with (el w h). unfold has_class.
    rewrite idle_classes0. by apply bool_decide_eq_true. }
  pose proof (foldl_reset_timers (initial_handles (dom w0)) w0) as HT.
  change (timers w0) with rest in HT.
  change (now w0) with (Z.max (now w) 3000) in HT.
  rewrite Z.max_r in HT by done. change (3000 + 500) with 3500 in HT.
  pose proof (foldl_reset_clears _ w0 h Hin idle_valid0) as HI.
  pose proof (foldl_reset_length (initial_handles (dom w0)) w0) as HL.
  pose proof (fun A P => @foldl_reset_keep A P (initial_handles (dom w0)) w0 h)
    as HK.
  constructor.
  - by rewrite E.
  - by rewrite E.
  - by rewrite E.
  - by rewrite E.
  - by rewrite E.
  - by rewrite E.
  - by rewrite E.
  - by rewrite HL.
  - by rewrite (HK _ el_id).
  - by rewrite (HK _ el_classes).
  - by rewrite (HK _ el_display).
  - intros t. rewrite HT, elem_of_app, list_elem_of_fmap.
    intros [Ht|(h' & -> & _)]; [|right; by exists h'].
    apply idle_timers0, (next_timer_elem _ _ _ _ Hn). by right.
  - right. left. split; [done|]. split; [by rewrite (HK _ ds_soundPlayed)|].
    split.
    + rewrite HT, count_timers_app.
      assert (count_timers is_reset
                (map (fun h0 => (3500, TClearSoundPlayed h0))
                   (initial_handles (dom w0))) = 0%nat) as ->; [|lia].
      apply count_reset_cleanups.
    + rewrite HT, elem_of_app, list_elem_of_fmap. right. by exists h.
Qed.

(** A 3500ms callback: the second stage ends when it is the one of [h]. *)
Lemma idle_fire_cleanup w rest h' :
  Idle w ->
  next_timer (timers w) = Some ((3500, TClearSoundPlayed h'), rest) ->
  Idle (fire (TClearSoundPlayed h')
          (set_timers rest (set_now (Z.max (now w) 3500) w))).
Proof.
  intros I Hn. destruct I.
  pose proof (next_timer_count is_reset _ _ _ Hn) as Hc. cbn in Hc.
  set (w0 := set_timers rest (set_now (Z.max (now w) 3500) w)).
  cbn [fire].
  assert (forall A (P : WindowEl -> A),
            (forall s e, P (set_soundPlayed s e) = P e) ->
            P (el (upd h' (set_soundPlayed "") w0) h) = P (el w h)) as HK.
  { intros A P HP. by rewrite (el_upd_keep P). }
  constructor; try done.
  - by rewrite length_dom_upd.
  - by rewrite (HK _ el_id).
  - by rewrite (HK _ el_classes).
  - by rewrite (HK _ el_display).
  - intros t Ht. apply idle_timers0, (next_timer_elem _ _ _ _ Hn). by right.
  - unfold initial_stage.
    rewrite (HK _ ds_initialWindow) by done.
    change (timers (upd h' (set_soundPlayed "") w0)) with rest.
    change (now (upd h' (set_soundPlayed "") w0)) with (Z.max (now w) 3500).
    destruct idle_stage0 as [(Hi & Hp & Hr & Hnow)|[(Hi & Hp & Hr & Hin)|(Hi & Hp & Hr & Hnow)]].
    + destruct (count_timers_pos is_reset (timers w)) as (t & Ht & Hrt); [lia|].
      pose proof (next_timer_min _ _ _ _ Hn Ht) as Hm.
      destruct (idle_timers0 t Ht) as [->|[h2 ->]]; [cbn in Hm; lia|done].
    + destruct (decide (h' = h)) as [->|Hne].
      * right. right. rewrite el_upd_eq by done. cbn.
        repeat split; [done|lia|lia].
      * right. left. rewrite el_upd_ne by done.
        change (el w0 h) with (el w h). repeat split; [done|done|lia|].
        apply (next_timer_elem _ _ _ _ Hn) in Hin as [[= ?]|?]; done.
    + right. right. split; [done|]. split; [|split; lia].
      destruct (decide (h' = h)) as [->|Hne].
      * by rewrite el_upd_eq.
      * by rewrite el_upd_ne.
Qed.

Lemma idle_run_timers fuel T w : Idle w -> Idle (run_timers fuel T w).
Proof.
  revert w. induction fuel as [|fuel IH]; intros w I; cbn [run_timers]; [done|].
  destruct (next_timer (timers w)) as [[[d' a] rest]|] eqn:Hn; [|done].
  destruct (Z.leb_spec d' T); [|done]. apply IH.
  assert ((d', a) ∈ timers w) as Hin
    by (apply (next_timer_elem _ _ _ _ Hn); by left).
  destruct (idle_timers _ _ _ _ _ _ I _ Hin) as [[= -> ->]|[h' [= -> ->]]].
  - by apply idle_fire_reset.
  - by apply idle_fire_cleanup.
Qed.

Lemma idle_advance dt w : Idle w -> Idle (advance dt w).
Proof.
  intros I. pose proof (advance_none_due dt w) as ND.
  assert (now w <= now w + Z.max 0 dt) as Hle by lia.
  pose proof (run_timers_now (timer_fuel w) _ w Hle) as Hnow.
  unfold advance in *. cbv zeta in *.
  pose proof (idle_run_timers (timer_fuel w) (now w + Z.max 0 dt) w I) as I'.
  set (r := run_timers (timer_fuel w) (now w + Z.max 0 dt) w) in *.
  destruct I'. constructor; try done.
  unfold initial_stage in *.
  change (el (set_now (now w + Z.max 0 dt) r) h) with (el r h).
  change (timers (set_now (now w + Z.max 0 dt) r)) with (timers r).
  change (now (set_now (now w + Z.max 0 dt) r)) with (now w + Z.max 0 dt).
  destruct idle_stage0 as [(Hi & Hp & Hr & Hn)|[?|(Hi & Hp & Hr & Hn)]].
  - left. repeat split; try done.
    destruct (count_timers_pos is_reset (timers r)) as (t & Ht & Hrt); [lia|].
    destruct (idle_timers0 t Ht) as [->|[h2 ->]]; [|done].
    specialize (ND _ _ Ht). cbn in ND. lia.
  - right. by left.
  - right. right. repeat split; try done. lia.
Qed.

(** Until 3500ms the observer ignores the window ... *)
Lemma idle_observer_early w :
  Idle w -> now w < 3500 -> observer [h] w = w.
Proof.
  intros I Hnow. destruct I.
  assert (ds_soundPlayed (el w h) = Some "true") as Hp.
  { destruct idle_stage0 as [(_ & Hp & _)|[(_ & Hp & _)|(_ & _ & _ & ?)]];
      [done|done|lia]. }
  unfold observer. rewrite idle_recent0, idle_prevent0. cbn [orb foldl].
  unfold observe_one. rewrite idle_prevent0, idle_last0, Hp.
  cbn [attr_truthy]. rewrite !andb_false_r.
  by repeat case_match.
Qed.

(** ... and once the page has been idle for 3500ms it plays 'notify'. *)
Lemma idle_observer_late w :
  Idle w -> 3500 <= now w -> none_due (now w) w ->
  "minimized" ∉ cl -> d <> "none" -> throws XP "notify" 0.6%Q = false ->
  initial_marked w h = false /\
  attr_truthy (ds_soundPlayed (el w h)) = false /\
  played (observer [h] w) = [(XP, "notify", 0.6%Q)].
Proof.
  intros I Hnow ND Hmin Hd Ht. destruct I.
  assert (timers w = []) as HT.
  { destruct (timers w) as [|t l] eqn:E; [done|].
    assert (t ∈ t :: l) as Hin by left.
    destruct t as [dl a]. rewrite <- E in Hin. specialize (ND _ _ Hin).
    rewrite E in Hin.
    destruct (idle_timers0 _ Hin) as [[= -> ->]|[h' [= -> ->]]]; lia. }
  assert (ds_initialWindow (el w h) = Some "" /\
          ds_soundPlayed (el w h) = Some "") as [Hi Hp].
  { destruct idle_stage0 as [(_ & _ & Hr & _)|[(_ & _ & _ & Hin)|(? & ? & _)]];
      [by rewrite HT in Hr|by rewrite HT in Hin; inversion Hin|done]. }
  unfold initial_marked. rewrite Hi, Hp. split; [done|]. split; [done|].
  unfold observer. rewrite idle_recent0, idle_prevent0. cbn [orb foldl].
  unfold observe_one. rewrite idle_prevent0, idle_last0, Hp, Hi.
  unfold xp_isWindowActive. rewrite idle_active0.
  unfold has_class. rewrite idle_classes0, idle_display0.
  rewrite (bool_decide_eq_true_2 _ is_window).
  rewrite (bool_decide_eq_false_2 _ Hmin), (bool_decide_eq_false_2 _ Hd).
  rewrite (bool_decide_eq_false_2 (None = Some (el_id (el w h)))) by done.
  match goal with
  | |- context [bool_decide (?x ∈ ?s)] =>
      rewrite (bool_decide_eq_false_2 (x ∈ s)) by set_solver
  end.
  rewrite andb_false_r.
  change (attr_truthy (Some "")) with false.
  change (is_true_attr (Some "")) with false.
  cbn [andb negb].
  unfold playSoundForWindow.
  replace (bool_decide ("notify" = "critical")) with false by reflexivity.
  cbn [negb]. unfold xp_play_and_mark, xp_isWindowActive.
  rewrite idle_active0.
  match goal with
  | |- context [bool_decide (?x ∈ ?s)] =>
      rewrite (bool_decide_eq_false_2 (x ∈ s)) by set_solver
  end.
  rewrite andb_false_r. cbn [andb].
  unfold xp_play. rewrite idle_enabled0, idle_prevent0. cbn [negb orb].
  unfold xp_play_sound.
  replace (has_sound xp_sounds "notify") with true by reflexivity.
  unfold audio_start. rewrite idle_throws0, Ht, idle_played0.
  by case_match.
Qed.

End Idle.

Lemma el_init els throws h id cl d :
  els !! h = Some (id, cl, d) ->
  "window" ∈ cl -> "minimized" ∉ cl -> d <> "none" ->
  el (init_world true els throws) h
  = set_initialWindow "true" (set_soundPlayed "true" (fresh_el id cl d)).
Proof.
  intros Hel Hw Hm Hd.
  unfold el, init_world, setupWindowsSounds, page. cbn.
  rewrite !list_lookup_fmap, Hel. cbn. unfold mark_initial, has_class. cbn.
  rewrite (bool_decide_eq_true_2 _ Hw), (bool_decide_eq_false_2 _ Hm),
    (bool_decide_eq_false_2 _ Hd). done.
Qed.

Lemma idle_init els throws h id cl d :
  els !! h = Some (id, cl, d) ->
  "window" ∈ cl -> "minimized" ∉ cl -> d <> "none" ->
  idle throws h id cl d (init_world true els throws).
Proof.
  intros Hel Hw Hm Hd.
  pose proof (el_init els throws h id cl d Hel Hw Hm Hd) as Hel'.
  constructor; try done; try (by rewrite Hel').
  - apply lookup_lt_Some in Hel.
    unfold init_world, setupWindowsSounds, page. cbn.
    by rewrite !length_map.
  - intros t Ht. left.
    change (timers (init_world true els throws)) with [(3000, TInitialReset)]
      in Ht.
    by apply list_elem_of_singleton in Ht.
  - left. by rewrite Hel'.
Qed.

(** While the initial marker is set, the observer does not play for the
    window, whatever else holds. *)
Lemma observe_one_initial_silent h w :
  initial_marked w h = true -> played (observe_one h w) = played w.
Proof.
  unfold initial_marked, observe_one. intros Hi.
  repeat (case_match; try done); congruence.
Qed.



End SoundFacts.

(* ===================================================================== *)
(** * Part X: properties of the visualizer                               *)
(* ===================================================================== *)

Module VizFacts.
Import Viz.

(** ** Dispatch and the status update never throw *)

Lemma notify_from_ok i ls data v :
  notify_from i ls data v
  = Ok tt (set_delivered (delivered v ++ deliveries i ls data) v).
Proof.
  revert i v. induction ls as [|l ls IH]; intros i v; cbn [notify_from deliveries].
  - unfold ret. f_equal. destruct v; cbn. by rewrite app_nil_r.
  - unfold bind at 1.
    assert (try_catch (call_listener i l data) (ret tt) v
            = Ok tt (set_delivered (delivered v ++ [(i, data)]) v)) as ->.
    { unfold try_catch, call_listener, bind, modify. by destruct l. }
    rewrite IH. f_equal. cbn. by rewrite <- app_assoc.
Qed.

Lemma dispatchEvent_ok data v :
  dispatchEvent data v = Ok (has_listeners v) (after_dispatch data v).
Proof.
  unfold dispatchEvent, after_dispatch, has_listeners.
  destruct (listeners v) as [|l ls] eqn:E; [done|].
  unfold bind. by rewrite notify_from_ok.
Qed.

Lemma updatePlaybackStatus_ok arg v :
  updatePlaybackStatus arg v = Ok tt (after_update arg v).
Proof.
  unfold updatePlaybackStatus, after_update, bind, modify, ret.
  rewrite dispatchEvent_ok. by destruct arg.
Qed.

(** [dispatchEvent] changes the delivery log only. *)
Lemma after_dispatch_keep {A} (P : Visualizer -> A) data v :
  (forall x v, P (set_delivered x v) = P v) ->
  P (after_dispatch data v) = P v.
Proof. intros HP. unfold after_dispatch. by destruct (listeners v). Qed.

Lemma isPlaying_after_update arg v :
  isPlaying (after_update arg v)
  = match arg with
    | JUndefined | JNull => isPlaying v
    | _ => arg
    end.
Proof.
  unfold after_update. rewrite (after_dispatch_keep isPlaying) by done.
  by destruct arg.
Qed.

Lemma intensity_after_update arg v :
  intensity (after_update arg v)
  = base_intensity (truthy (isPlaying (after_update arg v))).
Proof.
  rewrite isPlaying_after_update. unfold after_update.
  rewrite (after_dispatch_keep intensity) by done. by destruct arg.
Qed.

Lemma delivered_after_update arg v :
  delivered (after_update arg v)
  = (delivered v
     ++ deliveries 0 (listeners v) (isPlaying (after_update arg v)))%list.
Proof.
  rewrite isPlaying_after_update. unfold after_update, after_dispatch.
  destruct arg; cbn; destruct (listeners v); cbn; by rewrite ?app_nil_r.
Qed.

(** Everything else the status update leaves alone. *)
Lemma after_update_keep {A} (P : Visualizer -> A) arg v :
  (forall x v, P (set_delivered x v) = P v) ->
  (forall x v, P (set_isPlaying x v) = P v) ->
  (forall x v, P (set_intensity x v) = P v) ->
  (forall x v, P (set_modalVisualizer x v) = P v) ->
  P (after_update arg v) = P v.
Proof.
  intros H1 H2 H3 H4. unfold after_update.
  rewrite (after_dispatch_keep P), H4, H3 by done. destruct arg; auto.
Qed.

(** ** C3: the manual toggle *)

(** Whatever the command channels do, they return, and touch nothing but
    the log of commands and the pending simulated click. *)
Lemma channels_ok v nb :
  exists cs pc,
    (match spotifyController v with
     | Some c =>
       try_catch (controller_command c nb)
                 (try_catch (controller_toggle c) (ret tt))
     | None =>
       match embedFrame v with
       | Some f => try_catch (iframe_command f nb) (ret tt)
       | None => ret tt
       end
     end) v
    = Ok tt (set_pendingClicks pc (set_commands cs v)).
Proof.
  destruct v as [ip it vi kp mt [[p q t]|] [[pm]|] md ls dl cm pk hr lc lp pn st];
    unfold try_catch, controller_command, controller_toggle, iframe_command,
      bind, send, modify, throw, ret; cbn;
    try destruct p; try destruct q; try destruct t; try destruct pm;
    destruct nb; cbn; do 2 eexists;
    unfold set_commands, set_pendingClicks; cbn; reflexivity.
Qed.

(** C3.  [togglePlayback] always returns, its result and the new
    [isPlaying] are the negation of the old value and [intensity] follows,
    in every page state: whichever controller commands throw, whether or not
    the iframe accepts a message, whichever listeners throw. *)
Theorem C3_toggle_flips_locally_and_never_throws v :
  exists v',
    togglePlayback v = Ok (JBool (negb (truthy (isPlaying v)))) v' /\
    isPlaying v' = JBool (negb (truthy (isPlaying v))) /\
    intensity v' = base_intensity (negb (truthy (isPlaying v))).
Proof.
  unfold togglePlayback.
  destruct (channels_ok v (negb (truthy (isPlaying v)))) as (cs & pc & Hch).
  set (nb := negb (truthy (isPlaying v))) in *.
  set (vc := set_pendingClicks pc (set_commands cs v)) in *.
  unfold bind at 1. rewrite Hch.
  unfold bind, modify. rewrite updatePlaybackStatus_ok, dispatchEvent_ok.
  eexists. split; [|split].
  - f_equal. rewrite (after_dispatch_keep isPlaying) by done. cbn.
    by rewrite isPlaying_after_update.
  - rewrite (after_dispatch_keep isPlaying) by done. cbn.
    by rewrite isPlaying_after_update.
  - rewrite (after_dispatch_keep intensity) by done. cbn.
    rewrite intensity_after_update, isPlaying_after_update. done.
Qed.

(** For instance with a controller all of whose commands throw: no command
    reaches the player, the local state flips all the same. *)
Example toggle_when_every_command_throws :
  let v := set_spotifyController (Some (mkController true true true))
             (new_visualizer (mkStorage ∅ false) [true; false]) in
  returns (togglePlayback v) = true /\
  isPlaying (state_of (togglePlayback v)) = JBool true /\
  commands (state_of (togglePlayback v)) = [] /\
  length (delivered (state_of (togglePlayback v))) = 4%nat.
Proof. cbn. repeat split. Qed.

(** ** C6: cross-document messages *)

(** Setting [intensity] first makes no difference: the update sets it. *)
Lemma after_update_set_intensity x i v :
  after_update x (set_intensity i v) = after_update x v.
Proof. by destruct x. Qed.

Lemma onMessage_ok origin data v :
  onMessage origin data v
  = Ok tt (match message_value origin data with
           | Some x => after_update x v
           | None => v
           end).
Proof.
  unfold onMessage, message_value, try_catch.
  destruct (includes "spotify.com" origin); [|reflexivity].
  destruct data as [| |b|n|s|fs];
    try (cbn [truthy is_object andb]; rewrite ?andb_false_r; reflexivity).
  cbn [truthy is_object andb]. unfold read at 1. cbn [get_prop bind ret].
  unfold bind at 1.
  destruct (strict_eq (assoc "type" fs) (JStr "player_state_changed")).
  { unfold bind at 1. unfold read at 1. cbn [get_prop ret].
    unfold bind at 1. unfold read.
    destruct (get_prop (assoc "payload" fs) "paused") as [paused|]; [|done].
    unfold ret, bind, modify.
    by rewrite updatePlaybackStatus_ok, after_update_set_intensity. }
  destruct (strict_eq (assoc "type" fs) (JStr "playback_update")).
  { unfold bind at 1. unfold read at 1. cbn [get_prop ret].
    unfold bind, modify.
    by rewrite updatePlaybackStatus_ok, after_update_set_intensity. }
  unfold bind at 1. unfold read at 1. cbn [get_prop ret].
  destruct (assoc "playing" fs) eqn:E; cbn [strict_eq negb]; try done;
    unfold bind, modify;
    by rewrite updatePlaybackStatus_ok, after_update_set_intensity.
Qed.

(** C6, the claim as stated, fails: two messages from the player's origin
    that match none of the three shapes change the playback state.  One
    carries a string under [playing], the other is a 'playback_update'
    without [isPaused]. *)
Lemma C6_counterexample :
  let v := new_visualizer (mkStorage ∅ false) [] in
  let origin := "https://open.spotify.com" in
  let m1 := JObj [("playing", JStr "paused")] in
  let m2 := JObj [("type", JStr "playback_update")] in
  isPlaying v = JBool false /\
  recognized_shape m1 = None /\
  isPlaying (state_of (onMessage origin m1 v)) = JStr "paused" /\
  recognized_shape m2 = None /\
  isPlaying (state_of (onMessage origin m2 v)) = JBool true.
Proof. cbn. repeat split. Qed.

Lemma recognized_message_value origin data b :
  includes "spotify.com" origin = true ->
  recognized_shape data = Some b ->
  message_value origin data = Some (JBool b).
Proof.
  intros Ho. unfold message_value, recognized_shape, has_type. rewrite Ho.
  destruct data as [| |?|?|?|fs]; try done.
  destruct (strict_eq (assoc "type" fs) (JStr "player_state_changed")).
  { destruct (assoc "payload" fs) as [| |?|?|?|ps]; try done. cbn [get_prop].
    destruct (assoc "paused" ps); try done. by intros [= <-]. }
  destruct (strict_eq (assoc "type" fs) (JStr "playback_update")).
  { destruct (assoc "isPaused" fs); try done. by intros [= <-]. }
  destruct (assoc "playing" fs); try done. by intros [= <-].
Qed.

(** C6, amended.  The message listener never throws.  A message changes
    the playback state only through its [message_value]: its origin must
    contain 'spotify.com' and its data be an object; a 'player_state_changed'
    with a payload other than [null] / [undefined] asserts [!payload.paused],
    a 'playback_update' asserts [!isPaused], any other object with a
    [playing] property asserts that property as it is ([null] changes
    nothing).  For the three shapes of the specification this is the
    boolean they carry, and [isPlaying] and [intensity] are set from it; a
    message from another origin leaves the state as it was. *)
Theorem C6_message_handling origin data v :
  returns (onMessage origin data v) = true /\
  state_of (onMessage origin data v)
  = match message_value origin data with
    | Some x => after_update x v
    | None => v
    end /\
  (if includes "spotify.com" origin
   then match recognized_shape data with
        | Some b =>
          isPlaying (state_of (onMessage origin data v)) = JBool b /\
          intensity (state_of (onMessage origin data v)) = base_intensity b
        | None => True
        end
   else state_of (onMessage origin data v) = v).
Proof.
  rewrite onMessage_ok. cbn [returns state_of]. split; [done|]. split; [done|].
  destruct (includes "spotify.com" origin) eqn:Ho.
  - destruct (recognized_shape data) as [b|] eqn:Hr; [|done].
    rewrite (recognized_message_value origin data b Ho Hr).
    rewrite intensity_after_update, isPlaying_after_update. done.
  - unfold message_value. by rewrite Ho.
Qed.

(** ** C2: the reconciler *)

Lemma message_value_defined origin data :
  message_value origin data <> Some JUndefined.
Proof.
  unfold message_value. repeat (case_match; try done).
Qed.

Lemma onControllerUpdate_ok p v :
  onControllerUpdate p v
  = Ok tt (after_update (JBool (negb (truthy p))) v).
Proof.
  unfold onControllerUpdate, bind, modify.
  rewrite updatePlaybackStatus_ok. cbn [isPlaying set_intensity set_isPlaying].
  f_equal.
Qed.

Lemma onCheck_ok r v :
  onCheck r v
  = Ok tt (match asserted (SigCheck r) v with
           | Some x =>
             set_lastPlaybackState x
               (set_intensity (base_intensity (truthy x))
                  (after_update x (set_pendingChecks (pred (pendingChecks v)) v)))
           | None => set_pendingChecks (pred (pendingChecks v)) v
           end).
Proof.
  unfold onCheck, asserted.
  destruct (pendingChecks v) as [|n] eqn:E; [f_equal; by destruct v; cbn in *; subst|].
  cbn [spotifyController set_pendingChecks pred lastPlaybackState].
  destruct (spotifyController v) as [c|]; [|done].
  destruct r as [p|]; [|done].
  destruct (strict_eq (JBool (negb (truthy p))) (lastPlaybackState v));
    cbn [negb]; [done|].
  unfold bind, modify. by rewrite updatePlaybackStatus_ok.
Qed.

Lemma onDirectProbe_ok b v :
  onDirectProbe b v
  = Ok tt (if heuristicsReady v && negb (strict_eq (JBool b) (isPlaying v))
           then set_intensity (base_intensity b) (after_update (JBool b) v)
           else v).
Proof.
  unfold onDirectProbe. case_match; [|done].
  unfold bind, modify. by rewrite updatePlaybackStatus_ok.
Qed.

Lemma on_signal_returns s v : returns (on_signal s v) = true.
Proof.
  destruct s; cbn [on_signal].
  - by rewrite onControllerUpdate_ok.
  - unfold onControllerReady. by rewrite updatePlaybackStatus_ok.
  - by rewrite onMessage_ok.
  - done.
  - done.
  - done.
  - by rewrite onCheck_ok.
  - by rewrite onDirectProbe_ok.
  - by rewrite onDirectProbe_ok.
Qed.

(** An accepted signal sets [isPlaying] to what it asserts, any other
    signal leaves it alone. *)
Lemma isPlaying_on_signal s v :
  isPlaying (state_of (on_signal s v)) = default (isPlaying v) (asserted s v).
Proof.
  destruct s; cbn [on_signal].
  - rewrite onControllerUpdate_ok. cbn [state_of asserted].
    by rewrite isPlaying_after_update.
  - unfold onControllerReady. rewrite updatePlaybackStatus_ok.
    cbn [state_of asserted]. by rewrite isPlaying_after_update.
  - rewrite onMessage_ok. cbn [state_of asserted].
    pose proof (message_value_defined origin data) as Hd.
    destruct (message_value origin data) as [x|]; [|done].
    rewrite isPlaying_after_update. by destruct x.
  - done.
  - cbn. by case_match.
  - cbn. by case_match.
  - rewrite onCheck_ok. cbn [state_of].
    destruct (asserted (SigCheck r) v) as [x|] eqn:E; [|done].
    cbn. rewrite isPlaying_after_update.
    unfold asserted in E. repeat case_match; try done; by injection E as <-.
  - rewrite onDirectProbe_ok. cbn [state_of asserted]. case_match; [|done].
    cbn. by rewrite isPlaying_after_update.
  - rewrite onDirectProbe_ok. cbn [state_of asserted]. case_match; [|done].
    cbn. by rewrite isPlaying_after_update.
Qed.

(** An accepted signal notifies every listener at once, with the new value,
    and [intensity] follows. *)
Lemma accepted_notifies s v x :
  asserted s v = Some x ->
  delivered (state_of (on_signal s v))
  = (delivered v ++ deliveries 0 (listeners v) x)%list /\
  intensity (state_of (on_signal s v)) = base_intensity (truthy x).
Proof.
  intros Ha.
  pose proof (isPlaying_on_signal s v) as Hp. rewrite Ha in Hp. cbn in Hp.
  destruct s; cbn [on_signal] in *; try done.
  - rewrite onControllerUpdate_ok in *. cbn [state_of] in *.
    by rewrite delivered_after_update, intensity_after_update, Hp.
  - unfold onControllerReady in *. rewrite updatePlaybackStatus_ok in *.
    cbn [state_of] in *.
    by rewrite delivered_after_update, intensity_after_update, Hp.
  - rewrite onMessage_ok in *. cbn [state_of asserted] in *.
    destruct (message_value origin data) as [y|]; [|done].
    by rewrite delivered_after_update, intensity_after_update, Hp.
  - rewrite onCheck_ok in *. rewrite Ha in *. cbn in *. split; [|done].
    by rewrite delivered_after_update, Hp.
  - rewrite onDirectProbe_ok in *. cbn [state_of asserted] in *.
    case_match; [|done]. injection Ha as <-. cbn in *.
    by rewrite delivered_after_update, Hp.
  - rewrite onDirectProbe_ok in *. cbn [state_of asserted] in *.
    case_match; [|done]. injection Ha as <-. cbn in *.
    by rewrite delivered_after_update, Hp.
Qed.

Lemma isPlaying_run_signals l v :
  isPlaying (run_signals l v) = default (isPlaying v) (last_accepted l v).
Proof.
  revert v. induction l as [|s l IH]; intros v; [done|].
  change (run_signals (s :: l) v)
    with (run_signals l (state_of (on_signal s v))).
  cbn [last_accepted].
  rewrite IH. destruct (last_accepted l _); [done|].
  apply isPlaying_on_signal.
Qed.



(** ** C4: the intensity of a frame *)

Lemma intensity_on_signal s v :
  synced v -> synced (state_of (on_signal s v)).
Proof.
  unfold synced. intros Hs. destruct s; cbn [on_signal].
  - rewrite onControllerUpdate_ok. apply intensity_after_update.
  - unfold onControllerReady. rewrite updatePlaybackStatus_ok.
    apply intensity_after_update.
  - rewrite onMessage_ok. cbn [state_of].
    destruct (message_value origin data); [apply intensity_after_update|done].
  - done.
  - cbn. by case_match.
  - cbn. by case_match.
  - rewrite onCheck_ok. cbn [state_of].
    destruct (asserted (SigCheck r) v) as [x|] eqn:E; [|done].
    cbn. rewrite isPlaying_after_update.
    unfold asserted in E. repeat case_match; try done; by injection E as <-.
  - rewrite onDirectProbe_ok. cbn [state_of]. case_match; [|done].
    cbn. by rewrite isPlaying_after_update.
  - rewrite onDirectProbe_ok. cbn [state_of]. case_match; [|done].
    cbn. by rewrite isPlaying_after_update.
Qed.

Lemma visualizationIntensity_on_signal s v :
  visualizationIntensity (state_of (on_signal s v)) = visualizationIntensity v.
Proof.
  destruct s; cbn [on_signal].
  - rewrite onControllerUpdate_ok. by apply after_update_keep.
  - unfold onControllerReady. rewrite updatePlaybackStatus_ok.
    by apply after_update_keep.
  - rewrite onMessage_ok. cbn [state_of].
    destruct (message_value origin data); [by apply after_update_keep|done].
  - done.
  - cbn. by case_match.
  - cbn. by case_match.
  - rewrite onCheck_ok. cbn [state_of].
    destruct (asserted (SigCheck r) v); [|done].
    cbn. by rewrite (after_update_keep visualizationIntensity).
  - rewrite onDirectProbe_ok. cbn [state_of]. case_match; [|done].
    cbn. by rewrite (after_update_keep visualizationIntensity).
  - rewrite onDirectProbe_ok. cbn [state_of]. case_match; [|done].
    cbn. by rewrite (after_update_keep visualizationIntensity).
Qed.

Lemma togglePlayback_state v :
  exists cs pc,
    state_of (togglePlayback v)
    = let v1 := after_update JUndefined
                  (set_isPlaying (JBool (negb (truthy (isPlaying v))))
                     (set_pendingClicks pc (set_commands cs v))) in
      let v2 := set_modalVisualizer
                  (modal_update (isPlaying v1) <$> modalVisualizer v1) v1 in
      after_dispatch (isPlaying v2) v2.
Proof.
  unfold togglePlayback.
  destruct (channels_ok v (negb (truthy (isPlaying v)))) as (cs & pc & Hch).
  exists cs, pc. unfold bind at 1. rewrite Hch.
  unfold bind, modify. by rewrite updatePlaybackStatus_ok, dispatchEvent_ok.
Qed.

Lemma do_action_inv a v :
  synced v ->
  synced (do_action a v) /\
  visualizationIntensity (do_action a v)
  = style_step (visualizationIntensity v) a.
Proof.
  intros Hs. destruct a; cbn [do_action style_step].
  - split; [by apply intensity_on_signal|apply visualizationIntensity_on_signal].
  - destruct (togglePlayback_state v) as (cs & pc & S).
    split.
    + rewrite S. cbv zeta. unfold synced.
      rewrite (after_dispatch_keep isPlaying), (after_dispatch_keep intensity)
        by done.
      cbn. by rewrite intensity_after_update, isPlaying_after_update.
    + rewrite S. cbv zeta.
      rewrite (after_dispatch_keep visualizationIntensity) by done. cbn.
      by rewrite (after_update_keep visualizationIntensity).
  - unfold updateVisualizationStyle, bind, modify, try_catch, setItem, ret.
    cbn. destruct (material v); cbn; destruct (broken (localStorage v)); by cbn.
  - unfold updateKaleidoscopePattern, bind, modify, try_catch, setItem, ret.
    cbn. destruct (material v); cbn; destruct (broken (localStorage v)); by cbn.
  - done.
  - unfold animate, modify. cbn [state_of]. by destruct (material v).
  - done.
  - done.
Qed.

Lemma run_actions_inv l v :
  synced v ->
  synced (run_actions l v) /\
  visualizationIntensity (run_actions l v)
  = style_after l (visualizationIntensity v).
Proof.
  revert v. induction l as [|a l IH]; intros v Hs; [done|].
  change (run_actions (a :: l) v) with (run_actions l (do_action a v)).
  change (style_after (a :: l) (visualizationIntensity v))
    with (style_after l (style_step (visualizationIntensity v) a)).
  destruct (do_action_inv a v Hs) as [Hs' <-]. by apply IH.
Qed.

Lemma style_intensity_valid n :
  0 <= n <= 2 -> known_multiplier (style_intensity n).
Proof.
  intros Hn. unfold known_multiplier.
  assert (n = 0 \/ n = 1 \/ n = 2) as [->|[->| ->]] by lia; auto.
Qed.

Lemma style_after_valid l m :
  Forall valid_action l -> known_multiplier m ->
  known_multiplier (style_after l m).
Proof.
  intros Hl. revert m. induction Hl as [|a l Ha Hl IH]; intros m Hm; [done|].
  change (style_after (a :: l) m) with (style_after l (style_step m a)).
  apply IH. destruct a; try done. by apply style_intensity_valid.
Qed.

Lemma pulse_bounds t playing : (0.8 <= pulse t playing <= 1.2)%R.
Proof.
  unfold pulse. destruct playing; [|lra].
  pose proof (SIN_bound (t * 3.0)). lra.
Qed.

Lemma base_intensity_bounds playing : (0.5 <= base_intensity playing <= 1.0)%R.
Proof. unfold base_intensity. destruct playing; lra. Qed.

Lemma synced_new st ls : synced (new_visualizer st ls).
Proof. reflexivity. Qed.




(** ** C5: the stored preferences *)

Lemma parseInt_toString n : 0 <= n <= 4 -> parseInt (toString n) = Some n.
Proof.
  intros Hn.
  assert (n = 0 \/ n = 1 \/ n = 2 \/ n = 3 \/ n = 4)
    as [->|[->|[->|[->| ->]]]] by lia; reflexivity.
Qed.

Lemma set_material_same v : set_material (material v) v = v.
Proof. by destruct v. Qed.

Lemma updateVisualizationStyle_ok n v :
  broken (localStorage v) = false ->
  updateVisualizationStyle n v
  = Ok tt (set_localStorage
             (mkStorage (<["wmp_viz_style" := toString n]>
                           (items (localStorage v))) false)
             (set_material
                ((fun u => mkUniforms (iTime u)
                             (mul_num (intensity v) (style_intensity n))
                             (iKaleidoscopePattern u)) <$> material v)
                (set_visualizationIntensity (style_intensity n) v))).
Proof.
  intros Hb.
  unfold updateVisualizationStyle, bind, modify, try_catch, setItem, ret. cbn.
  destruct (material v) as [u|] eqn:Em; cbn; rewrite Hb; [done|].
  do 2 f_equal.
  rewrite <- (set_material_same (set_visualizationIntensity _ v)) at 1.
  cbn. by rewrite Em.
Qed.

Lemma updateKaleidoscopePattern_ok n v :
  broken (localStorage v) = false ->
  updateKaleidoscopePattern n v
  = Ok tt (set_localStorage
             (mkStorage (<["wmp_kaleido_pattern" := toString n]>
                           (items (localStorage v))) false)
             (set_material
                ((fun u => mkUniforms (iTime u) (iIntensity u) n)
                   <$> material v)
                (set_kaleidoscopePattern n v))).
Proof.
  intros Hb.
  unfold updateKaleidoscopePattern, bind, modify, try_catch, setItem, ret. cbn.
  destruct (material v) as [u|] eqn:Em; cbn; rewrite Hb; [done|].
  do 2 f_equal.
  rewrite <- (set_material_same (set_kaleidoscopePattern _ v)) at 1.
  cbn. by rewrite Em.
Qed.

(** The load handler never throws, and restores exactly what
    [restored_style] and [restored_pattern] say. *)
Lemma on_load_state st ls :
  returns (on_load st ls) = true /\
  visualizationIntensity (state_of (on_load st ls)) = restored_style st /\
  kaleidoscopePattern (state_of (on_load st ls)) = restored_pattern st /\
  material (state_of (on_load st ls)) = None /\
  intensity (state_of (on_load st ls)) = 0.5%R.
Proof.
  unfold on_load, restore_preferences, restored_style, restored_pattern,
    try_catch, bind, getItem.
  cbn [localStorage new_visualizer].
  destruct (broken st) eqn:Hb; [by repeat split|].
  set (v0 := new_visualizer st ls).
  assert (broken (localStorage v0) = false) as Hb0 by done.
  assert (forall v, broken (localStorage v) = false -> material v = None ->
            intensity v = 0.5%R ->
            items (localStorage v) !! "wmp_kaleido_pattern"
            = items st !! "wmp_kaleido_pattern" ->
            let r := (if broken (localStorage v) then Throw v
                      else Ok (items (localStorage v) !! "wmp_kaleido_pattern") v)
            in
            let r' := match r with
                      | Ok a v' =>
                        match a with
                        | Some s =>
                          if in_range 1 4 (parseInt s)
                          then updateKaleidoscopePattern (default 0 (parseInt s))
                          else ret tt
                        | None => ret tt
                        end v'
                      | Throw v' => Throw v'
                      end in
            let r'' := match r' with
                       | Ok a v' => Ok a v'
                       | Throw v' => ret tt v'
                       end in
            returns r'' = true /\
            visualizationIntensity (state_of r'') = visualizationIntensity v /\
            kaleidoscopePattern (state_of r'')
            = match items st !! "wmp_kaleido_pattern" with
              | Some str =>
                if in_range 1 4 (parseInt str)
                then default 0 (parseInt str) else kaleidoscopePattern v
              | None => kaleidoscopePattern v
              end /\
            material (state_of r'') = None /\
            intensity (state_of r'') = 0.5%R) as Hpat.
  { intros v Hbv Hmv Hiv Hlk. cbv zeta. rewrite Hbv, Hlk.
    destruct (items st !! "wmp_kaleido_pattern") as [ps|]; [|by repeat split].
    destruct (in_range 1 4 (parseInt ps)); [|by repeat split].
    rewrite updateKaleidoscopePattern_ok by done. cbn. rewrite Hmv.
    by repeat split. }
  destruct (items st !! "wmp_viz_style") as [str|] eqn:Es.
  - destruct (in_range 0 2 (parseInt str)) eqn:Hr.
    + rewrite (updateVisualizationStyle_ok _ v0 Hb0).
      apply Hpat; try done. cbn. by rewrite lookup_insert_ne.
    + by apply Hpat.
  - by apply Hpat.
Qed.



(** A stored value with a numeric prefix parses as that number, a stored
    word does not parse, a stored 7 is out of range. *)
Example restore_examples :
  let store k s := mkStorage {[ k := s ]} false in
  restored_style (store "wmp_viz_style" "2") = Some 1.2%R /\
  restored_style (store "wmp_viz_style" "2px") = Some 1.2%R /\
  restored_style (store "wmp_viz_style" "high") = Some 1.0%R /\
  restored_style (store "wmp_viz_style" "7") = Some 1.0%R /\
  restored_pattern (store "wmp_kaleido_pattern" "0") = 1 /\
  restored_pattern (store "wmp_kaleido_pattern" " 4") = 4.
Proof. repeat split; reflexivity. Qed.

End VizFacts.

(* ===================================================================== *)
(** * Part XI: properties of the sound layer over time                   *)
(* ===================================================================== *)

Module ExpiryFacts.
Import Sound SoundFacts Expiry.

(** ** What the callbacks touch *)

Lemma timers_fire a w :
  exists hs,
    timers (fire a w)
    = (timers w ++ map (fun h => (now w + 500, TClearSoundPlayed h)) hs)%list.
Proof.
  destruct a; try (exists []; cbn; by rewrite app_nil_r).
  exists (initial_handles (dom w)). apply foldl_reset_timers.
Qed.

(** A callback changes the elements' [dataset] and the two sets only. *)
Lemma fire_fields a w :
  now (fire a w) = now w /\ xp_installed (fire a w) = xp_installed w /\
  xp_enabled (fire a w) = xp_enabled w /\ sm_enabled (fire a w) = sm_enabled w /\
  lastSoundWindow (fire a w) = lastSoundWindow w /\
  audio_throws (fire a w) = audio_throws w.
Proof.
  destruct a; try by repeat split.
  cbn [fire]. destruct (foldl_reset_shape (initial_handles (dom w)) w)
    as (dm & tm & ->). by repeat split.
Qed.

Lemma xp_active_fire a w :
  xp_active (fire a w)
  = match a with
    | TDeleteActiveXP id => xp_active w ∖ {[id]}
    | _ => xp_active w
    end.
Proof.
  destruct a; try reflexivity.
  cbn [fire]. by destruct (foldl_reset_shape (initial_handles (dom w)) w)
    as (dm & tm & ->).
Qed.

Lemma sm_active_fire a w :
  sm_active (fire a w)
  = match a with
    | TDeleteActiveSM id => sm_active w ∖ {[id]}
    | _ => sm_active w
    end.
Proof.
  destruct a; try reflexivity.
  cbn [fire]. by destruct (foldl_reset_shape (initial_handles (dom w)) w)
    as (dm & tm & ->).
Qed.

Lemma flags_fire a w :
  preventAllSounds (fire a w)
  = match a with
    | TResetCloseFlags => false
    | _ => preventAllSounds w
    end /\
  recentWindowControlAction (fire a w)
  = match a with
    | TResetCloseFlags | TResetControlAction => false
    | _ => recentWindowControlAction w
    end.
Proof.
  destruct a; try by split.
  cbn [fire]. by destruct (foldl_reset_shape (initial_handles (dom w)) w)
    as (dm & tm & ->).
Qed.

(** No script ever changes an element's [id], class list or display:
    what a callback keeps of an element. *)
Lemma el_fire_keep {A} (P : WindowEl -> A) a w h :
  (forall s e, P (set_initialWindow s e) = P e) ->
  (forall s e, P (set_soundPlayed s e) = P e) ->
  (forall s e, P (set_closingInProgress s e) = P e) ->
  (forall s e, P (set_criticalSoundPlayed s e) = P e) ->
  P (el (fire a w) h) = P (el w h).
Proof.
  intros H1 H2 H3 H4.
  destruct a; cbn [fire]; try reflexivity;
    try (apply el_upd_keep; intros e; by rewrite ?H1, ?H2, ?H3, ?H4).
  by apply foldl_reset_keep.
Qed.

Lemma el_run_timers_keep {A} (P : WindowEl -> A) fuel T w h :
  (forall s e, P (set_initialWindow s e) = P e) ->
  (forall s e, P (set_soundPlayed s e) = P e) ->
  (forall s e, P (set_closingInProgress s e) = P e) ->
  (forall s e, P (set_criticalSoundPlayed s e) = P e) ->
  P (el (run_timers fuel T w) h) = P (el w h).
Proof.
  intros H1 H2 H3 H4. revert w.
  induction fuel as [|fuel IH]; intros w; cbn [run_timers]; [done|].
  destruct (next_timer (timers w)) as [[[d a] rest]|]; [|done].
  destruct (d <=? T); [|done].
  rewrite IH. by rewrite el_fire_keep.
Qed.

Lemma el_id_advance dt w h : el_id (el (advance dt w) h) = el_id (el w h).
Proof.
  unfold advance. cbv zeta.
  change (el (set_now ?t ?x) h) with (el x h).
  by apply el_run_timers_keep.
Qed.

Lemma played_run_timers fuel T w : played (run_timers fuel T w) = played w.
Proof.
  revert w. induction fuel as [|fuel IH]; intros w; cbn [run_timers]; [done|].
  destruct (next_timer (timers w)) as [[[d a] rest]|]; [|done].
  destruct (d <=? T); [|done].
  rewrite IH. by rewrite played_fire.
Qed.

Lemma played_advance dt w : played (advance dt w) = played w.
Proof. unfold advance. cbv zeta. apply played_run_timers. Qed.

Lemma now_advance dt w : now (advance dt w) = now w + Z.max 0 dt.
Proof. reflexivity. Qed.

(** ** An active-window mark lasts until its callback *)

Lemma active_until_xp_fire D id w d a rest t :
  active_until_xp D id w ->
  next_timer (timers w) = Some ((d, a), rest) -> d < D ->
  active_until_xp D id (fire a (set_timers rest (set_now t w))).
Proof.
  intros [A U] Hn Hd.
  assert (deletes_xp id (d, a) = false) as Hdel.
  { destruct (deletes_xp id (d, a)) eqn:E; [|done].
    assert ((d, a) ∈ timers w) as Hin
      by (apply (next_timer_elem _ _ _ _ Hn); by left).
    specialize (U _ Hin E). cbn in U. lia. }
  split.
  - rewrite xp_active_fire. destruct a; try exact A.
    unfold deletes_xp in Hdel. cbn in Hdel.
    apply bool_decide_eq_false in Hdel.
    change (xp_active (set_timers rest (set_now t w))) with (xp_active w).
    set_solver.
  - intros x Hx Hp.
    destruct (timers_fire a (set_timers rest (set_now t w))) as (hs & E).
    rewrite E in Hx. apply elem_of_app in Hx as [Hx|Hx].
    + apply U; [|done]. apply (next_timer_elem _ _ _ _ Hn). by right.
    + apply list_elem_of_fmap in Hx as (h' & -> & _). discriminate.
Qed.

Lemma active_until_sm_fire D id w d a rest t :
  active_until_sm D id w ->
  next_timer (timers w) = Some ((d, a), rest) -> d < D ->
  active_until_sm D id (fire a (set_timers rest (set_now t w))).
Proof.
  intros [A U] Hn Hd.
  assert (deletes_sm id (d, a) = false) as Hdel.
  { destruct (deletes_sm id (d, a)) eqn:E; [|done].
    assert ((d, a) ∈ timers w) as Hin
      by (apply (next_timer_elem _ _ _ _ Hn); by left).
    specialize (U _ Hin E). cbn in U. lia. }
  split.
  - rewrite sm_active_fire. destruct a; try exact A.
    unfold deletes_sm in Hdel. cbn in Hdel.
    apply bool_decide_eq_false in Hdel.
    change (sm_active (set_timers rest (set_now t w))) with (sm_active w).
    set_solver.
  - intros x Hx Hp.
    destruct (timers_fire a (set_timers rest (set_now t w))) as (hs & E).
    rewrite E in Hx. apply elem_of_app in Hx as [Hx|Hx].
    + apply U; [|done]. apply (next_timer_elem _ _ _ _ Hn). by right.
    + apply list_elem_of_fmap in Hx as (h' & -> & _). discriminate.
Qed.

Lemma run_timers_active_xp fuel T D id w :
  active_until_xp D id w -> T < D ->
  active_until_xp D id (run_timers fuel T w).
Proof.
  revert w. induction fuel as [|fuel IH]; intros w AU HT; cbn; [done|].
  destruct (next_timer (timers w)) as [[[d a] rest]|] eqn:Hn; [|done].
  destruct (Z.leb_spec d T); [|done].
  apply IH; [|done].
  apply (active_until_xp_fire D id w d a rest _ AU Hn). lia.
Qed.

Lemma run_timers_active_sm fuel T D id w :
  active_until_sm D id w -> T < D ->
  active_until_sm D id (run_timers fuel T w).
Proof.
  revert w. induction fuel as [|fuel IH]; intros w AU HT; cbn; [done|].
  destruct (next_timer (timers w)) as [[[d a] rest]|] eqn:Hn; [|done].
  destruct (Z.leb_spec d T); [|done].
  apply IH; [|done].
  apply (active_until_sm_fire D id w d a rest _ AU Hn). lia.
Qed.

Lemma advance_active_xp dt D id w :
  active_until_xp D id w -> now w + Z.max 0 dt < D ->
  id ∈ xp_active (advance dt w).
Proof.
  intros AU HT. unfold advance. cbv zeta.
  by destruct (run_timers_active_xp (timer_fuel w) _ D id w AU HT).
Qed.

Lemma advance_active_sm dt D id w :
  active_until_sm D id w -> now w + Z.max 0 dt < D ->
  id ∈ sm_active (advance dt w).
Proof.
  intros AU HT. unfold advance. cbv zeta.
  by destruct (run_timers_active_sm (timer_fuel w) _ D id w AU HT).
Qed.

(** ** What one request leaves behind *)

Lemma forget_initial_fields h w :
  timers (forget_initial h w) = timers w /\
  now (forget_initial h w) = now w /\
  xp_active (forget_initial h w) = xp_active w /\
  sm_active (forget_initial h w) = sm_active w.
Proof. unfold forget_initial. destruct (is_true_attr _); by repeat split. Qed.

Lemma el_id_forget_initial h w h' :
  el_id (el (forget_initial h w) h') = el_id (el w h').
Proof.
  unfold forget_initial. destruct (is_true_attr _);
    by rewrite ?(el_upd_keep el_id).
Qed.

Lemma xp_play_fields n v w :
  timers (fst (xp_play n v w)) = timers w /\
  now (fst (xp_play n v w)) = now w /\
  xp_active (fst (xp_play n v w)) = xp_active w /\
  sm_active (fst (xp_play n v w)) = sm_active w /\
  dom (fst (xp_play n v w)) = dom w.
Proof. rewrite fst_xp_play. by destruct (snd _). Qed.

Lemma sm_play_fields n v w :
  timers (fst (sm_play n v w)) = timers w /\
  now (fst (sm_play n v w)) = now w /\
  xp_active (fst (sm_play n v w)) = xp_active w /\
  sm_active (fst (sm_play n v w)) = sm_active w /\
  dom (fst (sm_play n v w)) = dom w.
Proof.
  destruct (fst_sm_play n v w) as [o ->]. by destruct (snd _).
Qed.

Lemma xp_play_and_mark_active h name vol d w :
  el_id (el w h) <> "" ->
  (forall t, t ∈ timers w -> deletes_xp (el_id (el w h)) t = true ->
             now w + 1000 <= fst t) ->
  active_until_xp (now w + 1000) (el_id (el w h))
    (fst (xp_play_and_mark h name vol d w)).
Proof.
  intros Hid U. unfold xp_play_and_mark. cbv zeta.
  set (id := el_id (el w h)) in *.
  rewrite (bool_decide_eq_false_2 (id = "")) by done. cbn [negb andb].
  destruct (xp_isWindowActive id w && negb (bool_decide (name = "critical")))
    eqn:E.
  - cbn [fst]. split; [|done].
    apply andb_true_iff in E as [E _]. by apply bool_decide_eq_true in E.
  - pose proof (xp_play_fields name vol w) as F.
    destruct (xp_play name vol w) as [w2 r]. cbn [fst] in F |- *.
    destruct F as (Ft & Fn & Fa & Fs & Fd). split.
    + change (id ∈ {[id]} ∪ xp_active w2).
      apply elem_of_union. left. by apply elem_of_singleton.
    + intros t Ht Hp. rewrite timers_add_timer in Ht.
      change (timers (upd ?a ?b ?x)) with (timers x) in Ht.
      change (timers (set_lastSoundWindow ?a ?x)) with (timers x) in Ht.
      unfold xp_addActiveWindow in Ht. rewrite timers_add_timer in Ht.
      change (timers (set_xp_active ?a ?x)) with (timers x) in Ht.
      change (now (set_xp_active ?a ?x)) with (now x) in Ht.
      rewrite Ft, Fn in Ht.
      rewrite !elem_of_app, !list_elem_of_singleton in Ht.
      destruct Ht as [[Ht| ->]| ->]; [by apply U|cbn; lia|discriminate].
Qed.

Lemma sm_play_and_mark_active h name vol d w :
  el_id (el w h) <> "" ->
  (forall t, t ∈ timers w -> deletes_sm (el_id (el w h)) t = true ->
             now w + 1000 <= fst t) ->
  active_until_sm (now w + 1000) (el_id (el w h))
    (fst (sm_play_and_mark h name vol d w)).
Proof.
  intros Hid U. unfold sm_play_and_mark. cbv zeta.
  set (id := el_id (el w h)) in *.
  destruct (sm_isWindowActive id w && negb (is_close_name name)) eqn:E.
  - cbn [fst]. split; [|done].
    apply andb_true_iff in E as [E _]. unfold sm_isWindowActive in E.
    apply andb_true_iff in E as [_ E]. by apply bool_decide_eq_true in E.
  - pose proof (sm_play_fields name vol w) as F.
    destruct (sm_play name vol w) as [w2 r]. cbn [fst] in F |- *.
    destruct F as (Ft & Fn & Fx & Fa & Fd).
    unfold sm_addActiveWindow.
    rewrite (bool_decide_eq_false_2 (id = "")) by done. split.
    + change (id ∈ {[id]} ∪ sm_active w2).
      apply elem_of_union. left. by apply elem_of_singleton.
    + intros t Ht Hp. rewrite timers_add_timer in Ht.
      change (timers (upd ?a ?b ?x)) with (timers x) in Ht.
      rewrite timers_add_timer in Ht.
      change (timers (set_sm_active ?a ?x)) with (timers x) in Ht.
      change (now (set_sm_active ?a ?x)) with (now x) in Ht.
      rewrite Ft, Fn in Ht.
      rewrite !elem_of_app, !list_elem_of_singleton in Ht.
      destruct Ht as [[Ht| ->]| ->]; [by apply U|cbn; lia|discriminate].
Qed.

Lemma no_pending_none p (l : list (Z * timer_action)) (B : Z) :
  count_timers p l = 0%nat ->
  forall t, t ∈ l -> p t = true -> B <= fst t.
Proof.
  intros H0 t Ht Hp. by rewrite (count_timers_0 p l t H0 Ht) in Hp.
Qed.

(** A request that gets past the close gate leaves the window's id in
    [activeWindows] with its removal a second away, whether or not a sound
    could be played. *)
Lemma playSoundForWindow_active h name vol d w :
  el_id (el w h) <> "" ->
  count_timers (deletes_xp (el_id (el w h))) (timers w) = 0%nat ->
  (name = "critical" -> closing w h = false) ->
  active_until_xp (now w + 1000) (el_id (el w h))
    (fst (playSoundForWindow h name vol d w)).
Proof.
  intros Hid H0 Hc. unfold playSoundForWindow.
  destruct (bool_decide (name = "critical")) eqn:E.
  - apply bool_decide_eq_true in E.
    unfold xp_critical_gate. cbv zeta.
    pose proof (same_gate_forget_initial h w) as (_ & F & _).
    destruct (F h) as [Fc _]. unfold closing in Fc, Hc.
    rewrite Fc, (Hc E). cbn [negb].
    pose proof (forget_initial_fields h w) as (Ft & Fn & _).
    set (w1 := add_timer 1500 _ _).
    assert (el_id (el w1 h) = el_id (el w h)) as Ei.
    { unfold w1. change (el (add_timer ?a ?b ?x) h) with (el x h).
      rewrite (el_upd_keep el_id) by done. apply el_id_forget_initial. }
    assert (now w1 = now w) as En by exact Fn.
    rewrite <- Ei, <- En. apply xp_play_and_mark_active; [by rewrite Ei|].
    intros t Ht Hp. unfold w1 in Ht. rewrite timers_add_timer in Ht.
    change (timers (upd ?a ?b ?x)) with (timers x) in Ht.
    rewrite Ft in Ht. apply elem_of_app in Ht as [Ht|Ht].
    + rewrite Ei in Hp. by apply (no_pending_none _ _ _ H0 t).
    + apply list_elem_of_singleton in Ht as ->. discriminate.
  - cbn [negb]. apply xp_play_and_mark_active; [done|].
    by apply no_pending_none.
Qed.

Lemma playForWindow_active h name vol d w :
  el_id (el w h) <> "" ->
  count_timers (deletes_sm (el_id (el w h))) (timers w) = 0%nat ->
  (is_close_name name = true ->
   closing w h = false /\ critical_played w h = false) ->
  active_until_sm (now w + 1000) (el_id (el w h))
    (fst (playForWindow (Some h) name vol d w)).
Proof.
  intros Hid H0 Hc. unfold playForWindow.
  destruct (is_close_name name) eqn:E.
  - destruct (Hc eq_refl) as [Hcl Hcr].
    unfold sm_close_gate. cbv zeta.
    pose proof (same_gate_forget_initial h w) as (_ & F & _).
    destruct (F h) as [Fc Fk]. unfold closing in Fc, Hcl.
    unfold critical_played in Fk, Hcr.
    rewrite Fc, Hcl, Fk, Hcr, andb_false_r. cbn [negb].
    pose proof (forget_initial_fields h w) as (Ft & Fn & _).
    set (w1 := add_timer 1500 _ _).
    assert (el_id (el w1 h) = el_id (el w h)) as Ei.
    { unfold w1. change (el (add_timer ?a ?b ?x) h) with (el x h).
      destruct (bool_decide (name = "critical"));
        rewrite !(el_upd_keep el_id) by done; apply el_id_forget_initial. }
    assert (now w1 = now w) as En.
    { unfold w1. by destruct (bool_decide (name = "critical")). }
    rewrite <- Ei, <- En. apply sm_play_and_mark_active; [by rewrite Ei|].
    intros t Ht Hp. unfold w1 in Ht. rewrite timers_add_timer in Ht.
    assert (timers (if bool_decide (name = "critical")
                    then upd h (set_criticalSoundPlayed "true")
                           (upd h (set_closingInProgress "true")
                              (forget_initial h w))
                    else upd h (set_closingInProgress "true")
                           (forget_initial h w)) = timers w) as Et.
    { by destruct (bool_decide (name = "critical")). }
    rewrite Et in Ht. apply elem_of_app in Ht as [Ht|Ht].
    + rewrite Ei in Hp. by apply (no_pending_none _ _ _ H0 t).
    + apply list_elem_of_singleton in Ht as ->. discriminate.
  - cbn [negb]. apply sm_play_and_mark_active; [done|].
    by apply no_pending_none.
Qed.

(** ** Element ids are never changed *)

Lemma same_ids_refl w : same_ids w w.
Proof. by intros h. Qed.

Lemma same_ids_trans w1 w2 w3 :
  same_ids w1 w2 -> same_ids w2 w3 -> same_ids w1 w3.
Proof. intros H1 H2 h. by rewrite H2, H1. Qed.

Lemma same_ids_upd h f w :
  (forall e, el_id (f e) = el_id e) -> same_ids w (upd h f w).
Proof. intros Hf h'. by apply (el_upd_keep el_id). Qed.

Lemma same_ids_dom w w' : dom w' = dom w -> same_ids w w'.
Proof. intros E h. unfold el. by rewrite E. Qed.

Lemma same_ids_xp_play n v w : same_ids w (fst (xp_play n v w)).
Proof. apply same_ids_dom, xp_play_fields. Qed.

Lemma same_ids_sm_play n v w : same_ids w (fst (sm_play n v w)).
Proof. apply same_ids_dom, sm_play_fields. Qed.

Ltac si_step :=
  match goal with
  | |- same_ids ?w ?w => apply same_ids_refl
  | |- same_ids ?w (upd ?h ?f ?x) =>
      apply (same_ids_trans w x); [| by apply same_ids_upd]
  | |- same_ids ?w (fst (xp_play ?n ?v ?x)) =>
      apply (same_ids_trans w x); [| apply same_ids_xp_play]
  | |- same_ids ?w (fst (sm_play ?n ?v ?x)) =>
      apply (same_ids_trans w x); [| apply same_ids_sm_play]
  | |- same_ids ?w (add_timer _ _ ?x) =>
      apply (same_ids_trans w x); [| by apply same_ids_dom]
  | |- same_ids ?w (xp_addActiveWindow _ ?x) =>
      apply (same_ids_trans w x); [| by apply same_ids_dom]
  | |- same_ids ?w (sm_addActiveWindow ?i ?x) =>
      apply (same_ids_trans w x);
      [| apply same_ids_dom; unfold sm_addActiveWindow;
         by destruct (bool_decide (i = ""))]
  | |- same_ids ?w (set_lastSoundWindow _ ?x) =>
      apply (same_ids_trans w x); [| by apply same_ids_dom]
  | |- same_ids ?w (set_recent _ ?x) =>
      apply (same_ids_trans w x); [| by apply same_ids_dom]
  | |- same_ids ?w (set_prevent _ ?x) =>
      apply (same_ids_trans w x); [| by apply same_ids_dom]
  | |- same_ids ?w (set_xp_enabled _ ?x) =>
      apply (same_ids_trans w x); [| by apply same_ids_dom]
  | |- same_ids ?w (set_sm_enabled _ ?x) =>
      apply (same_ids_trans w x); [| by apply same_ids_dom]
  | |- same_ids ?w (set_now _ ?x) =>
      apply (same_ids_trans w x); [| by apply same_ids_dom]
  | |- same_ids ?w (set_timers _ ?x) =>
      apply (same_ids_trans w x); [| by apply same_ids_dom]
  | |- same_ids _ (if ?b then _ else _) => destruct b
  | |- same_ids _ (fst (if ?b then _ else _)) => destruct b
  | |- same_ids _ (fst (let '(_, _) := ?p in _)) =>
      let E := fresh "E" in destruct p eqn:E
  | |- same_ids _ (fst (_, _)) => cbn [fst]
  end.

Ltac si := repeat si_step.

Lemma same_ids_forget_initial h w : same_ids w (forget_initial h w).
Proof. unfold forget_initial. si. Qed.

Lemma same_ids_xp_play_and_mark h n v d w :
  same_ids w (fst (xp_play_and_mark h n v d w)).
Proof.
  unfold xp_play_and_mark. cbv zeta.
  pose proof (same_ids_xp_play n v w) as P.
  destruct (xp_play n v w) as [w2 r]. cbn [fst] in P.
  destruct (_ && _); cbn [fst]; [apply same_ids_refl|].
  apply (same_ids_trans _ _ _ P). si.
Qed.

Lemma same_ids_sm_play_and_mark h n v d w :
  same_ids w (fst (sm_play_and_mark h n v d w)).
Proof.
  unfold sm_play_and_mark. cbv zeta.
  pose proof (same_ids_sm_play n v w) as P.
  destruct (sm_play n v w) as [w2 r]. cbn [fst] in P.
  destruct (_ && _); cbn [fst]; [apply same_ids_refl|].
  apply (same_ids_trans _ _ _ P). si.
Qed.

Lemma same_ids_playSoundForWindow h n v d w :
  same_ids w (fst (playSoundForWindow h n v d w)).
Proof.
  unfold playSoundForWindow.
  destruct (bool_decide (n = "critical")); cbn [negb];
    [|apply same_ids_xp_play_and_mark].
  unfold xp_critical_gate. cbv zeta.
  destruct (is_true_attr (ds_closingInProgress _)); cbn [negb fst];
    [apply same_ids_forget_initial|].
  eapply same_ids_trans; [|apply same_ids_xp_play_and_mark].
  eapply same_ids_trans; [apply (same_ids_forget_initial h)|]. si.
Qed.

Lemma same_ids_playForWindow oh n v d w :
  same_ids w (fst (playForWindow oh n v d w)).
Proof.
  destruct oh as [h|]; cbn [playForWindow]; [|apply same_ids_sm_play].
  destruct (is_close_name n); cbn [negb];
    [|apply same_ids_sm_play_and_mark].
  unfold sm_close_gate. cbv zeta.
  destruct (is_true_attr (ds_closingInProgress _)); cbn [negb fst];
    [apply same_ids_forget_initial|].
  destruct (_ && _); cbn [negb fst]; [apply same_ids_forget_initial|].
  eapply same_ids_trans; [|apply same_ids_sm_play_and_mark].
  eapply same_ids_trans; [apply (same_ids_forget_initial h)|]. si.
Qed.

(** X1.  [playSoundForWindow] (windowsXPSounds.js): once a request for a
    window with an id got past the close gate, every request for the same
    window that is not the close sound is refused for the next 1000ms: it
    returns [false] and changes nothing.  This holds whether or not the
    first request could play (sounds switched off, unknown name, [Audio]
    throwing).  It needs that no older removal of the id is still
    pending. *)
Theorem xp_active_window_gate h name vol d dt name' vol' d' w :
  el_id (el w h) <> "" ->
  count_timers (deletes_xp (el_id (el w h))) (timers w) = 0%nat ->
  (name = "critical" -> closing w h = false) ->
  name' <> "critical" -> 0 <= dt < 1000 ->
  let w2 := advance dt (fst (playSoundForWindow h name vol d w)) in
  playSoundForWindow h name' vol' d' w2 = (w2, false).
Proof.
  intros Hid H0 Hc Hn' Hdt w2.
  pose proof (playSoundForWindow_active h name vol d w Hid H0 Hc) as AU.
  assert (now (fst (playSoundForWindow h name vol d w)) = now w) as En
    by apply env_playSoundForWindow.
  assert (el_id (el w h) ∈ xp_active w2) as Hin.
  { apply (advance_active_xp dt (now w + 1000)); [done|]. rewrite En. lia. }
  assert (el_id (el w2 h) = el_id (el w h)) as Ei.
  { unfold w2. rewrite el_id_advance. apply same_ids_playSoundForWindow. }
  unfold playSoundForWindow.
  rewrite (bool_decide_eq_false_2 (name' = "critical")) by done.
  cbn [negb]. unfold xp_play_and_mark. cbv zeta. rewrite Ei.
  rewrite (bool_decide_eq_false_2 (el_id (el w h) = "")) by done.
  unfold xp_isWindowActive.
  match goal with
  | |- context [bool_decide (?x ∈ ?s)] =>
      rewrite (bool_decide_eq_true_2 (x ∈ s)) by done
  end.
  by rewrite (bool_decide_eq_false_2 (name' = "critical")).
Qed.

Lemma xp_active_window_gate_witness :
  let w := init_world true [("wmp-window", ["window"], "")] never_throws in
  let w2 := advance 999
              (fst (playSoundForWindow 0%nat "bogus" 0.6 1000 w)) in
  played w2 = [] /\
  playSoundForWindow 0%nat "notify" 0.6 800 w2 = (w2, false).
Proof.
  split; [reflexivity|].
  apply (xp_active_window_gate 0%nat "bogus" 0.6 1000 999 "notify" 0.6 800);
    [done|reflexivity|done|done|lia].
Defined.

(** X2.  [SoundManager.playForWindow]: the same for the class instance.
    A request that got past the close gate blocks every request for the
    same window (one with an id) that is neither ['windowClose'] nor
    ['critical'] for 1000ms. *)
Theorem sm_active_window_gate h name vol d dt name' vol' d' w :
  el_id (el w h) <> "" ->
  count_timers (deletes_sm (el_id (el w h))) (timers w) = 0%nat ->
  (is_close_name name = true ->
   closing w h = false /\ critical_played w h = false) ->
  is_close_name name' = false -> 0 <= dt < 1000 ->
  let w2 := advance dt (fst (playForWindow (Some h) name vol d w)) in
  playForWindow (Some h) name' vol' d' w2 = (w2, false).
Proof.
  intros Hid H0 Hc Hn' Hdt w2.
  pose proof (playForWindow_active h name vol d w Hid H0 Hc) as AU.
  assert (now (fst (playForWindow (Some h) name vol d w)) = now w) as En
    by apply env_playForWindow.
  assert (el_id (el w h) ∈ sm_active w2) as Hin.
  { apply (advance_active_sm dt (now w + 1000)); [done|]. rewrite En. lia. }
  assert (el_id (el w2 h) = el_id (el w h)) as Ei.
  { unfold w2. rewrite el_id_advance. apply same_ids_playForWindow. }
  cbn [playForWindow]. rewrite Hn'.
  cbn [negb]. unfold sm_play_and_mark. cbv zeta. rewrite Ei.
  unfold sm_isWindowActive.
  rewrite (bool_decide_eq_false_2 (el_id (el w h) = "")) by done.
  match goal with
  | |- context [bool_decide (?x ∈ ?s)] =>
      rewrite (bool_decide_eq_true_2 (x ∈ s)) by done
  end.
  by rewrite Hn'.
Qed.

Lemma sm_active_window_gate_witness :
  let w := init_world false [("wmp-window", ["window"], "")] never_throws in
  let w2 := advance 999
              (fst (playForWindow (Some 0%nat) "maximize" 0.6 1000 w)) in
  played w2 = [(SM, "maximize", 0.6%Q)] /\
  playForWindow (Some 0%nat) "minimize" 0.6 1000 w2 = (w2, false).
Proof.
  split; [reflexivity|].
  apply (sm_active_window_gate 0%nat "maximize" 0.6 1000 999 "minimize"
           0.6 1000);
    [done|reflexivity|done|done|lia].
Defined.

(** ** Every suppression has its callback pending *)

Lemma due_by_grows B p w w' :
  (forall t, t ∈ timers w -> t ∈ timers w') -> due_by B p w -> due_by B p w'.
Proof. intros G (t & Ht & Hp & Hb). exists t. auto. Qed.

Lemma due_by_mono B B' p w : B <= B' -> due_by B p w -> due_by B' p w.
Proof. intros Hle (t & Ht & Hp & Hb). exists t. repeat split; [done..|lia]. Qed.

Lemma due_by_added B p d a w :
  p (now w + Z.max 0 d, a) = true -> now w + Z.max 0 d <= B ->
  due_by B p (add_timer d a w).
Proof.
  intros Hp Hb. exists (now w + Z.max 0 d, a). rewrite timers_add_timer.
  split; [|done]. apply elem_of_app. right. by apply list_elem_of_singleton.
Qed.

Lemma flag_ok_refl B1 B2 w : flag_ok B1 B2 w w.
Proof. split; auto. Qed.

Lemma flag_ok_trans B1 B2 w1 w2 w3 :
  flag_ok B1 B2 w1 w2 -> flag_ok B1 B2 w2 w3 -> flag_ok B1 B2 w1 w3.
Proof.
  intros [N1 T1 X1 S1 C1 K1 P1 R1] [N2 T2 X2 S2 C2 K2 P2 R2].
  split.
  - by rewrite N2.
  - auto.
  - intros id H. destruct (X2 id H) as [H'|H']; [|by right].
    destruct (X1 id H') as [?|D]; [by left|right].
    by apply (due_by_grows _ _ w2).
  - intros id H. destruct (S2 id H) as [H'|H']; [|by right].
    destruct (S1 id H') as [?|D]; [by left|right].
    by apply (due_by_grows _ _ w2).
  - intros h H. destruct (C2 h H) as [H'|H']; [|by right].
    destruct (C1 h H') as [?|D]; [by left|right].
    by apply (due_by_grows _ _ w2).
  - intros h H. destruct (K2 h H) as [H'|H']; [|by right].
    destruct (K1 h H') as [?|D]; [by left|right].
    by apply (due_by_grows _ _ w2).
  - intros H. destruct (P2 H) as [H'|H']; [|by right].
    destruct (P1 H') as [?|D]; [by left|right].
    by apply (due_by_grows _ _ w2).
  - intros H. destruct (R2 H) as [H'|H']; [|by right].
    destruct (R1 H') as [?|D]; [by left|right].
    by apply (due_by_grows _ _ w2).
Qed.

Lemma flag_ok_expiring B1 B2 w w' :
  expiring B1 B2 w -> flag_ok B1 B2 w w' -> expiring B1 B2 w'.
Proof.
  intros [X S C K P R] [N1 T1 X1 S1 C1 K1 P1 R1].
  split.
  - intros id H. destruct (X1 id H) as [H'|?]; [|done].
    by apply (due_by_grows _ _ w), X.
  - intros id H. destruct (S1 id H) as [H'|?]; [|done].
    by apply (due_by_grows _ _ w), S.
  - intros h H. destruct (C1 h H) as [H'|?]; [|done].
    by apply (due_by_grows _ _ w), C.
  - intros h H. destruct (K1 h H) as [H'|?]; [|done].
    by apply (due_by_grows _ _ w), K.
  - intros H. destruct (P1 H) as [H'|?]; [|done].
    by apply (due_by_grows _ _ w), P.
  - intros H. destruct (R1 H) as [H'|?]; [|done].
    by apply (due_by_grows _ _ w), R.
Qed.

(** A step that keeps the clock, the sets, the two flags and the close
    markers, and drops no pending callback. *)
Lemma flag_ok_step B1 B2 w x y :
  flag_ok B1 B2 w x ->
  now y = now x -> (forall t, t ∈ timers x -> t ∈ timers y) ->
  xp_active y = xp_active x -> sm_active y = sm_active x ->
  (forall h, closing y h = closing x h /\
             critical_played y h = critical_played x h) ->
  preventAllSounds y = preventAllSounds x ->
  recentWindowControlAction y = recentWindowControlAction x ->
  flag_ok B1 B2 w y.
Proof.
  intros F N T X S C P R. apply (flag_ok_trans _ _ w x y F).
  split; try done.
  - intros id H. left. by rewrite <- X.
  - intros id H. left. by rewrite <- S.
  - intros h H. left. destruct (C h) as [E _]. by rewrite <- E.
  - intros h H. left. destruct (C h) as [_ E]. by rewrite <- E.
  - intros H. left. by rewrite <- P.
  - intros H. left. by rewrite <- R.
Qed.

Lemma fo_upd B1 B2 w x h f :
  flag_ok B1 B2 w x -> keeps_gate_flags f -> flag_ok B1 B2 w (upd h f x).
Proof.
  intros F Hf. apply (flag_ok_step _ _ w x); try done.
  by destruct (same_gate_upd h f x Hf) as (_ & C & _).
Qed.

Lemma fo_add_timer B1 B2 w x d a :
  flag_ok B1 B2 w x -> flag_ok B1 B2 w (add_timer d a x).
Proof.
  intros F. apply (flag_ok_step _ _ w x); try done.
  intros t Ht. rewrite timers_add_timer. apply elem_of_app. by left.
Qed.

Lemma fo_xp_play B1 B2 w x n v :
  flag_ok B1 B2 w x -> flag_ok B1 B2 w (fst (xp_play n v x)).
Proof.
  intros F. rewrite fst_xp_play. destruct (snd _); [|done].
  by apply (flag_ok_step _ _ w x).
Qed.

Lemma fo_sm_play B1 B2 w x n v :
  flag_ok B1 B2 w x -> flag_ok B1 B2 w (fst (sm_play n v x)).
Proof.
  intros F. destruct (fst_sm_play n v x) as [o ->]. destruct (snd _); [|done].
  by apply (flag_ok_step _ _ w x).
Qed.

Lemma fo_xp_addActiveWindow B1 B2 w x id :
  flag_ok B1 B2 w x -> now w + 1000 <= B1 ->
  flag_ok B1 B2 w (xp_addActiveWindow id x).
Proof.
  intros F HB. apply (flag_ok_trans _ _ w x _ F).
  pose proof (fo_now _ _ _ _ F) as N.
  split; try by (intros; left).
  - done.
  - intros t Ht. unfold xp_addActiveWindow. rewrite timers_add_timer.
    apply elem_of_app. by left.
  - intros i Hi. change (i ∈ {[id]} ∪ xp_active x) in Hi.
    apply elem_of_union in Hi as [Hi|Hi]; [right|by left].
    apply elem_of_singleton in Hi as ->.
    apply due_by_added; [unfold deletes_xp; cbn; by apply bool_decide_eq_true|].
    change (now (set_xp_active ?a x)) with (now x). lia.
Qed.

Lemma fo_sm_addActiveWindow B1 B2 w x id :
  flag_ok B1 B2 w x -> now w + 1000 <= B1 ->
  flag_ok B1 B2 w (sm_addActiveWindow id x).
Proof.
  intros F HB. unfold sm_addActiveWindow.
  destruct (bool_decide (id = "")); [done|].
  apply (flag_ok_trans _ _ w x _ F).
  pose proof (fo_now _ _ _ _ F) as N.
  split; try by (intros; left).
  - done.
  - intros t Ht. rewrite timers_add_timer. apply elem_of_app. by left.
  - intros i Hi. change (i ∈ {[id]} ∪ sm_active x) in Hi.
    apply elem_of_union in Hi as [Hi|Hi]; [right|by left].
    apply elem_of_singleton in Hi as ->.
    apply due_by_added; [unfold deletes_sm; cbn; by apply bool_decide_eq_true|].
    change (now (set_sm_active ?a x)) with (now x). lia.
Qed.

(** Setting [closingInProgress] (and [criticalSoundPlayed]) together with
    the 1500ms callback that clears it. *)
Lemma fo_mark B1 B2 w x h g a :
  flag_ok B1 B2 w x -> now w + 1500 <= B2 ->
  (a = TClearClosingSM h \/
   a = TClearClosingXP h /\
   forall e, ds_criticalSoundPlayed (g e) = ds_criticalSoundPlayed e) ->
  flag_ok B1 B2 w (add_timer 1500 a (upd h g x)).
Proof.
  intros F HB Ha. apply (flag_ok_trans _ _ w x _ F).
  pose proof (fo_now _ _ _ _ F) as N.
  assert (forall p, p (now x + Z.max 0 1500, a) = true ->
                    due_by B2 p (add_timer 1500 a (upd h g x))) as D.
  { intros p Hp. apply (due_by_added B2 p 1500 a (upd h g x) Hp).
    change (now (upd h g x)) with (now x). lia. }
  split; try by (intros; left).
  - done.
  - intros t Ht. rewrite timers_add_timer. apply elem_of_app. by left.
  - intros h' H. destruct (decide (h' = h)) as [->|Hne].
    + right. apply D. unfold clears. cbn.
      destruct Ha as [->|[-> _]]; by apply bool_decide_eq_true.
    + left. unfold closing in *.
      change (el (add_timer ?a ?b ?y) h') with (el y h') in H.
      by rewrite el_upd_ne in H.
  - intros h' H. destruct Ha as [->|[-> Hk]].
    + destruct (decide (h' = h)) as [->|Hne].
      * right. apply D. unfold clears_sm. cbn. by apply bool_decide_eq_true.
      * left. unfold critical_played in *.
        change (el (add_timer ?a ?b ?y) h') with (el y h') in H.
        by rewrite el_upd_ne in H.
    + left. unfold critical_played in *.
      change (el (add_timer ?a ?b ?y) h') with (el y h') in H.
      by rewrite (el_upd_keep ds_criticalSoundPlayed) in H.
Qed.

Ltac kg :=
  repeat first
    [ apply keeps_set_initialWindow | apply keeps_set_soundPlayed
    | apply keeps_set_classes | apply keeps_set_display
    | apply keeps_compose ].

Lemma fo_forget_initial B1 B2 w x h :
  flag_ok B1 B2 w x -> flag_ok B1 B2 w (forget_initial h x).
Proof.
  intros F. unfold forget_initial.
  destruct (is_true_attr _); repeat (apply fo_upd; [|kg]); done.
Qed.

Lemma fo_xp_play_and_mark B1 B2 w x h n v d :
  flag_ok B1 B2 w x -> now w + 1000 <= B1 ->
  flag_ok B1 B2 w (fst (xp_play_and_mark h n v d x)).
Proof.
  intros F HB. unfold xp_play_and_mark. cbv zeta.
  pose proof (fo_xp_play B1 B2 w x n v F) as P.
  destruct (xp_play n v x) as [w2 r]. cbn [fst] in P.
  destruct (_ && _); cbn [fst]; [done|].
  apply fo_add_timer, fo_upd; [|kg].
  destruct (negb _); [|done].
  apply (flag_ok_step _ _ w (xp_addActiveWindow (el_id (el x h)) w2));
    try done.
  by apply fo_xp_addActiveWindow.
Qed.

Lemma fo_sm_play_and_mark B1 B2 w x h n v d :
  flag_ok B1 B2 w x -> now w + 1000 <= B1 ->
  flag_ok B1 B2 w (fst (sm_play_and_mark h n v d x)).
Proof.
  intros F HB. unfold sm_play_and_mark. cbv zeta.
  pose proof (fo_sm_play B1 B2 w x n v F) as P.
  destruct (sm_play n v x) as [w2 r]. cbn [fst] in P.
  destruct (_ && _); cbn [fst]; [done|].
  apply fo_add_timer, fo_upd; [|kg].
  by apply fo_sm_addActiveWindow.
Qed.

Lemma fo_playSoundForWindow B1 B2 w x h n v d :
  flag_ok B1 B2 w x -> now w + 1000 <= B1 -> now w + 1500 <= B2 ->
  flag_ok B1 B2 w (fst (playSoundForWindow h n v d x)).
Proof.
  intros F H1 H2. unfold playSoundForWindow.
  destruct (bool_decide (n = "critical")); cbn [negb];
    [|by apply fo_xp_play_and_mark].
  unfold xp_critical_gate. cbv zeta.
  destruct (is_true_attr (ds_closingInProgress _)); cbn [negb fst];
    [by apply fo_forget_initial|].
  apply fo_xp_play_and_mark; [|done].
  apply fo_mark; [by apply fo_forget_initial|done|].
  right. by split.
Qed.

Lemma fo_playForWindow B1 B2 w x oh n v d :
  flag_ok B1 B2 w x -> now w + 1000 <= B1 -> now w + 1500 <= B2 ->
  flag_ok B1 B2 w (fst (playForWindow oh n v d x)).
Proof.
  intros F H1 H2.
  destruct oh as [h|]; cbn [playForWindow]; [|by apply fo_sm_play].
  destruct (is_close_name n); cbn [negb];
    [|by apply fo_sm_play_and_mark].
  unfold sm_close_gate. cbv zeta.
  destruct (is_true_attr (ds_closingInProgress _)); cbn [negb fst];
    [by apply fo_forget_initial|].
  destruct (_ && _); cbn [negb fst]; [by apply fo_forget_initial|].
  apply fo_sm_play_and_mark; [|done].
  destruct (bool_decide (n = "critical")).
  - rewrite upd_upd.
    apply fo_mark; [by apply fo_forget_initial|done|by left].
  - apply fo_mark; [by apply fo_forget_initial|done|by left].
Qed.

(** A handler that sets one of the two global flags, runs a request and
    then registers the callback that resets the flag. *)
Lemma expiring_bridge B1 B2 w w1 w2 w4 :
  expiring B1 B2 w -> flag_ok B1 B2 w w1 ->
  now w2 = now w1 -> timers w2 = timers w1 -> dom w2 = dom w1 ->
  xp_active w2 = xp_active w1 -> sm_active w2 = sm_active w1 ->
  flag_ok B1 B2 w2 w4 ->
  (preventAllSounds w2 = preventAllSounds w1 \/ due_by B1 resets_close w4) ->
  (recentWindowControlAction w2 = recentWindowControlAction w1 \/
   due_by B1 resets_recent w4) ->
  expiring B1 B2 w4 /\ now w4 = now w.
Proof.
  intros E F N T D X S [N4 T4 X4 S4 C4 K4 P4 R4] Hp Hr.
  pose proof (flag_ok_expiring _ _ _ _ E F) as [X1 S1 C1 K1 P1 R1].
  assert (forall B p, due_by B p w1 -> due_by B p w4) as G.
  { intros B p. apply due_by_grows. intros t Ht. apply T4. by rewrite T. }
  assert (forall h, closing w2 h = closing w1 h /\
                    critical_played w2 h = critical_played w1 h) as CK.
  { intros h. unfold closing, critical_played, el. by rewrite D. }
  split; [|rewrite N4, N; apply F].
  split.
  - intros id H. destruct (X4 id H) as [H'|?]; [|done].
    rewrite X in H'. auto.
  - intros id H. destruct (S4 id H) as [H'|?]; [|done].
    rewrite S in H'. auto.
  - intros h H. destruct (C4 h H) as [H'|?]; [|done].
    destruct (CK h) as [Ec _]. rewrite Ec in H'. auto.
  - intros h H. destruct (K4 h H) as [H'|?]; [|done].
    destruct (CK h) as [_ Ek]. rewrite Ek in H'. auto.
  - intros H. destruct Hp as [Hp|?]; [|done].
    destruct (P4 H) as [H'|?]; [|done]. rewrite Hp in H'. auto.
  - intros H. destruct Hr as [Hr|?]; [|done].
    destruct (R4 H) as [H'|?]; [|done]. rewrite Hr in H'. auto.
Qed.

Lemma expiring_close_click B1 B2 h w :
  expiring B1 B2 w -> now w + 1000 <= B1 -> now w + 1500 <= B2 ->
  expiring B1 B2 (close_click h w) /\ now (close_click h w) = now w.
Proof.
  intros E H1 H2. unfold close_click. cbv zeta.
  set (w1 := if is_true_attr (ds_initialWindow (el w h)) then _ else w).
  assert (flag_ok B1 B2 w w1) as F1.
  { unfold w1. destruct (is_true_attr _); [|apply flag_ok_refl].
    apply fo_upd; [apply flag_ok_refl|kg]. }
  set (w2 := set_prevent true (set_recent true w1)).
  assert (now w2 = now w) as N2 by apply F1.
  set (w3 := fst (playSoundForWindow h "critical" 0.6 2000 w2)).
  assert (flag_ok B1 B2 w2 w3) as F3.
  { apply fo_playSoundForWindow; [apply flag_ok_refl|lia..]. }
  assert (now w3 = now w) as N3 by (rewrite <- N2; apply F3).
  apply (expiring_bridge B1 B2 w w1 w2); try done.
  - by apply fo_add_timer.
  - right. apply due_by_added; [done|]. rewrite N3. lia.
  - right. apply due_by_added; [done|]. rewrite N3. lia.
Qed.

Lemma expiring_control_click B1 B2 n h w :
  expiring B1 B2 w -> now w + 1000 <= B1 -> now w + 1500 <= B2 ->
  expiring B1 B2 (control_click n h w) /\ now (control_click n h w) = now w.
Proof.
  intros E H1 H2. unfold control_click. cbv zeta.
  set (w1 := upd h (set_initialWindow "") w).
  assert (flag_ok B1 B2 w w1) as F1.
  { apply fo_upd; [apply flag_ok_refl|kg]. }
  set (w2 := set_recent true w1).
  assert (now w2 = now w) as N2 by done.
  set (w3 := fst (playSoundForWindow h n 0.6 1000 w2)).
  assert (flag_ok B1 B2 w2 w3) as F3.
  { apply fo_playSoundForWindow; [apply flag_ok_refl|lia..]. }
  assert (now w3 = now w) as N3 by (rewrite <- N2; apply F3).
  apply (expiring_bridge B1 B2 w w1 w2); try done.
  - by apply fo_add_timer.
  - by left.
  - right. apply due_by_added; [done|]. rewrite N3. lia.
Qed.

Lemma expiring_icon_click B1 B2 t n w :
  expiring B1 B2 w -> now w + 1000 <= B1 -> now w + 1500 <= B2 ->
  expiring B1 B2 (icon_click t n w) /\ now (icon_click t n w) = now w.
Proof.
  intros E H1 H2. unfold icon_click. cbv zeta.
  set (w2 := set_recent true w).
  set (w3 := match t with Some h => _ | None => _ end).
  assert (flag_ok B1 B2 w2 w3) as F3.
  { unfold w3. destruct t as [h|]; [|apply fo_xp_play, flag_ok_refl].
    apply fo_playSoundForWindow; [|done..].
    destruct (is_true_attr _); [|apply flag_ok_refl].
    apply fo_upd; [apply flag_ok_refl|kg]. }
  assert (now w3 = now w) as N3 by apply F3.
  apply (expiring_bridge B1 B2 w w w2); try done.
  - apply flag_ok_refl.
  - by apply fo_add_timer.
  - by left.
  - right. apply due_by_added; [done|]. rewrite N3. lia.
Qed.

Lemma fo_observe_one B1 B2 w x h :
  flag_ok B1 B2 w x -> now w + 1000 <= B1 -> now w + 1500 <= B2 ->
  flag_ok B1 B2 w (observe_one h x).
Proof.
  intros F H1 H2. unfold observe_one. cbv zeta.
  repeat (case_match; try done).
  - apply fo_add_timer, fo_upd; [done|kg].
  - by apply fo_playSoundForWindow.
Qed.

Lemma fo_observer B1 B2 w ms :
  now w + 1000 <= B1 -> now w + 1500 <= B2 ->
  flag_ok B1 B2 w (observer ms w).
Proof.
  intros H1 H2. unfold observer. case_match; [apply flag_ok_refl|].
  assert (forall x, flag_ok B1 B2 w x ->
            flag_ok B1 B2 w (foldl (fun w h => observe_one h w) x ms)) as G.
  { induction ms as [|h ms IH]; intros x F; cbn [foldl]; [done|].
    apply IH. by apply fo_observe_one. }
  apply G, flag_ok_refl.
Qed.

(** ** ... also when callbacks run *)

Lemma closing_fire a w h d :
  closing (fire a w) h = true ->
  closing w h = true /\ clears h (d, a) = false.
Proof.
  unfold closing, clears.
  destruct a as [h'|h'|h'| | | | |]; cbn [fire snd];
    try (rewrite ?(el_upd_keep ds_closingInProgress) by done; by split).
  - destruct (decide (h = h')) as [->|Hne].
    + destruct (decide (h' < length (dom w))%nat) as [Hl|Hl].
      * by rewrite el_upd_eq.
      * unfold el, upd. cbn.
        rewrite list_lookup_alter, (lookup_ge_None_2 (dom w) h') by lia.
        case_decide; [|done]. unfold is_true_attr. cbn.
        intros H'. by apply bool_decide_eq_true in H'.
    + rewrite el_upd_ne by done. intros H. split; [done|].
      by apply bool_decide_eq_false.
  - destruct (decide (h = h')) as [->|Hne].
    + destruct (decide (h' < length (dom w))%nat) as [Hl|Hl].
      * by rewrite el_upd_eq.
      * unfold el, upd. cbn.
        rewrite list_lookup_alter, (lookup_ge_None_2 (dom w) h') by lia.
        case_decide; [|done]. unfold is_true_attr. cbn.
        intros H'. by apply bool_decide_eq_true in H'.
    + rewrite el_upd_ne by done. intros H. split; [done|].
      by apply bool_decide_eq_false.
  - rewrite (foldl_reset_keep ds_closingInProgress) by done. by split.
Qed.

Lemma critical_fire a w h d :
  critical_played (fire a w) h = true ->
  critical_played w h = true /\ clears_sm h (d, a) = false.
Proof.
  unfold critical_played, clears_sm.
  destruct a as [h'|h'|h'| | | | |]; cbn [fire snd];
    try (rewrite ?(el_upd_keep ds_criticalSoundPlayed) by done; by split).
  - destruct (decide (h = h')) as [->|Hne].
    + destruct (decide (h' < length (dom w))%nat) as [Hl|Hl].
      * by rewrite el_upd_eq.
      * unfold el, upd. cbn.
        rewrite list_lookup_alter, (lookup_ge_None_2 (dom w) h') by lia.
        case_decide; [|done]. unfold is_true_attr. cbn.
        intros H'. by apply bool_decide_eq_true in H'.
    + rewrite el_upd_ne by done. intros H. split; [done|].
      by apply bool_decide_eq_false.
  - rewrite (foldl_reset_keep ds_criticalSoundPlayed) by done. by split.
Qed.

Lemma expiring_fire B1 B2 w d a rest t :
  expiring B1 B2 w -> next_timer (timers w) = Some ((d, a), rest) ->
  expiring B1 B2 (fire a (set_timers rest (set_now t w))).
Proof.
  intros [X S C K P R] Hn.
  set (w0 := set_timers rest (set_now t w)).
  assert (forall B p, due_by B p w -> p (d, a) = false ->
                      due_by B p (fire a w0)) as G.
  { intros B p (x & Hx & Hp & Hb) Hda. exists x. split; [|done].
    destruct (timers_fire a w0) as (hs & ->). apply elem_of_app. left.
    apply (next_timer_elem _ _ _ x Hn) in Hx as [->|Hx]; [|done].
    by rewrite Hp in Hda. }
  split.
  - intros id H. rewrite xp_active_fire in H.
    assert (id ∈ xp_active w /\ deletes_xp id (d, a) = false) as [H' Hd].
    { destruct a; try (by split).
      change (xp_active w0) with (xp_active w) in H.
      apply elem_of_difference in H as [H Hne]. split; [done|].
      apply bool_decide_eq_false. intros ->. apply Hne.
      by apply elem_of_singleton. }
    by apply G; [apply X|].
  - intros id H. rewrite sm_active_fire in H.
    assert (id ∈ sm_active w /\ deletes_sm id (d, a) = false) as [H' Hd].
    { destruct a; try (by split).
      change (sm_active w0) with (sm_active w) in H.
      apply elem_of_difference in H as [H Hne]. split; [done|].
      apply bool_decide_eq_false. intros ->. apply Hne.
      by apply elem_of_singleton. }
    by apply G; [apply S|].
  - intros h H. apply (closing_fire a w0 h d) in H as [H Hd].
    by apply G; [apply C|].
  - intros h H. apply (critical_fire a w0 h d) in H as [H Hd].
    by apply G; [apply K|].
  - intros H. destruct (flags_fire a w0) as [Ep _]. rewrite Ep in H.
    destruct a; try discriminate; by apply G; [apply P|].
  - intros H. destruct (flags_fire a w0) as [_ Er]. rewrite Er in H.
    destruct a; try discriminate; by apply G; [apply R|].
Qed.

Lemma expiring_run_timers B1 B2 fuel T w :
  expiring B1 B2 w -> expiring B1 B2 (run_timers fuel T w).
Proof.
  revert w. induction fuel as [|fuel IH]; intros w E; cbn [run_timers]; [done|].
  destruct (next_timer (timers w)) as [[[d a] rest]|] eqn:Hn; [|done].
  destruct (d <=? T); [|done].
  apply IH. by apply (expiring_fire B1 B2 w d a rest).
Qed.

Lemma expiring_mono B1 B2 B1' B2' w :
  B1 <= B1' -> B2 <= B2' -> expiring B1 B2 w -> expiring B1' B2' w.
Proof.
  intros H1 H2 [X S C K P R].
  split; intros; eapply due_by_mono; eauto.
Qed.

(** The invariant: whatever is suppressed in [w] is released within
    1000ms (1500ms for the close markers). *)
Lemma expiring_advance dt w :
  expiring (now w + 1000) (now w + 1500) w ->
  expiring (now (advance dt w) + 1000) (now (advance dt w) + 1500)
    (advance dt w).
Proof.
  intros E. rewrite now_advance. unfold advance. cbv zeta.
  set (T := now w + Z.max 0 dt).
  pose proof (expiring_run_timers _ _ (timer_fuel w) T w E) as [X S C K P R].
  split; intros; eapply due_by_mono; eauto; lia.
Qed.

Lemma expiring_handle_event ev w :
  expiring (now w + 1000) (now w + 1500) w ->
  expiring (now (handle_event ev w) + 1000) (now (handle_event ev w) + 1500)
    (handle_event ev w).
Proof.
  intros E.
  assert (forall w', flag_ok (now w + 1000) (now w + 1500) w w' ->
            expiring (now w' + 1000) (now w' + 1500) w') as G.
  { intros w' F. rewrite (fo_now _ _ _ _ F).
    by apply (flag_ok_expiring _ _ w). }
  assert (forall w', expiring (now w + 1000) (now w + 1500) w' /\
                     now w' = now w ->
            expiring (now w' + 1000) (now w' + 1500) w') as G'.
  { intros w' [E' ->]. done. }
  destruct ev; cbn [handle_event];
    try (destruct (xp_installed w); [|done]).
  - by apply expiring_advance.
  - apply G'. apply expiring_close_click; [done|lia..].
  - apply G'. apply expiring_control_click; [done|lia..].
  - apply G'. apply expiring_control_click; [done|lia..].
  - apply G'. apply expiring_icon_click; [done|lia..].
  - apply G. apply fo_observer; lia.
  - apply G. apply fo_xp_play, flag_ok_refl.
  - apply G. by apply (flag_ok_step _ _ w w); [apply flag_ok_refl|..].
  - apply G. apply fo_playForWindow; [apply flag_ok_refl|lia..].
  - apply G. apply fo_sm_play, flag_ok_refl.
  - apply G. by apply (flag_ok_step _ _ w w); [apply flag_ok_refl|..].
  - apply G. apply fo_upd; [apply flag_ok_refl|kg].
  - apply G. apply fo_upd; [apply flag_ok_refl|kg].
Qed.

Lemma expiring_page B1 B2 installed els throws :
  expiring B1 B2 (page installed els throws).
Proof.
  split.
  - intros id H. by apply elem_of_empty in H.
  - intros id H. by apply elem_of_empty in H.
  - intros h H. unfold closing in H.
    destruct (el_page_flags installed els throws h) as [E _].
    by rewrite E in H.
  - intros h H. unfold critical_played in H.
    destruct (el_page_flags installed els throws h) as [_ E].
    by rewrite E in H.
  - discriminate.
  - discriminate.
Qed.

Lemma expiring_init installed els throws :
  let w := init_world installed els throws in
  expiring (now w + 1000) (now w + 1500) w.
Proof.
  cbv zeta. unfold init_world. destruct installed; [|apply expiring_page].
  apply (flag_ok_expiring _ _ (page true els throws));
    [apply expiring_page|].
  apply (flag_ok_step _ _ _ (page true els throws));
    [apply flag_ok_refl|try done..].
  - intros t Ht. unfold setupWindowsSounds. rewrite timers_add_timer.
    apply elem_of_app. by left.
  - by destruct (same_gate_setup (page true els throws)) as (_ & C & _).
Qed.

Lemma expiring_reachable installed els throws evs :
  let w := run evs (init_world installed els throws) in
  expiring (now w + 1000) (now w + 1500) w.
Proof.
  cbv zeta. unfold run.
  generalize (expiring_init installed els throws). cbv zeta.
  generalize (init_world installed els throws).
  induction evs as [|ev evs IH]; intros w E; cbn [foldl]; [done|].
  apply IH. by apply expiring_handle_event.
Qed.

(** Once nothing is due, nothing is suppressed. *)
Lemma expiring_settled B1 B2 T w :
  expiring B1 B2 w -> none_due T w ->
  (B1 <= T -> open_state w) /\ (B2 <= T -> no_close_marker w).
Proof.
  intros [X S C K P R] ND.
  assert (forall B p, B <= T -> ~ due_by B p w) as No.
  { intros B p HB ((d & a) & Ht & _ & Hb). specialize (ND d a Ht).
    cbn in Hb. lia. }
  split; intros HB.
  - repeat split.
    + apply elem_of_equiv_empty_L. intros id H. by apply (No _ _ HB (X id H)).
    + apply elem_of_equiv_empty_L. intros id H. by apply (No _ _ HB (S id H)).
    + destruct (preventAllSounds w) eqn:E; [|done].
      by destruct (No _ _ HB (P eq_refl)).
    + destruct (recentWindowControlAction w) eqn:E; [|done].
      by destruct (No _ _ HB (R eq_refl)).
  - intros h. split.
    + destruct (closing w h) eqn:E; [|done].
      by destruct (No _ _ HB (C h E)).
    + destruct (critical_played w h) eqn:E; [|done].
      by destruct (No _ _ HB (K h E)).
Qed.

(** X3.  Every suppression of the sound layer expires.  In every state
    the page can reach, 1000ms without further events empty both
    [activeWindows] sets and put [preventAllSounds] and
    [recentWindowControlAction] back to [false]; after 1500ms no window
    carries [closingInProgress] or [criticalSoundPlayed]. *)
Theorem suppression_expires installed els throws evs dt :
  let w := run evs (init_world installed els throws) in
  1000 <= dt ->
  open_state (advance dt w) /\
  (1500 <= dt -> no_close_marker (advance dt w)).
Proof.
  intros w Hdt.
  pose proof (expiring_reachable installed els throws evs) as E.
  cbv zeta in E. fold w in E.
  assert (expiring (now w + 1000) (now w + 1500) (advance dt w)) as E'.
  { unfold advance. cbv zeta.
    pose proof (expiring_run_timers _ _ (timer_fuel w)
                  (now w + Z.max 0 dt) w E) as [X S C K P R].
    by split. }
  pose proof (advance_none_due dt w) as ND. rewrite now_advance in ND.
  destruct (expiring_settled _ _ _ _ E' ND) as [O M].
  split; [apply O; lia|]. intros H. apply M. lia.
Qed.

Lemma suppression_expires_witness :
  let w := run [CloseClick 0%nat; Advance 300; MaximizeClick 1%nat;
                SMPlayForWindow (Some 0%nat) "windowClose" 0.6 1500]
             (init_world true [("a", ["window"], ""); ("b", ["window"], "")]
                never_throws) in
  preventAllSounds w = true /\
  open_state (advance 1000 w) /\
  (1500 <= 1500 -> no_close_marker (advance 1500 w)).
Proof.
  split; [reflexivity|]. split.
  - apply (suppression_expires true
             [("a", ["window"], ""); ("b", ["window"], "")] never_throws
             [CloseClick 0%nat; Advance 300; MaximizeClick 1%nat;
              SMPlayForWindow (Some 0%nat) "windowClose" 0.6 1500] 1000).
    lia.
  - apply (suppression_expires true
             [("a", ["window"], ""); ("b", ["window"], "")] never_throws
             [CloseClick 0%nat; Advance 300; MaximizeClick 1%nat;
              SMPlayForWindow (Some 0%nat) "windowClose" 0.6 1500] 1500).
    lia.
Defined.

(** ** A manager that is switched off *)

Lemma run_timers_fields fuel T w :
  xp_installed (run_timers fuel T w) = xp_installed w /\
  xp_enabled (run_timers fuel T w) = xp_enabled w /\
  sm_enabled (run_timers fuel T w) = sm_enabled w /\
  lastSoundWindow (run_timers fuel T w) = lastSoundWindow w /\
  audio_throws (run_timers fuel T w) = audio_throws w.
Proof.
  revert w. induction fuel as [|fuel IH]; intros w; cbn [run_timers]; [done|].
  destruct (next_timer (timers w)) as [[[d a] rest]|]; [|done].
  destruct (d <=? T); [|done].
  destruct (IH (fire a (set_timers rest (set_now (Z.max (now w) d) w))))
    as (-> & -> & -> & -> & ->).
  by destruct (fire_fields a (set_timers rest (set_now (Z.max (now w) d) w)))
    as (_ & -> & -> & -> & -> & ->).
Qed.

Lemma advance_fields dt w :
  xp_installed (advance dt w) = xp_installed w /\
  xp_enabled (advance dt w) = xp_enabled w /\
  sm_enabled (advance dt w) = sm_enabled w /\
  lastSoundWindow (advance dt w) = lastSoundWindow w /\
  audio_throws (advance dt w) = audio_throws w.
Proof. unfold advance. cbv zeta. apply run_timers_fields. Qed.

Lemma mute_refl o w : mute o w w.
Proof. by intros H. Qed.

Lemma mute_trans o w1 w2 w3 : mute o w1 w2 -> mute o w2 w3 -> mute o w1 w3.
Proof.
  intros M1 M2 H. destruct (M1 H) as [P1 E1]. destruct (M2 E1) as [P2 E2].
  split; [by rewrite P2|done].
Qed.

Lemma mute_same o w w' :
  played w' = played w -> enabled o w' = enabled o w -> mute o w w'.
Proof. intros P E H. by rewrite P, E. Qed.

Lemma by_owner_app o l1 l2 :
  by_owner o (l1 ++ l2)%list = (by_owner o l1 ++ by_owner o l2)%list.
Proof. apply List.filter_app. Qed.

Lemma mute_xp_play o n v w : mute o w (fst (xp_play n v w)).
Proof.
  intros H. rewrite fst_xp_play. destruct (snd (xp_play n v w)) eqn:E;
    [|done].
  destruct o; cbn [enabled] in *.
  - rewrite snd_xp_play, H in E. discriminate.
  - split; [|done]. cbn [played set_played].
    rewrite by_owner_app. cbn. by rewrite app_nil_r.
Qed.

Lemma mute_sm_play o n v w : mute o w (fst (sm_play n v w)).
Proof.
  unfold sm_play.
  destruct (negb (sm_enabled w)) eqn:Es; [apply mute_refl|].
  destruct (xp_installed w && has_sound xp_sounds n); [apply mute_xp_play|].
  destruct (negb (has_sound sm_sounds n)); [apply mute_refl|].
  intros H. rewrite fst_audio_start. destruct (snd _); [|done].
  destruct o; cbn [enabled] in *.
  - split; [|done]. cbn [played set_played].
    rewrite by_owner_app. cbn. by rewrite app_nil_r.
  - by rewrite H in Es.
Qed.

Ltac mu_step :=
  match goal with
  | |- mute _ ?w ?w => apply mute_refl
  | |- mute ?o ?w (fst (xp_play ?n ?v ?x)) =>
      apply (mute_trans o w x); [| apply mute_xp_play]
  | |- mute ?o ?w (fst (sm_play ?n ?v ?x)) =>
      apply (mute_trans o w x); [| apply mute_sm_play]
  | |- mute ?o ?w (upd ?h ?f ?x) =>
      apply (mute_trans o w x); [| by apply mute_same; destruct o]
  | |- mute ?o ?w (add_timer _ _ ?x) =>
      apply (mute_trans o w x); [| by apply mute_same; destruct o]
  | |- mute ?o ?w (xp_addActiveWindow _ ?x) =>
      apply (mute_trans o w x); [| by apply mute_same; destruct o]
  | |- mute ?o ?w (sm_addActiveWindow ?i ?x) =>
      apply (mute_trans o w x);
      [| unfold sm_addActiveWindow; destruct (bool_decide (i = ""));
         by apply mute_same; destruct o]
  | |- mute ?o ?w (set_lastSoundWindow _ ?x) =>
      apply (mute_trans o w x); [| by apply mute_same; destruct o]
  | |- mute ?o ?w (set_recent _ ?x) =>
      apply (mute_trans o w x); [| by apply mute_same; destruct o]
  | |- mute ?o ?w (set_prevent _ ?x) =>
      apply (mute_trans o w x); [| by apply mute_same; destruct o]
  | |- mute _ _ (if ?b then _ else _) => destruct b
  | |- mute _ _ (fst (if ?b then _ else _)) => destruct b
  | |- mute _ _ (fst (_, _)) => cbn [fst]
  end.

Ltac mu := repeat mu_step.

Lemma mute_forget_initial o h w : mute o w (forget_initial h w).
Proof. unfold forget_initial. mu. Qed.

Lemma mute_xp_play_and_mark o h n v d w :
  mute o w (fst (xp_play_and_mark h n v d w)).
Proof.
  unfold xp_play_and_mark. cbv zeta.
  pose proof (mute_xp_play o n v w) as P.
  destruct (xp_play n v w) as [w2 r]. cbn [fst] in P.
  destruct (_ && _); cbn [fst]; [apply mute_refl|].
  apply (mute_trans _ _ _ _ P). mu.
Qed.

Lemma mute_sm_play_and_mark o h n v d w :
  mute o w (fst (sm_play_and_mark h n v d w)).
Proof.
  unfold sm_play_and_mark. cbv zeta.
  pose proof (mute_sm_play o n v w) as P.
  destruct (sm_play n v w) as [w2 r]. cbn [fst] in P.
  destruct (_ && _); cbn [fst]; [apply mute_refl|].
  apply (mute_trans _ _ _ _ P). mu.
Qed.

Lemma mute_playSoundForWindow o h n v d w :
  mute o w (fst (playSoundForWindow h n v d w)).
Proof.
  unfold playSoundForWindow.
  destruct (bool_decide (n = "critical")); cbn [negb];
    [|apply mute_xp_play_and_mark].
  unfold xp_critical_gate. cbv zeta.
  destruct (is_true_attr (ds_closingInProgress _)); cbn [negb fst];
    [apply mute_forget_initial|].
  eapply mute_trans; [|apply mute_xp_play_and_mark].
  eapply mute_trans; [apply (mute_forget_initial o h)|]. mu.
Qed.

Lemma mute_playForWindow o oh n v d w :
  mute o w (fst (playForWindow oh n v d w)).
Proof.
  destruct oh as [h|]; cbn [playForWindow]; [|apply mute_sm_play].
  destruct (is_close_name n); cbn [negb];
    [|apply mute_sm_play_and_mark].
  unfold sm_close_gate. cbv zeta.
  destruct (is_true_attr (ds_closingInProgress _)); cbn [negb fst];
    [apply mute_forget_initial|].
  destruct (_ && _); cbn [negb fst]; [apply mute_forget_initial|].
  eapply mute_trans; [|apply mute_sm_play_and_mark].
  eapply mute_trans; [apply (mute_forget_initial o h)|]. mu.
Qed.

Lemma mute_observe_one o h w : mute o w (observe_one h w).
Proof.
  unfold observe_one. cbv zeta. repeat (case_match; try apply mute_refl).
  - mu.
  - apply mute_playSoundForWindow.
Qed.

Lemma mute_observer o ms w : mute o w (observer ms w).
Proof.
  unfold observer. case_match; [apply mute_refl|].
  assert (forall x, mute o w x ->
            mute o w (foldl (fun w h => observe_one h w) x ms)) as G.
  { induction ms as [|h ms IH]; intros x F; cbn [foldl]; [done|].
    apply IH. eapply mute_trans; [exact F|apply mute_observe_one]. }
  apply G, mute_refl.
Qed.

Lemma mute_then o w x y :
  mute o w x -> played y = played x -> enabled o y = enabled o x ->
  mute o w y.
Proof. intros M P E. apply (mute_trans o w x y M). by apply mute_same. Qed.

Lemma mute_then_playSoundForWindow o w x h n v d :
  mute o w x -> mute o w (fst (playSoundForWindow h n v d x)).
Proof.
  intros M. apply (mute_trans o w x _ M), mute_playSoundForWindow.
Qed.

Lemma mute_close_click o h w : mute o w (close_click h w).
Proof.
  unfold close_click. cbv zeta.
  set (w1 := if is_true_attr (ds_initialWindow (el w h)) then _ else w).
  assert (mute o w w1) as M1 by (unfold w1; mu).
  set (w3 := fst (playSoundForWindow _ _ _ _ _)).
  assert (mute o w w3) as M3.
  { apply mute_then_playSoundForWindow.
    apply (mute_then o w w1); [done|done|by destruct o]. }
  apply (mute_then o w w3); [done|done|by destruct o].
Qed.

Lemma mute_control_click o n h w : mute o w (control_click n h w).
Proof.
  unfold control_click. cbv zeta.
  set (w3 := fst (playSoundForWindow _ _ _ _ _)).
  assert (mute o w w3) as M3.
  { apply mute_then_playSoundForWindow.
    apply (mute_then o w w); [apply mute_refl|done|by destruct o]. }
  apply (mute_then o w w3); [done|done|by destruct o].
Qed.

Lemma mute_icon_click o t n w : mute o w (icon_click t n w).
Proof.
  unfold icon_click. cbv zeta.
  set (w1 := set_recent true w).
  assert (mute o w w1) as M1.
  { apply (mute_then o w w); [apply mute_refl|done|by destruct o]. }
  set (w3 := match t with Some h => _ | None => _ end).
  assert (mute o w w3) as M3.
  { unfold w3. destruct t as [h|].
    - apply mute_then_playSoundForWindow.
      destruct (is_true_attr _); [|done].
      apply (mute_then o w w1); [done|done|by destruct o].
    - apply (mute_trans o w w1 _ M1), mute_xp_play. }
  apply (mute_then o w w3); [done|done|by destruct o].
Qed.

Lemma mute_handle_event o ev w :
  enables o ev = false -> mute o w (handle_event ev w).
Proof.
  intros He.
  destruct ev; cbn [handle_event];
    try (destruct (xp_installed w); [|apply mute_refl]).
  - apply mute_same; [apply played_advance|].
    destruct (advance_fields dt w) as (_ & E1 & E2 & _). by destruct o.
  - apply mute_close_click.
  - apply mute_control_click.
  - apply mute_control_click.
  - apply mute_icon_click.
  - apply mute_observer.
  - apply mute_xp_play.
  - intros H. destruct o, b; try discriminate; by split.
  - apply mute_playForWindow.
  - apply mute_sm_play.
  - intros H. destruct o, b; try discriminate; by split.
  - by apply mute_same; destruct o.
  - by apply mute_same; destruct o.
Qed.

(** X4.  A manager that is switched off stays silent: from a state in
    which [enabled] is [false] for [window.soundManager] (or for the
    [SoundManager] instance), no sequence of clicks, mutations, direct
    [play] / [playForWindow] calls and timer callbacks that does not call
    its [setEnabled(true)] starts any of that manager's [Audio]
    elements. *)
Theorem disabled_manager_stays_silent o evs w :
  enabled o w = false ->
  forallb (fun ev => negb (enables o ev)) evs = true ->
  by_owner o (played (run evs w)) = by_owner o (played w) /\
  enabled o (run evs w) = false.
Proof.
  unfold run. revert w.
  induction evs as [|ev evs IH]; intros w H Hall; cbn [foldl]; [done|].
  cbn [forallb] in Hall. apply andb_true_iff in Hall as [He Hall].
  apply negb_true_iff in He.
  destruct (mute_handle_event o ev w He H) as [P E].
  destruct (IH _ E Hall) as [P' E']. split; [by rewrite P'|done].
Qed.

Lemma disabled_manager_stays_silent_witness :
  let w := run [XPSetEnabled false]
             (init_world true [("a", ["window"], "")] never_throws) in
  let evs := [CloseClick 0%nat; Advance 4000; Observer [0%nat];
              SMPlay "notify" 0.5; SMPlay "windowClose" 0.5;
              XPPlay "tada" 0.6] in
  by_owner XP (played (run evs w)) = by_owner XP (played w) /\
  enabled XP (run evs w) = false.
Proof.
  apply (disabled_manager_stays_silent XP); reflexivity.
Defined.

(** ** The window that sounded last *)

Lemma observe_one_last h w :
  lastSoundWindow w = Some (el_id (el w h)) -> observe_one h w = w.
Proof.
  intros H. unfold observe_one. cbv zeta.
  destruct (preventAllSounds w); [done|].
  by rewrite (bool_decide_eq_true_2 _ H).
Qed.

Lemma observer_last id ms w0 w :
  same_ids w0 w -> lastSoundWindow w = Some id ->
  forallb (fun h => bool_decide (el_id (el w0 h) = id)) ms = true ->
  observer ms w = w.
Proof.
  intros I H Hall. unfold observer.
  destruct (_ || _); [done|].
  induction ms as [|h ms IH]; cbn [foldl]; [done|].
  cbn [forallb] in Hall. apply andb_true_iff in Hall as [Hh Hall].
  apply bool_decide_eq_true in Hh.
  rewrite observe_one_last by (by rewrite I, Hh). by apply IH.
Qed.

(** X5.  The window observer never sounds for the window that sounded
    last: [lastSoundWindow] is only ever reassigned by a later request for
    a window, so while time passes, attributes change and mutation records
    for elements with that id arrive, nothing is played and
    [lastSoundWindow] stays, however long ago the sound was. *)
Theorem observer_skips_last_window id evs w :
  lastSoundWindow w = Some id ->
  forallb (calm id w) evs = true ->
  played (run evs w) = played w /\ lastSoundWindow (run evs w) = Some id.
Proof.
  intros HL Hall.
  assert (forall w',
            played w' = played w /\ lastSoundWindow w' = Some id /\
            same_ids w w' ->
            played (run evs w') = played w /\
            lastSoundWindow (run evs w') = Some id) as G.
  { unfold run. induction evs as [|ev evs IH]; intros w' (P & L & I);
      cbn [foldl]; [done|].
    cbn [forallb] in Hall. apply andb_true_iff in Hall as [Hev Hall].
    apply (IH Hall).
    destruct ev; try discriminate; cbn [handle_event calm] in *.
    - rewrite played_advance.
      destruct (advance_fields dt w') as (_ & _ & _ & -> & _).
      repeat split; [done..|].
      intros h. by rewrite el_id_advance.
    - assert ((if xp_installed w' then observer ms w' else w') = w') as E.
      { destruct (xp_installed w'); [|done].
        by apply (observer_last id ms w). }
      rewrite E. by repeat split.
    - repeat split; [done..|].
      intros h'. by rewrite (el_upd_keep el_id).
    - repeat split; [done..|].
      intros h'. by rewrite (el_upd_keep el_id). }
  apply G. split; [done|]. split; [done|apply same_ids_refl].
Qed.

Lemma observer_skips_last_window_witness :
  let w := run [MaximizeClick 0%nat]
             (init_world true [("wmp-window", ["window"], "")]
                never_throws) in
  let evs := [Advance 60000; DomSetDisplay 0%nat "none";
              DomSetDisplay 0%nat "block"; Observer [0%nat; 0%nat]] in
  played (run evs w) = played w /\
  lastSoundWindow (run evs w) = Some "wmp-window".
Proof.
  apply (observer_skips_last_window "wmp-window"); reflexivity.
Defined.

(** ** One notify per batch; the close click is always heard *)

Lemma has_class_in_range c h w :
  has_class c (el w h) = true -> (h < length (dom w))%nat.
Proof.
  intros H. destruct (decide (h < length (dom w))%nat) as [|Hge]; [done|].
  unfold el in H. rewrite lookup_ge_None_2 in H by lia.
  unfold has_class in H. cbn in H. apply bool_decide_eq_true in H.
  by apply elem_of_nil in H.
Qed.

Lemma xp_play_plays n v w :
  xp_enabled w = true -> preventAllSounds w = false ->
  has_sound xp_sounds n = true -> audio_throws w XP n v = false ->
  xp_play n v w = (set_played (played w ++ [(XP, n, v)]) w, true).
Proof.
  intros He Hp Hs Ht.
  assert (snd (xp_play n v w) = true) as S
    by (by rewrite snd_xp_play, He, Hp, Hs, Ht).
  pose proof (fst_xp_play n v w) as F. rewrite S in F.
  destruct (xp_play n v w) as [w' r]. cbn in S, F. by subst.
Qed.

(** X6.  One batch of mutation records yields one notify.  When a window
    that is on screen, carries no marker and is under no suppression is
    reported to the observer, the notify sound is played once, however
    many records of the batch name that window. *)
Theorem observer_notifies_once h n w :
  visible_window (el w h) = true ->
  attr_truthy (ds_soundPlayed (el w h)) = false ->
  is_true_attr (ds_initialWindow (el w h)) = false ->
  preventAllSounds w = false -> recentWindowControlAction w = false ->
  lastSoundWindow w <> Some (el_id (el w h)) ->
  xp_isWindowActive (el_id (el w h)) w = false ->
  xp_enabled w = true -> audio_throws w XP "notify" 0.6%Q = false ->
  played (observer (replicate (S n) h) w)
  = (played w ++ [(XP, "notify", 0.6%Q)])%list.
Proof.
  intros Hv Hs Hi Hp Hr Hl Ha He Ht.
  assert (h < length (dom w))%nat as Hh.
  { unfold visible_window in Hv.
    apply andb_true_iff in Hv as [Hv _]. apply andb_true_iff in Hv as [Hv _].
    by apply (has_class_in_range "window"). }
  set (id := el_id (el w h)) in *.
  set (w' := fst (playSoundForWindow h "notify" 0.6 800 w)).
  assert (observe_one h w = w') as E1.
  { unfold observe_one. cbv zeta. fold id.
    rewrite Hp, (bool_decide_eq_false_2 _ Hl), Ha, andb_false_r.
    unfold visible_window in Hv. rewrite Hv, Hs, Hi. reflexivity. }
  assert (w' = add_timer 800 (TClearSoundPlayed h)
                 (upd h (set_soundPlayed "true")
                    (if negb (bool_decide (id = ""))
                     then set_lastSoundWindow (Some id)
                            (xp_addActiveWindow id
                               (set_played
                                  (played w ++ [(XP, "notify", 0.6%Q)]) w))
                     else set_played
                            (played w ++ [(XP, "notify", 0.6%Q)]) w)))
    as E2.
  { unfold w', playSoundForWindow.
    replace (bool_decide ("notify" = "critical")) with false by reflexivity.
    cbn [negb]. unfold xp_play_and_mark. cbv zeta. fold id.
    rewrite Ha, andb_false_r. cbn [andb].
    by rewrite (xp_play_plays "notify" 0.6 w He Hp eq_refl Ht). }
  assert (observe_one h w' = w') as E3.
  { assert (el w' h = set_soundPlayed "true" (el w h)) as Ee.
    { rewrite E2. change (el (add_timer ?a ?b ?x) h) with (el x h).
      rewrite el_upd_eq; [by destruct (negb _)|by destruct (negb _)]. }
    assert (preventAllSounds w' = false) as Ep.
    { rewrite E2. by destruct (negb _). }
    unfold observe_one. cbv zeta. rewrite Ep, Ee.
    change (el_id (set_soundPlayed "true" (el w h))) with id.
    destruct (decide (id = "")) as [Hid|Hid].
    - assert (lastSoundWindow w' = lastSoundWindow w) as El.
      { rewrite E2. by rewrite (bool_decide_eq_true_2 _ Hid). }
      rewrite El, (bool_decide_eq_false_2 _ Hl).
      rewrite (bool_decide_eq_true_2 _ Hid). cbn [negb andb].
      change (attr_truthy (ds_soundPlayed (set_soundPlayed "true" (el w h))))
        with true.
      by rewrite andb_false_r.
    - assert (lastSoundWindow w' = Some id) as El.
      { rewrite E2. by rewrite (bool_decide_eq_false_2 _ Hid). }
      by rewrite (bool_decide_eq_true_2 _ El). }
  unfold observer. rewrite Hr, Hp. cbn [orb replicate foldl]. rewrite E1.
  assert (forall k, foldl (fun w h => observe_one h w) w' (replicate k h) = w')
    as G.
  { induction k as [|k IH]; cbn [replicate foldl]; [done|]. by rewrite E3. }
  rewrite G, E2. by destruct (negb _).
Qed.

Lemma observer_notifies_once_witness :
  let w := advance 5000
             (init_world true [("wmp-window", ["window"], "")]
                never_throws) in
  played (observer (replicate 3 0%nat) w)
  = (played w ++ [(XP, "notify", 0.6%Q)])%list.
Proof.
  apply (observer_notifies_once 0%nat 2); try reflexivity. discriminate.
Defined.

(** X7.  The close button is always heard.  Its handler raises
    [preventAllSounds] before it asks for the sound, and the window may be
    marked as initial, as active or as the one that sounded last: with
    sounds on, a window that is not already closing and an [Audio] element
    that starts, the click plays ['critical'] at volume 0.6 exactly once
    and leaves both global flags raised. *)
Theorem close_click_always_sounds h w :
  xp_enabled w = true -> closing w h = false ->
  audio_throws w XP "critical" 0.6%Q = false ->
  played (close_click h w) = (played w ++ [(XP, "critical", 0.6%Q)])%list /\
  preventAllSounds (close_click h w) = true /\
  recentWindowControlAction (close_click h w) = true.
Proof.
  intros He Hc Ht. unfold close_click. cbv zeta.
  set (w1 := if is_true_attr (ds_initialWindow (el w h)) then _ else w).
  set (w2 := set_prevent true (set_recent true w1)).
  assert (same_gate w w2 /\ same_env w w1 /\ played w1 = played w)
    as (G2 & E1 & P1).
  { unfold w2, w1. destruct (is_true_attr _).
    - split; [|split; [apply env_upd|done]].
      apply (same_gate_trans _ (upd h (fun e => set_soundPlayed ""
                                           (set_initialWindow "" e)) w));
        [|by repeat split].
      apply same_gate_upd. kg.
    - split; [by repeat split|]. split; [apply same_env_refl|done]. }
  destruct E1 as (_ & _ & Ee & _ & _ & _ & Ea).
  assert (closing (forget_initial h w2) h = false) as Hc2.
  { destruct (same_gate_forget_initial h w2) as (_ & F & _).
    destruct (F h) as [-> _]. destruct G2 as (_ & F2 & _).
    destruct (F2 h) as [-> _]. done. }
  unfold playSoundForWindow.
  replace (bool_decide ("critical" = "critical")) with true by reflexivity.
  unfold xp_critical_gate. cbv zeta. unfold closing in Hc2. rewrite Hc2.
  cbn [negb].
  set (wg := add_timer 1500 _ _).
  assert (xp_enabled wg = true /\ audio_throws wg = audio_throws w /\
          played wg = played w) as (Eg & Ag & Pg).
  { destruct (env_forget_initial h w2) as (_ & E3 & _ & A3 & _).
    unfold wg. cbn. rewrite E3, A3, played_forget_initial.
    unfold w2. cbn. by rewrite Ee, Ea, P1. }
  destruct (xp_tail_critical h 0.6 2000 wg Eg) as (_ & P & _);
    [by rewrite Ag|].
  pose proof (env_xp_play_and_mark h "critical" 0.6 2000 wg)
    as (_ & _ & _ & _ & Ep & Er & _).
  split; [|split].
  - change (played (add_timer ?a ?b ?x)) with (played x). by rewrite P, Pg.
  - change (preventAllSounds (add_timer ?a ?b ?x)) with (preventAllSounds x).
    rewrite Ep. unfold wg. cbn.
    by destruct (env_forget_initial h w2) as (_ & _ & _ & _ & ->).
  - change (recentWindowControlAction (add_timer ?a ?b ?x))
      with (recentWindowControlAction x).
    rewrite Er. unfold wg. cbn.
    destruct (env_forget_initial' h w2) as (_ & _ & _ & _ & _ & -> & _).
    done.
Qed.

Lemma close_click_always_sounds_witness :
  let w := run [MaximizeClick 0%nat; CloseClick 1%nat]
             (init_world true [("a", ["window"], ""); ("b", ["window"], "")]
                never_throws) in
  preventAllSounds w = true /\ xp_isWindowActive "a" w = true /\
  played (close_click 0%nat w) = (played w ++ [(XP, "critical", 0.6%Q)])%list /\
  preventAllSounds (close_click 0%nat w) = true /\
  recentWindowControlAction (close_click 0%nat w) = true.
Proof.
  split; [reflexivity|]. split; [reflexivity|].
  apply (close_click_always_sounds 0%nat); reflexivity.
Defined.

End ExpiryFacts.

(* ===================================================================== *)
(** * Part XII: properties of the event system                           *)
(* ===================================================================== *)

Module EventsFacts.
Import Viz Events.

Lemma foldl_guarded_call name data arr e :
  foldl (guarded_call name data) e arr
  = set_calls (calls e ++ map (fun cb => (cb, name, data)) arr) e.
Proof.
  revert e. induction arr as [|cb arr IH]; intros e; cbn [foldl map].
  - rewrite app_nil_r. by destruct e.
  - rewrite IH. unfold guarded_call, call. cbv zeta.
    destruct (throwing e cb); cbn; by rewrite <- app_assoc.
Qed.

(** X8.  [dispatchEvent] (both classes): on a name that has listeners
    every registered callback is called once, in registration order, with
    the event's type and data; a callback that throws does not keep the
    later ones from running, nothing propagates to the caller, the result
    is [true] and the listener table is unchanged. *)
Theorem dispatch_reaches_every_listener name arg arr e :
  inherited name = false ->
  eventListeners e !! name = Some arr ->
  dispatchEvent name arg e
  = Returned true
      (set_calls
         (calls e ++ map (fun cb => (cb, name, default_data arg)) arr) e).
Proof.
  intros Hi Ha. unfold dispatchEvent. cbv zeta. rewrite Hi, Ha.
  by rewrite foldl_guarded_call.
Qed.

Lemma dispatch_reaches_every_listener_witness :
  let e := run_ops [Add "playback-update" 7%nat; Add "playback-update" 3%nat;
                    Add "initialized" 5%nat]
             (new_emitter (fun cb => bool_decide (cb = 7%nat))) in
  dispatchEvent "playback-update" (JObj [("isPlaying", JBool true)]) e
  = Returned true
      (set_calls
         (calls e ++
          map (fun cb => (cb, "playback-update",
                          default_data (JObj [("isPlaying", JBool true)])))
              [7%nat; 3%nat]) e).
Proof.
  apply (dispatch_reaches_every_listener "playback-update"); reflexivity.
Defined.

Lemma listeners_of_add name cb n e :
  inherited name = false ->
  listeners_of n (emitter_of (addEventListener name cb e))
  = if bool_decide (n = name) then (listeners_of n e ++ [cb])%list
    else listeners_of n e.
Proof.
  intros Hi. unfold addEventListener, listeners_of. rewrite Hi. cbn.
  case_bool_decide as E.
  - subst. by rewrite lookup_insert_eq.
  - by rewrite lookup_insert_ne.
Qed.

Lemma listeners_of_remove name cb n e :
  inherited name = false ->
  listeners_of n (emitter_of (removeEventListener name cb e))
  = if bool_decide (n = name)
    then List.filter (fun l => negb (l =? cb)%nat) (listeners_of n e)
    else listeners_of n e.
Proof.
  intros Hi. unfold removeEventListener, listeners_of. rewrite Hi.
  destruct (eventListeners e !! name) as [arr|] eqn:Ea; cbn.
  - case_bool_decide as E.
    + subst. by rewrite lookup_insert_eq, Ea.
    + by rewrite lookup_insert_ne.
  - case_bool_decide as E; [|done]. subst. by rewrite Ea.
Qed.

Lemma calls_dispatch name arg e :
  inherited name = false ->
  calls (emitter_of (dispatchEvent name arg e))
  = (calls e ++ map (fun l => (l, name, default_data arg))
                    (listeners_of name e))%list.
Proof.
  intros Hi. unfold dispatchEvent, listeners_of. cbv zeta. rewrite Hi.
  fold (default_data arg).
  destruct (eventListeners e !! name) as [arr|]; cbn.
  - by rewrite foldl_guarded_call.
  - by rewrite app_nil_r.
Qed.

(** X9.  [removeEventListener] removes every registration of the callback
    under that name (a callback added twice is called twice per event, and
    one removal ends both), keeps the other callbacks in their order and
    leaves every other event name alone; afterwards a dispatch under the
    name no longer calls it. *)
Theorem remove_drops_every_registration name cb n arg e :
  let e' := emitter_of (removeEventListener name cb e) in
  inherited name = false ->
  listeners_of n e'
  = (if bool_decide (n = name)
     then List.filter (fun l => negb (l =? cb)%nat) (listeners_of n e)
     else listeners_of n e) /\
  (cb ∉ listeners_of name e') /\
  calls (emitter_of (dispatchEvent name arg e'))
  = (calls e ++
     map (fun l => (l, name, default_data arg))
         (List.filter (fun l => negb (l =? cb)%nat) (listeners_of name e)))%list /\
  (forall k,
     listeners_of name
       (emitter_of (removeEventListener name cb
          (Nat.iter k (fun x => emitter_of (addEventListener name cb x)) e)))
     = List.filter (fun l => negb (l =? cb)%nat) (listeners_of name e)).
Proof.
  intros e' Hi.
  assert (forall x, listeners_of name (emitter_of (removeEventListener name cb x))
                    = List.filter (fun l => negb (l =? cb)%nat)
                        (listeners_of name x)) as R.
  { intros x. rewrite listeners_of_remove by done.
    by rewrite bool_decide_eq_true_2. }
  split; [by apply listeners_of_remove|]. split; [|split].
  - unfold e'. rewrite R. intros H.
    apply list_elem_of_In, List.filter_In in H as [_ H].
    by rewrite Nat.eqb_refl in H.
  - assert (calls e' = calls e) as Ec.
    { unfold e', removeEventListener. rewrite Hi.
      by destruct (eventListeners e !! name). }
    rewrite calls_dispatch by done. unfold e' at 2. by rewrite R, Ec.
  - intros k. rewrite R.
    induction k as [|k IH]; [done|]. rewrite Nat.iter_succ.
    rewrite listeners_of_add, bool_decide_eq_true_2 by done.
    rewrite List.filter_app, IH. cbn. rewrite Nat.eqb_refl. cbn.
    by rewrite app_nil_r.
Qed.

Lemma remove_drops_every_registration_witness :
  let e := run_ops [Add "playback-update" 7%nat; Add "playback-update" 3%nat;
                    Add "playback-update" 7%nat]
             (new_emitter (fun _ => false)) in
  listeners_of "playback-update" e = [7%nat; 3%nat; 7%nat] /\
  listeners_of "playback-update"
    (emitter_of (removeEventListener "playback-update" 7%nat e)) = [3%nat].
Proof.
  split; [reflexivity|].
  destruct (remove_drops_every_registration "playback-update" 7%nat
              "playback-update" JUndefined
              (run_ops [Add "playback-update" 7%nat;
                        Add "playback-update" 3%nat;
                        Add "playback-update" 7%nat]
                 (new_emitter (fun _ => false))) eq_refl) as [H _].
  exact H.
Defined.

Lemma own_do_op name o e :
  inherited name = false ->
  bool_decide (is_Some (eventListeners (do_op e o) !! name))
  = adds name o || bool_decide (is_Some (eventListeners e !! name)).
Proof.
  intros Hi. destruct o as [n cb|n cb|n d]; cbn [do_op adds].
  - unfold addEventListener.
    destruct (inherited n) eqn:Hn; cbn.
    + rewrite (bool_decide_eq_false_2 (n = name)); [reflexivity|].
      intros ->. by rewrite Hi in Hn.
    + destruct (decide (n = name)) as [->|Hne].
      * rewrite lookup_insert_eq, (bool_decide_eq_true_2 (name = name)) by done.
        by rewrite bool_decide_eq_true_2.
      * rewrite lookup_insert_ne by done.
        by rewrite (bool_decide_eq_false_2 (n = name)).
  - unfold removeEventListener.
    destruct (inherited n); [done|].
    destruct (eventListeners e !! n) as [arr|] eqn:Ea; [|done]. cbn.
    destruct (decide (n = name)) as [->|Hne].
    + rewrite lookup_insert_eq, Ea. by rewrite !bool_decide_eq_true_2.
    + by rewrite lookup_insert_ne.
  - unfold dispatchEvent. cbv zeta.
    destruct (inherited n); [done|].
    destruct (eventListeners e !! n) as [arr|]; [|done]. cbn.
    by rewrite foldl_guarded_call.
Qed.

(** X10.  What [dispatchEvent] returns tells whether a listener was ever
    added under the name, not whether one is registered now: the array
    created by the first [addEventListener] stays when its last callback is
    removed, and an empty array is truthy.  After any history of calls on a
    new object the result is [true] exactly when the history has an
    [addEventListener] for the name. *)
Theorem dispatch_result_tells_ever_added name arg ops throws :
  inherited name = false ->
  exists e',
    dispatchEvent name arg (run_ops ops (new_emitter throws))
    = Returned (existsb (adds name) ops) e'.
Proof.
  intros Hi.
  assert (forall e,
            bool_decide (is_Some (eventListeners (run_ops ops e) !! name))
            = existsb (adds name) ops
              || bool_decide (is_Some (eventListeners e !! name))) as G.
  { unfold run_ops. induction ops as [|o ops IH]; intros e; cbn [foldl existsb];
      [done|].
    rewrite IH, own_do_op by done.
    by destruct (adds name o), (existsb (adds name) ops). }
  specialize (G (new_emitter throws)).
  change (eventListeners (new_emitter throws)) with (∅ : gmap string (list nat))
    in G.
  rewrite lookup_empty in G.
  rewrite (bool_decide_eq_false_2 (is_Some None)) in G
    by (intros [? ?]; discriminate).
  rewrite orb_false_r in G.
  unfold dispatchEvent. cbv zeta. rewrite Hi.
  destruct (eventListeners (run_ops ops (new_emitter throws)) !! name)
    as [arr|] eqn:Ea.
  - rewrite bool_decide_eq_true_2 in G by eauto. rewrite <- G. eauto.
  - rewrite bool_decide_eq_false_2 in G by (intros [? ?]; discriminate).
    rewrite <- G. eauto.
Qed.

Lemma dispatch_result_tells_ever_added_witness :
  let ops := [Add "initialized" 1%nat; Remove "initialized" 1%nat] in
  listeners_of "initialized" (run_ops ops (new_emitter (fun _ => false))) = [] /\
  exists e',
    dispatchEvent "initialized" JUndefined
      (run_ops ops (new_emitter (fun _ => false)))
    = Returned (existsb (adds "initialized") ops) e'.
Proof.
  split; [reflexivity|].
  apply (dispatch_result_tells_ever_added "initialized"). reflexivity.
Defined.

End EventsFacts.

(* ===================================================================== *)
(** * Part XIII: properties of the page controls                         *)
(* ===================================================================== *)

Module ControlsFacts.
Import Viz VizFacts Controls.

(** ** The style button *)

Lemma updateVisualizationStyle_state n v :
  exists v',
    updateVisualizationStyle n v = Ok tt v' /\
    visualizationIntensity v' = style_intensity n /\
    isPlaying v' = isPlaying v /\ modalVisualizer v' = modalVisualizer v /\
    broken (localStorage v') = broken (localStorage v) /\
    (broken (localStorage v) = false ->
     items (localStorage v') !! "wmp_viz_style" = Some (toString n)).
Proof.
  unfold updateVisualizationStyle, bind, modify, try_catch, setItem, ret.
  cbn. destruct (material v); cbn;
    destruct (broken (localStorage v)) eqn:B; cbn; rewrite ?B;
    eexists; repeat split; try done; intros _; apply lookup_insert_eq.
Qed.

Lemma viz_click_state b v :
  0 <= vizStyle b ->
  let s := (vizStyle b + 1) mod 3 in
  vizStyle (fst (viz_click b v)) = s /\
  textContent (fst (viz_click b v)) = "Visual: " ++ name_at modeNames s /\
  visualizationIntensity (snd (viz_click b v)) = style_intensity s /\
  broken (localStorage (snd (viz_click b v))) = broken (localStorage v) /\
  (broken (localStorage v) = false ->
   items (localStorage (snd (viz_click b v))) !! "wmp_viz_style"
   = Some (toString s)).
Proof.
  intros Hb. cbv zeta. unfold viz_click. cbv zeta.
  rewrite Z.rem_mod_nonneg by lia.
  destruct (updateVisualizationStyle_state ((vizStyle b + 1) mod 3) v)
    as (v' & -> & Hi & _ & _ & Hbr & Hs).
  by cbn.
Qed.

(** X11.  The style button cycles Medium, High, Low.  Its counter starts
    at 0 when the controls are set up, whatever style the page restored, so
    after [n >= 1] clicks the style is [n mod 3]: the multiplier is
    [intensities[n mod 3]], the button reads the matching name, and where
    [localStorage] works the style is stored and is the one a reload
    restores. *)
Theorem viz_button_cycles n b v :
  0 <= vizStyle b -> (0 < n)%nat ->
  let s := (vizStyle b + Z.of_nat n) mod 3 in
  let b' := fst (viz_clicks n b v) in
  let v' := snd (viz_clicks n b v) in
  vizStyle b' = s /\
  textContent b' = "Visual: " ++ name_at modeNames s /\
  visualizationIntensity v' = style_intensity s /\
  known_multiplier (visualizationIntensity v') /\
  (broken (localStorage v) = false ->
   items (localStorage v') !! "wmp_viz_style" = Some (toString s) /\
   restored_style (localStorage v') = visualizationIntensity v').
Proof.
  intros Hb Hn. cbv zeta.
  assert (forall k b v, 0 <= vizStyle b ->
            let s := (vizStyle b + Z.of_nat (S k)) mod 3 in
            let r := viz_clicks (S k) b v in
            vizStyle (fst r) = s /\
            textContent (fst r) = "Visual: " ++ name_at modeNames s /\
            visualizationIntensity (snd r) = style_intensity s /\
            broken (localStorage (snd r)) = broken (localStorage v) /\
            (broken (localStorage v) = false ->
             items (localStorage (snd r)) !! "wmp_viz_style"
             = Some (toString s))) as G.
  { clear. induction k as [|k IH]; intros b v Hb; cbv zeta.
    - cbn [viz_clicks]. destruct (viz_click b v) as [b1 v1] eqn:E.
      pose proof (viz_click_state b v Hb) as H. rewrite E in H. exact H.
    - cbn [viz_clicks]. destruct (viz_click b v) as [b1 v1] eqn:E.
      pose proof (viz_click_state b v Hb) as (H1 & _ & _ & H4 & _).
      rewrite E in H1, H4. cbn [fst snd] in H1, H4.
      assert (0 <= vizStyle b1) as Hb1.
      { rewrite H1. apply Z.mod_pos_bound. lia. }
      specialize (IH b1 v1 Hb1). cbv zeta in IH. cbn [viz_clicks] in IH.
      replace ((vizStyle b + Z.of_nat (S (S k))) mod 3)
        with ((vizStyle b1 + Z.of_nat (S k)) mod 3).
      + destruct IH as (I1 & I2 & I3 & I4 & I5).
        repeat split; try done; [by rewrite I4|].
        intros B. apply I5. by rewrite H4.
      + rewrite H1, Zplus_mod_idemp_l. f_equal. lia. }
  destruct n as [|k]; [lia|].
  destruct (G k b v Hb) as (G1 & G2 & G3 & G4 & G5). cbv zeta in *.
  set (s := (vizStyle b + Z.of_nat (S k)) mod 3) in *.
  assert (0 <= s <= 2) as Hs.
  { pose proof (Z.mod_pos_bound (vizStyle b + Z.of_nat (S k)) 3). lia. }
  split; [done|]. split; [done|]. split; [done|]. split.
  - rewrite G3. by apply style_intensity_valid.
  - intros B. split; [by apply G5|].
    unfold restored_style. rewrite G4, B, (G5 B).
    rewrite parseInt_toString by lia. cbn [default].
    rewrite G3.
    assert (in_range 0 2 (Some s) = true) as ->; [|done].
    unfold in_range. apply andb_true_iff. split; apply Z.leb_le; lia.
Qed.

Lemma viz_button_cycles_witness :
  let v := state_of (on_load (mkStorage {[ "wmp_viz_style" := "2" ]} false) []) in
  let b := new_button "Visual: High" in
  visualizationIntensity v = Some 1.2%R /\
  visualizationIntensity (snd (viz_clicks 1 b v)) = style_intensity 1 /\
  textContent (fst (viz_clicks 1 b v)) = "Visual: Medium".
Proof.
  split; [reflexivity|].
  destruct (viz_button_cycles 1
              (new_button "Visual: High")
              (state_of (on_load
                           (mkStorage {[ "wmp_viz_style" := "2" ]} false) [])))
    as (_ & H2 & H3 & _); [reflexivity|lia|].
  split; [exact H3|exact H2].
Defined.

(** ** The legacy interaction fallback *)

Lemma interactions_pending gaps p :
  spotifyController (viz p) = None ->
  forallb (fun g => (0 <=? g) && (g <? 300)) gaps = true ->
  let p0 := handleIframeInteraction p in
  let p1 := interactions gaps p0 in
  viz p1 = viz p /\ posted p1 = posted p /\
  playbackToggleTimeout p1 = Some (clock p1 + 300) /\
  lastInteractionTime p1 = clock p1 /\
  clock p1 = clock p + foldr Z.add 0 gaps.
Proof.
  intros Hc Hg. cbv zeta.
  assert (forall q,
            viz q = viz p /\ posted q = posted p /\
            playbackToggleTimeout q = Some (clock q + 300) /\
            lastInteractionTime q = clock q ->
            viz (interactions gaps q) = viz p /\
            posted (interactions gaps q) = posted p /\
            playbackToggleTimeout (interactions gaps q)
            = Some (clock (interactions gaps q) + 300) /\
            lastInteractionTime (interactions gaps q)
            = clock (interactions gaps q) /\
            clock (interactions gaps q) = clock q + foldr Z.add 0 gaps) as G.
  { unfold interactions.
    induction gaps as [|g gaps IH]; intros q (Hv & Hp & Ht & Hl);
      cbn [foldl foldr].
    - repeat split; try done. lia.
    - cbn [forallb] in Hg. apply andb_true_iff in Hg as [Hg0 Hg].
      apply andb_true_iff in Hg0 as [G1 G2].
      apply Z.leb_le in G1. apply Z.ltb_lt in G2.
      set (q1 := handleIframeInteraction (elapse g q)).
      assert (elapse g q = mkPage (viz q) (lastInteractionTime q)
                             (playbackToggleTimeout q) (posted q)
                             (clock q + g)) as E.
      { unfold elapse. cbv zeta. rewrite Ht.
        rewrite (proj2 (Z.leb_gt _ _)) by lia.
        rewrite (Z.max_r 0 g) by lia. by rewrite Ht. }
      assert (q1 = mkPage (viz q) (clock q + g) (Some (clock q + g + 300))
                     (posted q) (clock q + g)) as E1.
      { unfold q1, handleIframeInteraction. rewrite E. cbn.
        by rewrite Hv, Hc. }
      destruct (IH Hg q1) as (I1 & I2 & I3 & I4 & I5).
      { rewrite E1. by cbn. }
      repeat split; try done. rewrite I5, E1. cbn. lia. }
  assert (handleIframeInteraction p
          = mkPage (viz p) (clock p) (Some (clock p + 300)) (posted p)
              (clock p)) as E0
    by (unfold handleIframeInteraction; by rewrite Hc).
  rewrite E0. apply (G (mkPage (viz p) (clock p) (Some (clock p + 300))
                          (posted p) (clock p))).
  by cbn.
Qed.

(** X12.  [handleIframeInteraction] without a controller debounces: any
    number of interactions less than 300ms apart toggle the playback status
    once, 300ms after the last of them.  Until then nothing changes; then
    [isPlaying] is flipped, [intensity] follows, the listeners are notified
    once and one ['playback_update'] message is posted. *)
Theorem interactions_toggle_once gaps p dt :
  spotifyController (viz p) = None ->
  forallb (fun g => (0 <=? g) && (g <? 300)) gaps = true ->
  300 <= dt ->
  let now' := negb (truthy (isPlaying (viz p))) in
  let p1 := interactions gaps (handleIframeInteraction p) in
  let p2 := elapse dt p1 in
  viz p1 = viz p /\ posted p1 = posted p /\
  isPlaying (viz p2) = JBool now' /\
  intensity (viz p2) = base_intensity now' /\
  delivered (viz p2)
  = (delivered (viz p) ++ deliveries 0 (listeners (viz p)) (JBool now'))%list /\
  posted p2
  = (posted p ++ [JObj [("type", JStr "playback_update");
                        ("playing", JBool now')]])%list /\
  playbackToggleTimeout p2 = None.
Proof.
  intros Hc Hg Hdt. cbv zeta.
  destruct (interactions_pending gaps p Hc Hg) as (Hv & Hp & Ht & Hl & Hk).
  cbv zeta in *.
  set (p1 := interactions gaps (handleIframeInteraction p)) in *.
  split; [done|]. split; [done|].
  unfold elapse. cbv zeta. rewrite Ht.
  rewrite (proj2 (Z.leb_le _ _)) by lia.
  unfold toggle_later. cbv zeta. cbn [viz posted playbackToggleTimeout].
  rewrite Hv, Hp, updatePlaybackStatus_ok. cbn [state_of isPlaying set_isPlaying].
  set (b := negb (truthy (isPlaying (viz p)))).
  change (isPlaying (set_intensity ?x ?y)) with (isPlaying y).
  change (delivered (set_intensity ?x ?y)) with (delivered y).
  change (intensity (set_intensity ?x ?y)) with x.
  rewrite isPlaying_after_update, delivered_after_update,
    isPlaying_after_update.
  by repeat split.
Qed.

Lemma interactions_toggle_once_witness :
  let p := mkPage (new_visualizer (mkStorage ∅ false) [false]) 0 None [] 1000 in
  let p1 := interactions [100; 299; 0] (handleIframeInteraction p) in
  let p2 := elapse 300 p1 in
  viz p1 = viz p /\ posted p1 = posted p /\
  isPlaying (viz p2) = JBool true /\
  intensity (viz p2) = base_intensity true /\
  delivered (viz p2)
  = (delivered (viz p) ++ deliveries 0 (listeners (viz p)) (JBool true))%list /\
  posted p2
  = (posted p ++ [JObj [("type", JStr "playback_update");
                        ("playing", JBool true)]])%list /\
  playbackToggleTimeout p2 = None.
Proof.
  apply (interactions_toggle_once [100; 299; 0]
           (mkPage (new_visualizer (mkStorage ∅ false) [false]) 0 None []
              1000) 300); [reflexivity|reflexivity|lia].
Defined.

(** ** Dragging *)

Lemma move_inside margin cx cy iw ih ow oh d pl ix iy :
  initialX d = Some ix -> initialY d = Some iy ->
  inside (move margin cx cy iw ih ow oh d pl, (iw, ih, ow, oh, margin)).
Proof.
  intros Hx Hy. unfold inside, move. rewrite Hx, Hy.
  exists (clamp (iw - ow) (cx - ix)), (clamp (ih - oh - margin) (cy - iy)).
  unfold clamp. cbn. repeat split; lia.
Qed.

(** X13.  A dragged window stays on screen.  Whatever sequence of mouse
    and touch events the drag handlers see, every position they write has
    [left >= 0] and [top >= 0], and where the window fits the viewport its
    right edge stays inside it and its bottom edge stays clear of the task
    bar (50px for the mouse, 60px for touch).  Moves outside a drag write
    nothing. *)
Theorem drag_keeps_window_inside evs pl :
  Forall inside (writes evs (new_drag, pl)).
Proof.
  assert (forall s,
            (isDragging (fst s) = true ->
             is_Some (initialX (fst s)) /\ is_Some (initialY (fst s))) ->
            Forall inside (writes evs s)) as G.
  { induction evs as [|ev evs IH]; intros [d q] Hd; cbn [writes]; [done|].
    cbn [fst snd] in *.
    destruct ev; cbn [pointer];
      try (apply IH; cbn; intros; try discriminate; by eauto).
    - destruct (isDragging d) eqn:E;
        [|apply IH; cbn; intros H'; congruence].
      destruct (Hd eq_refl) as [[ix Hx] [iy Hy]].
      cbn [snd]. constructor; [by apply (move_inside _ _ _ _ _ _ _ _ _ ix iy)|].
      apply IH. cbn. intros _. eauto.
    - destruct (_ && _); apply IH; cbn; eauto.
    - destruct (isDragging d) eqn:E;
        [|apply IH; cbn; intros H'; congruence].
      destruct (Hd eq_refl) as [[ix Hx] [iy Hy]].
      cbn [snd]. constructor; [by apply (move_inside _ _ _ _ _ _ _ _ _ ix iy)|].
      apply IH. cbn. intros _. eauto. }
  apply G. discriminate.
Qed.

(** ** The clock *)

Lemma clock_ok_all :
  forallb (fun h => forallb (clock_ok h) (seqZ 0 60)) (seqZ 0 24) = true.
Proof. vm_compute. reflexivity. Qed.

(** X14.  The task-bar clock always reads [HH:MM]: for every hour and
    minute [Date] can return the text has five characters, a colon in the
    middle, and two-digit fields that read back as the hour and the
    minute. *)
Theorem clock_text_reads_back h m :
  0 <= h <= 23 -> 0 <= m <= 59 ->
  String.length (clock_text h m) = 5%nat /\
  substring 2 1 (clock_text h m) = ":" /\
  parseInt (substring 0 2 (clock_text h m)) = Some h /\
  parseInt (substring 3 2 (clock_text h m)) = Some m.
Proof.
  intros Hh Hm. pose proof clock_ok_all as A.
  rewrite forallb_forall in A.
  assert (In h (seqZ 0 24)) as Ih
    by (apply list_elem_of_In, elem_of_seqZ; lia).
  specialize (A h Ih). rewrite forallb_forall in A.
  assert (In m (seqZ 0 60)) as Im
    by (apply list_elem_of_In, elem_of_seqZ; lia).
  specialize (A m Im). unfold clock_ok in A. cbv zeta in A.
  apply andb_true_iff in A as [A A4]. apply andb_true_iff in A as [A A3].
  apply andb_true_iff in A as [A1 A2].
  apply Nat.eqb_eq in A1. apply bool_decide_eq_true in A2, A3, A4. done.
Qed.

Lemma clock_text_reads_back_witness :
  clock_text 9 5 = "09:05" /\
  String.length (clock_text 9 5) = 5%nat /\
  substring 2 1 (clock_text 9 5) = ":" /\
  parseInt (substring 0 2 (clock_text 9 5)) = Some 9 /\
  parseInt (substring 3 2 (clock_text 9 5)) = Some 5.
Proof.
  split; [reflexivity|]. apply (clock_text_reads_back 9 5); lia.
Defined.

(** ** The modal visualizer *)

(** X15.  The modal visualizer's brightness is the main visualizer's
    without the style multiplier: [base * pulse] for its own [isPlaying].
    It is 0.5 while paused and stays within [0.8, 1.2] while playing. *)
Theorem modal_frame_intensity_is_base_pulse t m :
  modal_frame_intensity t m
  = (base_intensity (truthy (m_isPlaying m))
     * pulse t (truthy (m_isPlaying m)))%R /\
  (0.5 <= modal_frame_intensity t m <= 1.2)%R /\
  (if truthy (m_isPlaying m)
   then (0.8 <= modal_frame_intensity t m)%R
   else modal_frame_intensity t m = 0.5%R).
Proof.
  unfold modal_frame_intensity, base_intensity, pulse. cbv zeta.
  pose proof (SIN_bound (t * 3.0)) as [S1 S2].
  destruct (truthy (m_isPlaying m)); repeat split; lra.
Qed.

Lemma modal_synced_after_update arg v : modal_synced (after_update arg v).
Proof.
  intros m. unfold after_update. cbv zeta.
  rewrite (after_dispatch_keep modalVisualizer) by done.
  rewrite (after_dispatch_keep isPlaying) by done.
  cbn. destruct (modalVisualizer _); [|done]. cbn. by intros [= <-].
Qed.

Lemma modal_synced_same v v' :
  modalVisualizer v' = modalVisualizer v -> isPlaying v' = isPlaying v ->
  modal_synced v -> modal_synced v'.
Proof. intros Em Ei S m. rewrite Em, Ei. apply S. Qed.

Lemma modal_synced_on_signal s v :
  modal_synced v -> modal_synced (state_of (on_signal s v)).
Proof.
  intros S. destruct s; cbn [on_signal].
  - rewrite onControllerUpdate_ok. apply modal_synced_after_update.
  - unfold onControllerReady. rewrite updatePlaybackStatus_ok.
    apply modal_synced_after_update.
  - rewrite onMessage_ok. cbn [state_of].
    destruct (message_value origin data); [apply modal_synced_after_update|done].
  - by apply (modal_synced_same v).
  - unfold onIframeClick, modify. cbn [state_of].
    destruct (heuristicsReady v); [by apply (modal_synced_same v)|done].
  - unfold onContainerMutation, modify. cbn [state_of].
    destruct (_ && _); [by apply (modal_synced_same v)|done].
  - rewrite onCheck_ok. cbn [state_of].
    destruct (asserted (SigCheck r) v).
    + eapply modal_synced_same; [| |apply modal_synced_after_update]; done.
    + by apply (modal_synced_same v).
  - rewrite onDirectProbe_ok. cbn [state_of].
    destruct (_ && _); [|done].
    eapply modal_synced_same; [| |apply modal_synced_after_update]; done.
  - rewrite onDirectProbe_ok. cbn [state_of].
    destruct (_ && _); [|done].
    eapply modal_synced_same; [| |apply modal_synced_after_update]; done.
Qed.

Lemma modal_synced_do_action a v :
  creates_modal a = false ->
  modal_synced v -> modal_synced (do_action a v).
Proof.
  intros Ha S. destruct a; try discriminate; cbn [do_action].
  - by apply modal_synced_on_signal.
  - destruct (togglePlayback_state v) as (cs & pc & ->). cbv zeta.
    intros m. rewrite (after_dispatch_keep modalVisualizer) by done.
    rewrite (after_dispatch_keep isPlaying) by done.
    cbn. destruct (modalVisualizer _); [|done]. cbn. by intros [= <-].
  - destruct (updateVisualizationStyle_state style v)
      as (v' & -> & _ & Ei & Em & _).
    by apply (modal_synced_same v).
  - unfold updateKaleidoscopePattern, bind, modify, try_catch, setItem, ret.
    cbn. destruct (material v); cbn; destruct (broken (localStorage v));
      by apply (modal_synced_same v).
  - by apply (modal_synced_same v).
  - unfold animate, modify. cbn [state_of].
    destruct (material v); by apply (modal_synced_same v).
  - by apply (modal_synced_same v).
Qed.

(** X16.  The modal visualizer never disagrees with the main one about
    playback: every path that changes [isPlaying] (controller events,
    messages, the heuristics, [togglePlayback]) hands the new value to the
    modal visualizer before it returns, and no other action touches either
    copy. *)
Theorem modal_stays_synced acts v :
  modal_synced v ->
  forallb (fun a => negb (creates_modal a)) acts = true ->
  modal_synced (run_actions acts v).
Proof.
  unfold run_actions. revert v.
  induction acts as [|a acts IH]; intros v S Hall; cbn [foldl]; [done|].
  cbn [forallb] in Hall. apply andb_true_iff in Hall as [Ha Hall].
  apply negb_true_iff in Ha.
  apply IH; [|done]. by apply modal_synced_do_action.
Qed.

Lemma modal_stays_synced_witness :
  let v := do_action (AModalCreated false)
             (new_visualizer (mkStorage ∅ false) []) in
  let acts := [ASignal (SigController (JBool false)); AStyle 2; AToggle;
               ASignal (SigMessage "https://open.spotify.com"
                          (JObj [("playing", JStr "yes")]))] in
  modal_synced (run_actions acts v).
Proof.
  apply modal_stays_synced; [|reflexivity].
  intros m [= <-]. reflexivity.
Defined.

End ControlsFacts.

(* ===================================================================== *)
(** * Part XIV: properties of the bundled sound manager                  *)
(* ===================================================================== *)

Module VizSoundFacts.
Import Sound VizSound.

(** ** Window states *)

Lemma get_set_eq h k v m : getWindowState h k (setWindowState h k v m) = Some v.
Proof.
  unfold getWindowState, setWindowState. cbn.
  by rewrite lookup_insert_eq; cbn; rewrite lookup_insert_eq.
Qed.

Lemma get_set_ne h k v h' k' m :
  (h', k') <> (h, k) ->
  getWindowState h' k' (setWindowState h k v m) = getWindowState h' k' m.
Proof.
  intros Hne. unfold getWindowState, setWindowState. cbn.
  destruct (decide (h' = h)) as [->|Hh].
  - rewrite lookup_insert_eq. cbn. rewrite lookup_insert_ne; [done|congruence].
  - by rewrite lookup_insert_ne.
Qed.

Lemma critical_set_other h k v h' m :
  k <> "criticalSoundPlayed" ->
  critical_marked h' (setWindowState h k v m) = critical_marked h' m.
Proof.
  intros Hk. unfold critical_marked. rewrite get_set_ne; [done|congruence].
Qed.

(** ** Counting timers *)

Lemma count_app p (l1 l2 : list (Z * callback)) :
  count p (l1 ++ l2)%list = (count p l1 + count p l2)%nat.
Proof. unfold count. by rewrite List.filter_app, length_app. Qed.

Lemma count_zero p (l : list (Z * callback)) x :
  count p l = 0%nat -> x ∈ l -> p x = false.
Proof.
  unfold count. induction l as [|y l IH]; cbn; intros H Hin.
  - by apply elem_of_nil in Hin.
  - apply elem_of_cons in Hin as [->|Hin].
    + by destruct (p y).
    + destruct (p y); [discriminate|]. by apply IH.
Qed.

Lemma is_dc_true h t c : is_dc h (t, c) = true <-> c = DeleteClosing h.
Proof.
  unfold is_dc. cbn. destruct c; try (split; [discriminate|congruence]).
  rewrite bool_decide_eq_true. split; congruence.
Qed.

Lemma is_dc_other h t c : core_cb c = false -> is_dc h (t, c) = false.
Proof. by destruct c. Qed.

Lemma count_dc_zero h l t :
  count (is_dc h) l = 0%nat -> (t, DeleteClosing h) ∉ l.
Proof.
  intros H Hin. pose proof (count_zero _ _ _ H Hin) as E.
  assert (is_dc h (t, DeleteClosing h) = true) as E' by by apply is_dc_true.
  congruence.
Qed.

(** ** Changes that leave the core alone *)

Lemma same_core_refl m : same_core m m.
Proof. by split. Qed.

Lemma same_core_trans m1 m2 m3 :
  same_core m1 m2 -> same_core m2 m3 -> same_core m1 m3.
Proof.
  intros [A1 A2 A3 A4 A5 A6] [B1 B2 B3 B4 B5 B6]. split.
  - congruence.
  - congruence.
  - intros h. by rewrite B3.
  - intros h. by rewrite B4.
  - intros t h. by rewrite B5.
  - intros t h. by rewrite B6.
Qed.

Lemma sc_set_state h k v m :
  k <> "criticalSoundPlayed" -> same_core m (setWindowState h k v m).
Proof. intros Hk. split; try done. intros h'. by apply critical_set_other. Qed.

Lemma pending_add_timer d c m :
  pending (add_timer d c m) = (pending m ++ [(clock m + Z.max 0 d, c)])%list.
Proof. reflexivity. Qed.

Lemma elem_add_timer d c m x :
  x ∈ pending (add_timer d c m) <->
  x ∈ pending m \/ x = (clock m + Z.max 0 d, c).
Proof. by rewrite pending_add_timer, elem_of_app, list_elem_of_singleton. Qed.

Lemma count_add_timer p d c m :
  count p (pending (add_timer d c m))
  = (count p (pending m)
     + if p ((clock m + Z.max 0 d)%Z, c) then 1 else 0)%nat.
Proof.
  rewrite pending_add_timer, count_app. unfold count at 2. cbn.
  by destruct (p _).
Qed.

Lemma sc_add_timer d c m : core_cb c = false -> same_core m (add_timer d c m).
Proof.
  intros Hc. split; try done.
  - intros h. rewrite count_add_timer, (is_dc_other h _ c Hc). lia.
  - intros t h. rewrite elem_add_timer.
    split; [|by left]. intros [?|E]; [done|]. inversion E; subst. discriminate.
  - intros t h. rewrite elem_add_timer.
    split; [|by left]. intros [?|E]; [done|]. inversion E; subst. discriminate.
Qed.

Lemma sc_set_page p m : same_core m (set_page p m).
Proof. by split. Qed.

Lemma sc_set_enabled b m : same_core m (set_enabled b m).
Proof. by split. Qed.

Lemma sc_set_wired l m : same_core m (set_wired l m).
Proof. by split. Qed.

Lemma sc_set_active s m : same_core m (set_activeWindows s m).
Proof. by split. Qed.

Lemma sc_play n v m : same_core m (fst (play n v m)).
Proof.
  unfold play, on_page. repeat case_match; cbn [fst];
    auto using same_core_refl, sc_set_page.
Qed.

Ltac sc_peel :=
  lazymatch goal with
  | |- same_core ?m ?m => apply same_core_refl
  | |- same_core _ (add_timer _ _ _) =>
      eapply same_core_trans; [|by apply sc_add_timer]
  | |- same_core _ (setWindowState _ _ _ _) =>
      eapply same_core_trans; [|apply sc_set_state; discriminate]
  | |- same_core _ (set_page _ _) =>
      eapply same_core_trans; [|apply sc_set_page]
  | |- same_core _ (set_enabled _ _) =>
      eapply same_core_trans; [|apply sc_set_enabled]
  | |- same_core _ (set_wired _ _) =>
      eapply same_core_trans; [|apply sc_set_wired]
  | |- same_core _ (set_activeWindows _ _) =>
      eapply same_core_trans; [|apply sc_set_active]
  | |- same_core _ (fst (play _ _ _)) =>
      eapply same_core_trans; [|apply sc_play]
  end.

Lemma sc_addActiveWindow id m : same_core m (addActiveWindow id m).
Proof. unfold addActiveWindow. case_match; repeat sc_peel. Qed.

Ltac sc :=
  repeat first
    [ sc_peel
    | lazymatch goal with
      | |- same_core _ (addActiveWindow _ _) =>
          eapply same_core_trans; [|apply sc_addActiveWindow]
      end ].

Lemma sc_play_and_mark h n v d m : same_core m (fst (play_and_mark h n v d m)).
Proof. unfold play_and_mark. cbv zeta. case_match; cbn [fst]; sc. Qed.

Lemma sc_foldl {A} (step : Manager -> A -> Manager) (l : list A) m :
  (forall m x, same_core m (step m x)) -> same_core m (foldl step m l).
Proof.
  intros Hs. revert m. induction l as [|x l IH]; intros m; cbn [foldl].
  - apply same_core_refl.
  - eapply same_core_trans; [apply Hs|apply IH].
Qed.

Lemma sc_reset_step m h : same_core m (reset_step m h).
Proof. unfold reset_step. case_match; sc. Qed.

Lemma sc_mark_initial m h : same_core m (mark_initial m h).
Proof. unfold mark_initial. case_match; sc. Qed.

Lemma sc_forget h m :
  same_core m
    (let m1 := setWindowState h "initialWindow" false m in
     if truthy_state (getWindowState h "soundPlayed" m1)
     then setWindowState h "soundPlayed" false m1 else m1).
Proof. cbv zeta. case_match; sc. Qed.

Lemma wf_same_core m m' : same_core m m' -> wf m -> wf m'.
Proof.
  intros [A1 A2 A3 A4 A5 A6] [W1 W2 W3]. split.
  - intros h. by rewrite A4, A2.
  - intros t h Hin. rewrite A1. apply (W2 t h). by apply A5.
  - intros h Hc. rewrite A3 in Hc. destruct (W3 h Hc) as (t & Hin & Hle & Hnc).
    exists t. split; [by apply A6|]. split.
    + intros t' Hin'. apply Hle. by apply A5.
    + rewrite A1, A2. apply Hnc.
Qed.

Lemma calm_same_core m m' : same_core m m' -> calm m -> calm m'.
Proof.
  intros [A1 A2 A3 A4 A5 A6] C t h Hin. rewrite A1. apply (C t h). by apply A6.
Qed.

Lemma closing_until_same_core D h m m' :
  same_core m m' -> closing_until D h m -> closing_until D h m'.
Proof.
  intros [A1 A2 A3 A4 A5 A6] [C1 C2]. split; [by rewrite A2|].
  intros t Hin. apply C2. by apply A5.
Qed.

(** ** The close gate *)

Lemma close_gate_closed h n m :
  isWindowClosing h m = true ->
  snd (close_gate h n m) = false /\ same_core m (fst (close_gate h n m)).
Proof.
  intros C. pose proof (sc_forget h m) as S. unfold close_gate. cbv zeta in *.
  set (m2 := if truthy_state _ then _ else _) in *.
  assert (isWindowClosing h m2 = true) as ->.
  { unfold isWindowClosing in *. by rewrite (sc_closing _ _ S). }
  by cbn.
Qed.

Lemma not_marked_when_open h m :
  wf m -> calm m -> isWindowClosing h m = false -> critical_marked h m = false.
Proof.
  intros W C O. destruct (critical_marked h m) eqn:E; [|done].
  destruct (wf_critical _ W h E) as (t & Hin & _ & Hnc).
  apply bool_decide_eq_false in O. specialize (Hnc O).
  specialize (C t h Hin). lia.
Qed.

Lemma wf_mark h m :
  wf m -> h ∉ closingWindows m -> critical_marked h m = false ->
  wf (markWindowClosing h m) /\
  closing_until (clock m + 1500) h (markWindowClosing h m).
Proof.
  intros [W1 W2 W3] O N.
  assert (count (is_dc h) (pending m) = 0%nat) as Z0.
  { rewrite W1. by rewrite bool_decide_eq_false_2. }
  unfold markWindowClosing. split; [split|split].
  - intros h'. rewrite count_add_timer.
    change (pending (set_closingWindows _ m)) with (pending m).
    change (closingWindows (add_timer _ _ (set_closingWindows ?s m))) with s.
    rewrite W1. destruct (decide (h' = h)) as [->|Hne].
    + rewrite (proj2 (is_dc_true h _ _) eq_refl).
      rewrite bool_decide_eq_false_2 by done.
      rewrite bool_decide_eq_true_2 by set_solver. done.
    + assert (is_dc h' ((clock (set_closingWindows ({[h]} ∪ closingWindows m) m)
                         + Z.max 0 1500)%Z, DeleteClosing h) = false) as ->.
      { unfold is_dc. cbn [snd]. by rewrite bool_decide_eq_false_2. }
      rewrite Nat.add_0_r.
      destruct (decide (h' ∈ closingWindows m)).
      * rewrite !bool_decide_eq_true_2; [done| |done].
        apply elem_of_union. by right.
      * rewrite !bool_decide_eq_false_2; [done| |done].
        intros [?%elem_of_singleton|?]%elem_of_union; done.
  - intros t h' [Hin|E]%elem_add_timer.
    + apply (W2 t h' Hin).
    + inversion E; subst. cbn. lia.
  - intros h' Hc. change (critical_marked h' m = true) in Hc.
    assert (h' <> h) as Hne by congruence.
    destruct (W3 h' Hc) as (t & Hin & Hle & Hnc). exists t.
    split; [apply elem_add_timer; by left|]. split.
    + intros t' [Hin'|E]%elem_add_timer; [by apply Hle|]. inversion E; congruence.
    + intros Hn. apply Hnc. cbn in Hn. set_solver.
  - cbn. set_solver.
  - intros t [Hin|E]%elem_add_timer.
    + by apply count_dc_zero with (t := t) in Z0.
    + inversion E; subst. cbn. lia.
Qed.

Lemma wf_set_critical h m :
  wf m -> closing_until (clock m + 1500) h m ->
  let m' := add_timer 1500 (ClearState h "criticalSoundPlayed")
                      (setWindowState h "criticalSoundPlayed" true m) in
  wf m' /\ closing_until (clock m + 1500) h m'.
Proof.
  intros [W1 W2 W3] [C1 C2]. cbv zeta. split; [split|split].
  - intros h'. rewrite count_add_timer. cbn [is_dc snd]. rewrite Nat.add_0_r.
    apply W1.
  - intros t h' [Hin|E]%elem_add_timer; [apply (W2 t h' Hin)|]. inversion E.
  - intros h' Hc. destruct (decide (h' = h)) as [->|Hne].
    + exists (clock m + 1500). split; [apply elem_add_timer; by right|]. split.
      * intros t' [Hin|E]%elem_add_timer; [by apply C2|]. inversion E.
      * intros Hn. by destruct Hn.
    + unfold critical_marked in Hc.
      change (getWindowState h' "criticalSoundPlayed" (add_timer ?d ?c ?x))
        with (getWindowState h' "criticalSoundPlayed" x) in Hc.
      rewrite get_set_ne in Hc by congruence.
      destruct (W3 h' Hc) as (t & Hin & Hle & Hnc). exists t.
      split; [apply elem_add_timer; by left|]. split.
      * intros t' [Hin'|E]%elem_add_timer; [by apply Hle|]. inversion E.
      * apply Hnc.
  - apply C1.
  - intros t [Hin|E]%elem_add_timer; [by apply C2|]. inversion E.
Qed.

Lemma closing_until_add_timer D h d c m :
  c <> DeleteClosing h ->
  closing_until D h m -> closing_until D h (add_timer d c m).
Proof.
  intros Hc [C1 C2]. split; [done|].
  intros t [Hin|E]%elem_add_timer; [by apply C2|]. inversion E; congruence.
Qed.

Lemma closing_until_other_mark D h h' m :
  h' <> h ->
  closing_until D h m -> closing_until D h (markWindowClosing h' m).
Proof.
  intros Hne [C1 C2]. apply closing_until_add_timer; [congruence|].
  split; [cbn; set_solver|done].
Qed.

Lemma closing_until_set_state D h h' k v m :
  closing_until D h m -> closing_until D h (setWindowState h' k v m).
Proof. done. Qed.

Lemma close_gate_keeps D h' h n m :
  closing_until D h' m -> closing_until D h' (fst (close_gate h n m)).
Proof.
  intros CU. pose proof (sc_forget h m) as S. unfold close_gate.
  cbv zeta in *. set (m2 := if truthy_state _ then _ else _) in *.
  apply (closing_until_same_core _ _ _ _ S) in CU.
  destruct (isWindowClosing h m2) eqn:O; [done|].
  case_match; [done|].
  assert (h <> h') as Hne.
  { intros ->. apply bool_decide_eq_false in O. by destruct CU. }
  case_match; cbn [fst].
  - apply closing_until_add_timer; [congruence|].
    apply closing_until_set_state. by apply closing_until_other_mark.
  - by apply closing_until_other_mark.
Qed.

Lemma close_gate_open h n m :
  wf m -> calm m -> isWindowClosing h m = false ->
  let m' := fst (close_gate h n m) in
  snd (close_gate h n m) = true /\ wf m' /\ calm m' /\
  closing_until (clock m + 1500) h m' /\
  page m' = page m /\ enabled m' = enabled m /\ clock m' = clock m.
Proof.
  intros W C O. pose proof (sc_forget h m) as S. unfold close_gate.
  cbv zeta in *.
  set (m2 := if truthy_state _ then _ else _) in *.
  assert (page m2 = page m /\ enabled m2 = enabled m /\ clock m2 = clock m)
    as (Ep & Ee & Ec) by (subst m2; by case_match).
  pose proof (wf_same_core _ _ S W) as W2.
  pose proof (calm_same_core _ _ S C) as C2.
  assert (isWindowClosing h m2 = false) as O2.
  { unfold isWindowClosing in *. by rewrite (sc_closing _ _ S). }
  pose proof (not_marked_when_open h m2 W2 C2 O2) as N.
  rewrite O2. unfold critical_marked in N. rewrite N, andb_false_r.
  apply bool_decide_eq_false in O2.
  destruct (wf_mark h m2 W2 O2 N) as [W3 CU3].
  assert (calm (markWindowClosing h m2)) as C3.
  { intros t h' [Hin|E]%elem_add_timer; [apply (C2 t h' Hin)|]. inversion E. }
  case_match; cbn [fst snd].
  - destruct (wf_set_critical h _ W3 CU3) as [W4 CU4]. cbv zeta in *.
    change (clock (markWindowClosing h m2)) with (clock m2) in *.
    rewrite Ec in *. split; [done|]. split; [done|]. split; [|done].
    intros t h' [Hin|E]%elem_add_timer.
    + apply (C3 t h' Hin).
    + inversion E; subst. cbn. lia.
  - rewrite Ec in *. done.
Qed.

(** ** [playForWindow] keeps the invariant *)

Lemma playForWindow_wf oh n v d m :
  wf m -> calm m ->
  wf (fst (playForWindow oh n v d m)) /\ calm (fst (playForWindow oh n v d m)).
Proof.
  intros W C. destruct oh as [h|]; cbn [playForWindow].
  - cbv zeta. destruct (is_close_name n) eqn:Hn.
    + destruct (isWindowClosing h m) eqn:O.
      * destruct (close_gate_closed h n m O) as [R S]. rewrite R. cbn [negb fst].
        split; [by apply (wf_same_core _ _ S)|by apply (calm_same_core _ _ S)].
      * destruct (close_gate_open h n m W C O) as (R & W' & C' & _).
        rewrite R. cbn [negb].
        pose proof (sc_play_and_mark h n v d (fst (close_gate h n m))) as S.
        split; [by apply (wf_same_core _ _ S)|by apply (calm_same_core _ _ S)].
    + cbn [snd negb fst].
      pose proof (sc_play_and_mark h n v d m) as S.
      split; [by apply (wf_same_core _ _ S)|by apply (calm_same_core _ _ S)].
  - pose proof (sc_play n v m) as S.
    split; [by apply (wf_same_core _ _ S)|by apply (calm_same_core _ _ S)].
Qed.

Lemma playForWindow_keeps D h oh n v d m :
  closing_until D h m -> closing_until D h (fst (playForWindow oh n v d m)).
Proof.
  intros CU. destruct oh as [h'|]; cbn [playForWindow].
  - cbv zeta.
    assert (closing_until D h
              (fst (if is_close_name n then close_gate h' n m else (m, true))))
      as CU'.
    { case_match; [by apply close_gate_keeps|done]. }
    destruct (negb (snd _)); cbn [fst]; [done|].
    eapply closing_until_same_core; [apply sc_play_and_mark|done].
  - eapply closing_until_same_core; [apply sc_play|done].
Qed.

Lemma clock_play n v m : clock (fst (play n v m)) = clock m.
Proof. apply (sc_clock _ _ (sc_play n v m)). Qed.

Lemma clock_close_gate h n m : clock (fst (close_gate h n m)) = clock m.
Proof.
  unfold close_gate, markWindowClosing. cbv zeta.
  repeat case_match; reflexivity.
Qed.

Lemma clock_playForWindow oh n v d m :
  clock (fst (playForWindow oh n v d m)) = clock m.
Proof.
  destruct oh as [h|]; cbn [playForWindow]; [|apply clock_play].
  cbv zeta.
  assert (clock (fst (if is_close_name n then close_gate h n m else (m, true)))
          = clock m) as E.
  { case_match; [apply clock_close_gate|done]. }
  destruct (negb (snd _)); cbn [fst]; [done|].
  rewrite <- E. apply (sc_clock _ _ (sc_play_and_mark _ _ _ _ _)).
Qed.

(** ** Timers *)

Lemma next_due_perm l t rest :
  next_due l = Some (t, rest) -> Permutation l (t :: rest).
Proof.
  revert t rest. induction l as [|x l IH]; intros t rest; [done|]. cbn.
  destruct (next_due l) as [[t' rest']|] eqn:E.
  - specialize (IH _ _ eq_refl). case_match; intros [= <- <-]; [done|].
    rewrite IH. apply perm_swap.
  - intros [= <- <-]. destruct l; [done|]. cbn in E.
    destruct (next_due l) as [[? ?]|]; [case_match|]; discriminate.
Qed.

Lemma next_due_count p l t rest :
  next_due l = Some (t, rest) ->
  count p l = ((if p t then 1 else 0) + count p rest)%nat.
Proof.
  intros H%next_due_perm. unfold count.
  assert (Permutation (List.filter p l) (List.filter p (t :: rest))) as HP.
  { clear -H. induction H; cbn; repeat case_match; eauto using Permutation. }
  rewrite (Permutation_length HP). cbn. destruct (p t); done.
Qed.

Lemma next_due_elem l t rest x :
  next_due l = Some (t, rest) -> x ∈ l <-> x = t \/ x ∈ rest.
Proof. intros H%next_due_perm. rewrite H. apply elem_of_cons. Qed.

(** The timer picked is an earliest one. *)
Lemma next_due_min l t rest x :
  next_due l = Some (t, rest) -> x ∈ l -> fst t <= fst x.
Proof.
  revert t rest. induction l as [|y l IH]; intros t rest; [done|]. cbn.
  destruct (next_due l) as [[t' rest']|] eqn:E.
  - specialize (IH _ _ eq_refl).
    destruct (Z.leb_spec (fst y) (fst t')); intros [= <- <-];
      rewrite elem_of_cons; intros [->|Hx]; try lia; specialize (IH Hx); lia.
  - intros [= <- <-]. destruct l.
    + rewrite list_elem_of_singleton. intros ->. lia.
    + cbn in E. destruct (next_due l) as [[? ?]|]; [case_match|]; discriminate.
Qed.

Lemma next_due_none l : next_due l = None -> l = [].
Proof.
  destruct l as [|x l]; [done|]. cbn.
  destruct (next_due l) as [[? ?]|]; [case_match|]; discriminate.
Qed.

(** One callback, run at its deadline. *)
Lemma fire_wf m d c rest :
  wf m -> next_due (pending m) = Some ((d, c), rest) ->
  wf (fire c (set_pending rest (set_clock (Z.max (clock m) d) m))).
Proof.
  intros [W1 W2 W3] Hn.
  set (m0 := set_pending rest (set_clock (Z.max (clock m) d) m)).
  assert (forall x, x ∈ rest -> x ∈ pending m) as Sub.
  { intros x Hx. apply (next_due_elem _ _ _ x Hn). by right. }
  assert (core_cb c = false -> wf m0) as Plain.
  { intros Hc. split.
    - intros h. change (pending m0) with rest.
      change (closingWindows m0) with (closingWindows m).
      rewrite <- W1, (next_due_count _ _ _ _ Hn), (is_dc_other h d c Hc). done.
    - intros t h Hin%Sub. specialize (W2 t h Hin). cbn. lia.
    - intros h Hc'. destruct (W3 h Hc') as (t & Hin & Hle & Hnc). exists t.
      split; [|split].
      + apply (next_due_elem _ _ _ _ Hn) in Hin as [E|Hin]; [|done].
        inversion E; subst. discriminate.
      + intros t' Hin'%Sub. by apply Hle.
      + intros Ho. specialize (Hnc Ho). cbn. lia. }
  destruct c as [id|h0|h0 k|ws]; cbn [fire].
  - eapply wf_same_core; [|by apply Plain]. fold m0. sc.
  - (* the closing marker of h0 goes *)
    assert (count (is_dc h0) (pending m)
            = S (count (is_dc h0) rest)) as Hc0.
    { rewrite (next_due_count _ _ _ _ Hn).
      by rewrite (proj2 (is_dc_true h0 d _) eq_refl). }
    assert (h0 ∈ closingWindows m /\ count (is_dc h0) rest = 0%nat) as [In0 Z0].
    { rewrite W1 in Hc0. case_bool_decide; [split; [done|lia]|lia]. }
    split.
    + intros h. change (pending (set_closingWindows _ m0)) with rest.
      change (closingWindows (set_closingWindows ?s m0)) with s.
      change (closingWindows m0) with (closingWindows m).
      destruct (decide (h = h0)) as [->|Hne].
      * rewrite Z0. rewrite bool_decide_eq_false_2; [done|].
        intros [_ Hx]%elem_of_difference. apply Hx. by apply elem_of_singleton.
      * assert (count (is_dc h) rest = count (is_dc h) (pending m)) as ->.
        { rewrite (next_due_count _ _ _ _ Hn).
          assert (is_dc h (d, DeleteClosing h0) = false) as ->; [|done].
          unfold is_dc. cbn. by rewrite bool_decide_eq_false_2. }
        rewrite W1. destruct (decide (h ∈ closingWindows m)).
        -- rewrite !bool_decide_eq_true_2; [done| |done].
           apply elem_of_difference. split; [done|].
           by intros ?%elem_of_singleton.
        -- rewrite !bool_decide_eq_false_2; [done| |done].
           by intros [? _]%elem_of_difference.
    + intros t h Hin%Sub. specialize (W2 t h Hin). cbn. lia.
    + intros h Hc'. change (critical_marked h m = true) in Hc'.
      destruct (W3 h Hc') as (t & Hin & Hle & Hnc). exists t. split; [|split].
      * apply (next_due_elem _ _ _ _ Hn) in Hin as [E|Hin]; [|done].
        inversion E.
      * intros t' Hin'%Sub. by apply Hle.
      * intros Ho. cbn in Ho. cbn [clock set_closingWindows m0 set_pending set_clock].
        destruct (decide (h = h0)) as [->|Hne].
        -- assert (t <= d); [|lia]. apply Hle.
           apply (next_due_elem _ _ _ _ Hn). by left.
        -- assert (h ∉ closingWindows m) as Ho'.
           { intros Hx. apply Ho. apply elem_of_difference. split; [done|].
             by intros ?%elem_of_singleton. }
           specialize (Hnc Ho'). lia.
  - destruct (decide (k = "criticalSoundPlayed")) as [->|Hk].
    + (* the 'criticalSoundPlayed' entry of h0 goes *)
      split.
      * intros h. change (pending (setWindowState _ _ _ m0)) with rest.
        change (closingWindows (setWindowState h0 _ _ m0))
          with (closingWindows m).
        rewrite <- W1, (next_due_count _ _ _ _ Hn). done.
      * intros t h Hin%Sub. specialize (W2 t h Hin). cbn. lia.
      * intros h Hc'. unfold critical_marked in Hc'.
        destruct (decide (h = h0)) as [->|Hne].
        { by rewrite get_set_eq in Hc'. }
        rewrite get_set_ne in Hc' by congruence.
        change (critical_marked h m = true) in Hc'.
        destruct (W3 h Hc') as (t & Hin & Hle & Hnc). exists t. split; [|split].
        -- apply (next_due_elem _ _ _ _ Hn) in Hin as [E|Hin]; [|done].
           inversion E; congruence.
        -- intros t' Hin'%Sub. by apply Hle.
        -- intros Ho. specialize (Hnc Ho). cbn. lia.
    + eapply wf_same_core; [apply sc_set_state; done|].
      apply Plain. cbn. by rewrite bool_decide_eq_false_2.
  - eapply wf_same_core; [apply (sc_foldl reset_step), sc_reset_step|].
    by apply Plain.
Qed.

Lemma clock_fire c m : clock (fire c m) = clock m.
Proof.
  destruct c as [id|h|h k|ws]; try reflexivity. cbn [fire].
  apply (sc_clock _ _ (sc_foldl reset_step ws m sc_reset_step)).
Qed.

Lemma run_timers_wf fuel T m : wf m -> wf (run_timers fuel T m).
Proof.
  revert m. induction fuel as [|fuel IH]; intros m W; cbn [run_timers]; [done|].
  destruct (next_due (pending m)) as [[[d c] rest]|] eqn:Hn; [|done].
  case_match; [|done]. apply IH. by apply fire_wf.
Qed.

Lemma run_timers_clock fuel T m :
  clock m <= T -> clock m <= clock (run_timers fuel T m) <= T.
Proof.
  revert m. induction fuel as [|fuel IH]; intros m Hc; cbn [run_timers]; [lia|].
  destruct (next_due (pending m)) as [[[d c] rest]|] eqn:Hn; [|lia].
  destruct (Z.leb_spec d T); [|lia].
  set (m1 := fire c _).
  assert (clock m1 = Z.max (clock m) d) as E by apply clock_fire.
  specialize (IH m1). lia.
Qed.

(** Callbacks never register a removal of a closing marker. *)
Lemma dc_fire c m t h :
  (t, DeleteClosing h) ∈ pending (fire c m) -> (t, DeleteClosing h) ∈ pending m.
Proof.
  destruct c as [id|h0|h0 k|ws]; try done. cbn [fire].
  apply (sc_dc _ _ (sc_foldl reset_step ws m sc_reset_step)).
Qed.

Lemma run_timers_dc fuel T m t h :
  (t, DeleteClosing h) ∈ pending (run_timers fuel T m) ->
  (t, DeleteClosing h) ∈ pending m.
Proof.
  revert m. induction fuel as [|fuel IH]; intros m; cbn [run_timers]; [done|].
  destruct (next_due (pending m)) as [[[d c] rest]|] eqn:Hn; [|done].
  case_match; [|done]. intros Hin%IH%dc_fire.
  apply (next_due_elem _ _ _ _ Hn). by right.
Qed.

(** [advance] runs every callback that is due. *)
Lemma fuel_of_app l1 l2 :
  fuel_of (l1 ++ l2)%list = (fuel_of l1 + fuel_of l2)%nat.
Proof. unfold fuel_of. by rewrite map_app, list_sum_app. Qed.

Lemma fuel_of_next l t rest :
  next_due l = Some (t, rest) -> fuel_of l = (weight t + fuel_of rest)%nat.
Proof. intros H%next_due_perm. unfold fuel_of. by rewrite H. Qed.

Lemma fuel_reset ws m :
  (fuel_of (pending (foldl reset_step m ws))
   <= fuel_of (pending m) + length ws)%nat.
Proof.
  revert m. induction ws as [|h ws IH]; intros m; cbn [foldl length]; [lia|].
  etransitivity; [apply IH|].
  assert (fuel_of (pending (reset_step m h)) <= fuel_of (pending m) + 1)%nat;
    [|lia].
  unfold reset_step. case_match; [|lia].
  rewrite pending_add_timer, fuel_of_app.
  change (pending (setWindowState _ _ _ m)) with (pending m). cbn. lia.
Qed.

Lemma fuel_fire c d rest m :
  (fuel_of (pending (fire c (set_pending rest m)))
   < weight (d, c) + fuel_of rest)%nat.
Proof.
  destruct c as [id|h|h k|ws];
    [change (pending (fire _ (set_pending rest m))) with rest;
     unfold weight; cbn [snd]; lia..|].
  cbn [fire].
  pose proof (fuel_reset ws (set_pending rest m)) as H.
  change (pending (set_pending rest m)) with rest in H.
  unfold weight. cbn [snd]. lia.
Qed.

Lemma run_timers_empties fuel T m :
  (fuel_of (pending m) <= fuel)%nat ->
  forall t c, (t, c) ∈ pending (run_timers fuel T m) -> T < t.
Proof.
  revert m. induction fuel as [|fuel IH]; intros m Hf; cbn [run_timers].
  - destruct (pending m) as [|[d c] l] eqn:E;
      [intros t c Hin; by apply elem_of_nil in Hin|].
    unfold fuel_of in Hf. cbn in Hf. destruct c; cbn in Hf; lia.
  - destruct (next_due (pending m)) as [[[d c] rest]|] eqn:Hn.
    + destruct (Z.leb_spec d T) as [Hd|Hd].
      * apply IH. rewrite (fuel_of_next _ _ _ Hn) in Hf.
        pose proof (fuel_fire c d rest (set_clock (Z.max (clock m) d) m)) as H.
        lia.
      * intros t c' Hin.
        pose proof (next_due_min _ _ _ _ Hn Hin) as Hm. cbn in Hm. lia.
    + apply next_due_none in Hn. intros t c Hin. rewrite Hn in Hin.
      by apply elem_of_nil in Hin.
Qed.

Lemma advance_settled dt m : settled (advance dt m).
Proof.
  unfold advance. cbv zeta. intros t c Hin.
  change (clock (set_clock ?T _)) with T.
  by apply (run_timers_empties (fuel_of (pending m)) _ m (le_n _) t c).
Qed.

Lemma settled_calm m : settled m -> calm m.
Proof. intros S t h Hin. apply (S _ _ Hin). Qed.

Lemma wf_set_clock T m : wf m -> clock m <= T -> wf (set_clock T m).
Proof.
  intros [W1 W2 W3] Hc. split; [done| |].
  - intros t h Hin. specialize (W2 t h Hin). cbn. lia.
  - intros h Hc'. destruct (W3 h Hc') as (t & Hin & Hle & Hnc). exists t.
    split; [done|]. split; [done|]. intros Ho. specialize (Hnc Ho). cbn. lia.
Qed.

Lemma advance_wf dt m : wf m -> wf (advance dt m) /\ calm (advance dt m).
Proof.
  intros W. split; [|apply settled_calm, advance_settled].
  unfold advance. cbv zeta. apply wf_set_clock; [by apply run_timers_wf|].
  apply run_timers_clock. lia.
Qed.

(** The marker of a window outlives every callback due before its own
    removal. *)
Lemma run_timers_keeps fuel T D h m :
  T < D -> closing_until D h m -> closing_until D h (run_timers fuel T m).
Proof.
  intros HT. revert m.
  induction fuel as [|fuel IH]; intros m CU; cbn [run_timers]; [done|].
  destruct (next_due (pending m)) as [[[d c] rest]|] eqn:Hn; [|done].
  destruct (Z.leb_spec d T) as [Hd|Hd]; [|done]. apply IH.
  destruct CU as [C1 C2].
  set (m0 := set_pending rest (set_clock (Z.max (clock m) d) m)).
  assert (closing_until D h m0) as CU0.
  { split; [done|]. intros t Hin. apply C2.
    apply (next_due_elem _ _ _ _ Hn). by right. }
  destruct c as [id|h0|h0 k|ws]; cbn [fire]; try done.
  - assert (h0 <> h) as Hne.
    { intros ->. assert (D <= d); [|lia]. apply C2.
      apply (next_due_elem _ _ _ _ Hn). by left. }
    split; [|apply CU0]. cbn. apply elem_of_difference. split; [done|].
    intros ?%elem_of_singleton. congruence.
  - eapply closing_until_same_core; [|done].
    apply (sc_foldl reset_step), sc_reset_step.
Qed.

Lemma advance_keeps dt D h m :
  clock m + Z.max 0 dt < D ->
  closing_until D h m -> closing_until D h (advance dt m).
Proof.
  intros HT CU. unfold advance. cbv zeta.
  by apply (run_timers_keeps (fuel_of (pending m)) _ D h m HT) in CU.
Qed.

(** ** Runs *)

Lemma handle_event_wf ev m :
  wf m /\ calm m -> wf (handle_event ev m) /\ calm (handle_event ev m).
Proof.
  intros [W C].
  assert (forall m', same_core m m' -> wf m' /\ calm m') as Same.
  { intros m' S. split; [by apply (wf_same_core _ _ S)|
                         by apply (calm_same_core _ _ S)]. }
  destruct ev as [dt|p|oh n v d|n v|b|h|h|h| |]; cbn [handle_event].
  - by apply advance_wf.
  - apply Same, sc_set_page.
  - by apply playForWindow_wf.
  - apply Same, sc_play.
  - apply Same, sc_set_enabled.
  - case_match; [|done]. by apply playForWindow_wf.
  - case_match; [|done]. unfold maximize_click.
    case_match; by apply playForWindow_wf.
  - case_match; [|done]. by apply playForWindow_wf.
  - case_match; [|done]. apply Same, sc_play.
  - case_match; [|done]. apply Same, sc_play.
Qed.

Lemma new_manager_wf p : wf (new_manager p) /\ calm (new_manager p).
Proof.
  split; [split|].
  - intros h. cbn. by rewrite bool_decide_eq_false_2.
  - intros t h Hin. by apply elem_of_nil in Hin.
  - intros h Hc. discriminate.
  - intros t h Hin. by apply elem_of_nil in Hin.
Qed.

Lemma sc_setup m : same_core m (setupWindowEventHandlers m).
Proof.
  unfold setupWindowEventHandlers. case_match; sc.
  apply (sc_foldl mark_initial), sc_mark_initial.
Qed.

Lemma loaded_wf p : wf (loaded p) /\ calm (loaded p).
Proof.
  destruct (new_manager_wf p) as [W C]. unfold loaded. cbv zeta.
  case_match; [done|].
  assert (same_core (new_manager p)
            (fst (play "startup" 0.7 (setupWindowEventHandlers (new_manager p)))))
    as S.
  { eapply same_core_trans; [apply sc_setup|apply sc_play]. }
  split; [by apply (wf_same_core _ _ S)|by apply (calm_same_core _ _ S)].
Qed.

Lemma run_wf evs m : wf m /\ calm m -> wf (run evs m) /\ calm (run evs m).
Proof.
  revert m. induction evs as [|ev evs IH]; intros m I; [done|].
  apply IH. by apply handle_event_wf.
Qed.

Lemma reachable_wf p evs :
  wf (run evs (loaded p)) /\ calm (run evs (loaded p)).
Proof. apply run_wf, loaded_wf. Qed.

Lemma waited_nonneg evs : 0 <= waited evs.
Proof. unfold waited. induction evs as [|[] ? ?]; cbn; lia. Qed.

Lemma handle_event_keeps D h ev m :
  closing_until D h m -> clock m + waited [ev] < D ->
  closing_until D h (handle_event ev m) /\
  clock (handle_event ev m) = clock m + waited [ev].
Proof.
  intros CU HT.
  destruct ev as [dt|p|oh n v d|n v|b|h'|h'|h'| |]; cbn [handle_event];
    cbn [waited foldr] in *; rewrite ?Z.add_0_r in *.
  - split; [by apply advance_keeps|done].
  - done.
  - split; [by apply playForWindow_keeps|apply clock_playForWindow].
  - split; [|apply clock_play].
    eapply closing_until_same_core; [apply sc_play|done].
  - done.
  - case_match; [|done].
    split; [by apply playForWindow_keeps|apply clock_playForWindow].
  - case_match; [|done]. unfold maximize_click. case_match;
      (split; [by apply playForWindow_keeps|apply clock_playForWindow]).
  - case_match; [|done].
    split; [by apply playForWindow_keeps|apply clock_playForWindow].
  - case_match; [|done]. split; [|apply clock_play].
    eapply closing_until_same_core; [apply sc_play|done].
  - case_match; [|done]. split; [|apply clock_play].
    eapply closing_until_same_core; [apply sc_play|done].
Qed.

Lemma run_keeps D h evs m :
  closing_until D h m -> clock m + waited evs < D ->
  closing_until D h (run evs m).
Proof.
  revert m. induction evs as [|ev evs IH]; intros m CU HT; [done|].
  cbn [run foldl]. pose proof (waited_nonneg evs) as Hpos.
  assert (waited (ev :: evs) = waited [ev] + waited evs) as E.
  { unfold waited. cbn. destruct ev; lia. }
  destruct (handle_event_keeps D h ev m CU) as [CU' Hc]; [lia|].
  apply IH; [done|lia].
Qed.

(** ** What a request hands to [play] *)

Lemma play_frame n v m m' :
  page m' = page m -> enabled m' = enabled m ->
  snd (play n v m') = snd (play n v m) /\
  page (fst (play n v m')) = page (fst (play n v m)).
Proof.
  intros Ep Ee. unfold play, on_page. rewrite Ep, Ee.
  repeat case_match; cbn [fst snd]; done.
Qed.

Lemma page_addActiveWindow id m : page (addActiveWindow id m) = page m.
Proof. unfold addActiveWindow. by case_match. Qed.

Lemma close_request_reaches_play h n v d m' :
  is_close_name n = true ->
  snd (play_and_mark h n v d m') = snd (play n v m') /\
  page (fst (play_and_mark h n v d m')) = page (fst (play n v m')).
Proof.
  intros Hn. unfold play_and_mark. cbv zeta. rewrite Hn, andb_false_r.
  cbn [fst snd]. split; [done|].
  change (page (add_timer ?d ?c (setWindowState ?h ?k ?b ?x))) with (page x).
  apply page_addActiveWindow.
Qed.

Lemma page_close_gate h n m : page (fst (close_gate h n m)) = page m.
Proof.
  unfold close_gate, markWindowClosing. cbv zeta.
  repeat case_match; reflexivity.
Qed.

Lemma open_request h n v d m :
  wf m -> calm m -> is_close_name n = true -> isWindowClosing h m = false ->
  snd (playForWindow (Some h) n v d m) = snd (play n v m) /\
  page (fst (playForWindow (Some h) n v d m)) = page (fst (play n v m)) /\
  clock (fst (playForWindow (Some h) n v d m)) = clock m /\
  closing_until (clock m + 1500) h (fst (playForWindow (Some h) n v d m)).
Proof.
  intros W C Hn O.
  destruct (close_gate_open h n m W C O) as (R & _ & _ & CU & Ep & Ee & Ec).
  pose proof (clock_playForWindow (Some h) n v d m) as Hc.
  cbn [playForWindow] in *. cbv zeta in *. rewrite Hn, R in *. cbn [negb] in *.
  destruct (close_request_reaches_play h n v d (fst (close_gate h n m)) Hn)
    as [E1 E2].
  destruct (play_frame n v m (fst (close_gate h n m)) Ep Ee) as [F1 F2].
  split; [congruence|]. split; [congruence|]. split; [done|].
  eapply closing_until_same_core; [apply sc_play_and_mark|done].
Qed.

Lemma closed_request h n v d m :
  is_close_name n = true -> isWindowClosing h m = true ->
  snd (playForWindow (Some h) n v d m) = false /\
  page (fst (playForWindow (Some h) n v d m)) = page m.
Proof.
  intros Hn O. destruct (close_gate_closed h n m O) as [R _].
  cbn [playForWindow]. cbv zeta. rewrite Hn, R. cbn [negb fst snd].
  split; [done|apply page_close_gate].
Qed.

Lemma count_pos p (l : list (Z * callback)) :
  count p l <> 0%nat -> exists x, x ∈ l /\ p x = true.
Proof.
  unfold count. induction l as [|y l IH]; cbn; [done|].
  destruct (p y) eqn:E.
  - intros _. exists y. split; [apply elem_of_cons; by left|done].
  - intros H. destruct (IH H) as (x & Hin & Hp). exists x.
    split; [apply elem_of_cons; by right|done].
Qed.

Lemma advance_reopens dt h m :
  wf m -> 1500 <= dt -> isWindowClosing h (advance dt m) = false.
Proof.
  intros W Hdt. destruct (advance_wf dt m W) as [W' _].
  pose proof (advance_settled dt m) as S.
  apply bool_decide_eq_false. intros Hin.
  pose proof (wf_closing _ W' h) as Hc.
  rewrite bool_decide_eq_true_2 in Hc by done.
  destruct (count_pos (is_dc h) (pending (advance dt m))) as ([t c] & Hx & Hp);
    [lia|].
  apply is_dc_true in Hp as ->.
  pose proof (S _ _ Hx) as Hlate.
  unfold advance in Hx, Hlate. cbv zeta in *.
  change (clock (set_clock ?T _)) with T in Hlate.
  change (pending (set_clock ?T ?x)) with (pending x) in Hx.
  apply run_timers_dc in Hx. pose proof (wf_due _ W _ _ Hx). lia.
Qed.

(** ** The theorems *)

(** X17.  In every state the bundled sound manager can reach, a window
    whose 'criticalSoundPlayed' entry is set also carries the closing
    marker: the entry is set only together with the marker, and its reset
    is due no later than the marker's removal.  So whenever the "critical
    already played" test of [playForWindow] could suppress a 'windowClose',
    the closing test before it has already returned. *)
Theorem critical_entry_implies_closing_marker p evs h :
  let m := run evs (loaded p) in
  critical_marked h m = true -> isWindowClosing h m = true.
Proof.
  intros m Hc. destruct (reachable_wf p evs) as [W C]. fold m in W, C.
  destruct (isWindowClosing h m) eqn:O; [done|].
  by rewrite (not_marked_when_open h m W C O) in Hc.
Qed.

Lemma critical_entry_implies_closing_marker_witness :
  let p := Sound.page true [("wmp-window", ["window"], "")] never_throws in
  let m := run [Call (Some 0%nat) "critical" 0.6 1500; Wait 700] (loaded p) in
  critical_marked 0%nat m = true /\ isWindowClosing 0%nat m = true.
Proof.
  split; [vm_compute; reflexivity|].
  apply (critical_entry_implies_closing_marker
           (Sound.page true [("wmp-window", ["window"], "")] never_throws)
           [Call (Some 0%nat) "critical" 0.6 1500; Wait 700] 0%nat).
  vm_compute. reflexivity.
Defined.

(** X18.  In every state the bundled sound manager can reach, a close
    request ('windowClose' or 'critical') for a window that does not carry
    the closing marker is handed to [play]; and whatever happens on the
    page during less than 1500ms after it, a further close request for the
    same window returns [false] and starts no sound. *)
Theorem bundled_close_sound_once p evs h n v d evs' n' v' d' :
  let m := run evs (loaded p) in
  let r := playForWindow (Some h) n v d m in
  let m2 := run evs' (fst r) in
  is_close_name n = true -> is_close_name n' = true ->
  isWindowClosing h m = false -> waited evs' < 1500 ->
  snd r = snd (play n v m) /\
  page (fst r) = page (fst (play n v m)) /\
  snd (playForWindow (Some h) n' v' d' m2) = false /\
  page (fst (playForWindow (Some h) n' v' d' m2)) = page m2.
Proof.
  intros m r m2 Hn Hn' O Hw.
  destruct (reachable_wf p evs) as [W C]. fold m in W, C.
  destruct (open_request h n v d m W C Hn O) as (R & P & Hc & CU).
  fold r in R, P, Hc, CU. split; [done|]. split; [done|].
  assert (closing_until (clock m + 1500) h m2) as [In _].
  { apply run_keeps; [done|lia]. }
  apply closed_request; [done|]. by apply bool_decide_eq_true.
Qed.

Lemma bundled_close_sound_once_witness :
  let p := Sound.page false [("wmp-window", ["window"], "")] never_throws in
  let m := run [Wait 5000] (loaded p) in
  let r := playForWindow (Some 0%nat) "windowClose" 0.6 1500 m in
  let m2 := run [Wait 400; MinimizeClick 0%nat; Wait 1000] (fst r) in
  snd r = snd (play "windowClose" 0.6 m) /\
  page (fst r) = page (fst (play "windowClose" 0.6 m)) /\
  snd (playForWindow (Some 0%nat) "critical" 0.6 1500 m2) = false /\
  page (fst (playForWindow (Some 0%nat) "critical" 0.6 1500 m2)) = page m2.
Proof.
  apply (bundled_close_sound_once
           (Sound.page false [("wmp-window", ["window"], "")] never_throws)
           [Wait 5000] 0%nat "windowClose" 0.6 1500
           [Wait 400; MinimizeClick 0%nat; Wait 1000] "critical" 0.6 1500).
  - reflexivity.
  - reflexivity.
  - vm_compute. reflexivity.
  - vm_compute. reflexivity.
Defined.

(** X19.  In every state the bundled sound manager can reach, once 1500ms
    have passed no window carries the closing marker or a
    'criticalSoundPlayed' entry any more, so a close request is handed to
    [play] again. *)
Theorem bundled_close_gate_reopens p evs dt h n v d :
  let m := advance dt (run evs (loaded p)) in
  1500 <= dt -> is_close_name n = true ->
  isWindowClosing h m = false /\ critical_marked h m = false /\
  snd (playForWindow (Some h) n v d m) = snd (play n v m) /\
  page (fst (playForWindow (Some h) n v d m)) = page (fst (play n v m)).
Proof.
  intros m Hdt Hn. destruct (reachable_wf p evs) as [W C].
  destruct (advance_wf dt _ W) as [W' C']. fold m in W', C'.
  pose proof (advance_reopens dt h _ W Hdt) as O. fold m in O.
  split; [done|]. split; [by apply not_marked_when_open|].
  destruct (open_request h n v d m W' C' Hn O) as (R & P & _). done.
Qed.

Lemma bundled_close_gate_reopens_witness :
  let p := Sound.page false [("wmp-window", ["window"], "")] never_throws in
  let m := advance 1500 (run [CloseClick 0%nat; Wait 200;
                               Call (Some 0%nat) "critical" 0.6 1500]
                              (loaded p)) in
  isWindowClosing 0%nat m = false /\ critical_marked 0%nat m = false /\
  snd (playForWindow (Some 0%nat) "windowClose" 0.6 1500 m)
  = snd (play "windowClose" 0.6 m) /\
  page (fst (playForWindow (Some 0%nat) "windowClose" 0.6 1500 m))
  = page (fst (play "windowClose" 0.6 m)).
Proof.
  apply (bundled_close_gate_reopens
           (Sound.page false [("wmp-window", ["window"], "")] never_throws)
           [CloseClick 0%nat; Wait 200; Call (Some 0%nat) "critical" 0.6 1500]
           1500 0%nat "windowClose" 0.6 1500).
  - lia.
  - reflexivity.
Defined.

End VizSoundFacts.

(* ===================================================================== *)
(** * Part XV: properties of the start of the visualizer                 *)
(* ===================================================================== *)

Module StartupFacts.
Import Startup.

Lemma try_fallbacks_spec net urls :
  match snd (try_fallbacks net urls) with
  | Some (Some t) =>
      exists pre u post,
        urls = (pre ++ u :: post)%list /\ Forall (failed net) pre /\
        net u = Loaded /\ t = Image u /\
        fst (try_fallbacks net urls) = (pre ++ [u])%list
  | Some None =>
      Forall (failed net) urls /\ fst (try_fallbacks net urls) = urls
  | None =>
      exists pre u post,
        urls = (pre ++ u :: post)%list /\ Forall (failed net) pre /\
        net u = Pending /\
        fst (try_fallbacks net urls) = (pre ++ [u])%list
  end.
Proof.
  induction urls as [|u urls IH]; cbn [try_fallbacks fst snd]; [done|].
  destruct (net u) eqn:E; cbn [fst snd].
  - by exists [], u, urls.
  - destruct (snd (try_fallbacks net urls)) as [[t|]|].
    + destruct IH as (pre & u' & post & -> & F & L & -> & R).
      exists (u :: pre), u', post. rewrite R.
      split; [done|]. split; [by constructor|done].
    + destruct IH as [F R]. rewrite R. split; [by constructor|done].
    + destruct IH as (pre & u' & post & -> & F & L & R).
      exists (u :: pre), u', post. rewrite R.
      split; [done|]. split; [by constructor|done].
  - by exists [], u, urls.
Qed.

(** X20.  [setupScene] asks for the wallpaper at 'shaders/bliss.jpg' and
    then at the two fallback URLs, in this order, and stops at the first
    request that does not fail: the texture is the first image that loads,
    every URL before it was requested and failed, and no URL after it is
    requested.  The canvas gradient is used exactly when all three requests
    failed; and while the first request that does not fail stays pending,
    [setupScene] never gets a texture. *)
Theorem texture_is_first_that_loads net :
  let urls := blissImageUrl :: fallbackUrls in
  match snd (load_texture net) with
  | Some (Image u) =>
      exists pre post,
        urls = (pre ++ u :: post)%list /\ Forall (failed net) pre /\
        net u = Loaded /\ fst (load_texture net) = (pre ++ [u])%list
  | Some Canvas =>
      Forall (failed net) urls /\ fst (load_texture net) = urls
  | None =>
      exists pre u post,
        urls = (pre ++ u :: post)%list /\ Forall (failed net) pre /\
        net u = Pending /\ fst (load_texture net) = (pre ++ [u])%list
  end.
Proof.
  cbv zeta. unfold load_texture.
  destruct (net blissImageUrl) eqn:E; cbn [fst snd].
  - by exists [], fallbackUrls.
  - pose proof (try_fallbacks_spec net fallbackUrls) as H.
    destruct (snd (try_fallbacks net fallbackUrls)) as [[t|]|].
    + destruct H as (pre & u & post & Hu & F & L & -> & R).
      exists (blissImageUrl :: pre), post. rewrite R, Hu.
      split; [done|]. split; [by constructor|done].
    + destruct H as [F R]. rewrite R. split; [by constructor|done].
    + destruct H as (pre & u & post & Hu & F & L & R).
      exists (blissImageUrl :: pre), u, post. rewrite R, Hu.
      split; [done|]. split; [by constructor|done].
  - by exists [], blissImageUrl, fallbackUrls.
Qed.

Lemma setupScene_completes net shaders :
  snd (setupScene net shaders) = None <->
  snd (load_texture net) = None \/ shaders = Pending.
Proof.
  unfold setupScene, loadShader. cbn [snd].
  destruct (snd (load_texture net)) as [t|]; [|by split; [left|]].
  destruct shaders; split; try done; try (by right).
  - by intros [?|?].
  - by intros [?|?].
Qed.

(** X21.  The visualizer starts only when [setupScene] completes (no
    texture request and no shader fetch stays pending); and then the
    [.then] chain of the constructor reaches [animate] exactly when the
    page has '.title-bar', '.btn-visualization', '.btn-fullscreen' and
    '#taskbar-time'.  Otherwise the chain stops at the first of these that
    is missing, the error is logged, and neither the animation nor the
    modal visualizer nor the clock interval exists, although the handlers
    installed before that point stay. *)
Theorem visualizer_starts_iff net shaders p :
  match start net shaders p with
  | None => snd (load_texture net) = None \/ shaders = Pending
  | Some log =>
      happened Animating log
      = title_bar p && btn_visualization p && btn_fullscreen p
        && taskbar_time p /\
      happened LoggedError log = negb (happened Animating log) /\
      happened LoggedSuccess log = happened Animating log /\
      happened ModalCreated log = happened Animating log && modal_canvas p /\
      happened ClockInterval log = happened Animating log /\
      happened MessageListener log = true /\
      happened DragListeners log = title_bar p /\
      happened StyleButton log = title_bar p && btn_visualization p
  end.
Proof.
  unfold start.
  destruct (snd (setupScene net shaders)) as [m|] eqn:E.
  - destruct p as [[] [] [] [] [] []]; vm_compute; done.
  - by apply setupScene_completes.
Qed.

End StartupFacts.

(* ===================================================================== *)
(** * Part XVI: properties of the sound download script                  *)
(* ===================================================================== *)

Module FetchSoundsFacts.
Import FetchSounds.

Section Script.
Variable write_throws : string -> bool.

Lemma downloadSound_keeps name d f c :
  d !! f = Some c -> downloadSound write_throws name d !! f = Some c.
Proof.
  intros H. unfold downloadSound.
  destruct (d !! fileName name) eqn:E; [done|].
  case_match; [done|].
  rewrite lookup_insert_ne; [done|]. intros <-. congruence.
Qed.

Lemma download_list_keeps l d f c :
  d !! f = Some c ->
  foldl (fun d name => downloadSound write_throws name d) d l !! f = Some c.
Proof.
  revert d. induction l as [|n l IH]; intros d H; cbn [foldl]; [done|].
  by apply IH, downloadSound_keeps.
Qed.

Lemma downloadSound_tried name d : tried write_throws (downloadSound write_throws name d) name.
Proof.
  unfold tried, downloadSound.
  destruct (d !! fileName name) eqn:E; [left; by rewrite E|].
  case_match; [by right|]. left. by rewrite lookup_insert_eq.
Qed.

Lemma tried_keeps name name' d :
  tried write_throws d name ->
  tried write_throws (downloadSound write_throws name' d) name.
Proof.
  intros [[c H]|H]; [left|by right].
  exists c. by apply downloadSound_keeps.
Qed.

Lemma downloadSound_done name d :
  tried write_throws d name -> downloadSound write_throws name d = d.
Proof.
  intros [[c H]|H]; unfold downloadSound.
  - by rewrite H.
  - destruct (d !! fileName name); [done|]. by rewrite H.
Qed.

Lemma download_list_tried l d :
  Forall (tried write_throws
            (foldl (fun d name => downloadSound write_throws name d) d l)) l.
Proof.
  revert d. induction l as [|n l IH]; intros d; cbn [foldl]; [done|].
  constructor; [|apply IH].
  assert (forall l d,
            tried write_throws d n ->
            tried write_throws
              (foldl (fun d name => downloadSound write_throws name d) d l) n)
    as K.
  { clear. intros l. induction l as [|n' l IH]; intros d H; cbn [foldl]; [done|].
    by apply IH, tried_keeps. }
  apply K, downloadSound_tried.
Qed.

Lemma download_list_done l d :
  Forall (tried write_throws d) l ->
  foldl (fun d name => downloadSound write_throws name d) d l = d.
Proof.
  induction 1 as [|n l Hn Hl IH]; cbn [foldl]; [done|].
  by rewrite downloadSound_done.
Qed.

Lemma download_list_new l d name :
  name ∈ l -> d !! fileName name = None ->
  write_throws (fileName name) = false ->
  foldl (fun d name => downloadSound write_throws name d) d l !! fileName name
  = Some placeholder.
Proof.
  revert d. induction l as [|n l IH]; intros d Hin Hd Hw; cbn [foldl].
  - by apply elem_of_nil in Hin.
  - destruct (decide (fileName n = fileName name)) as [E|Hne].
    + apply download_list_keeps. unfold downloadSound. rewrite E, Hd, Hw.
      by rewrite lookup_insert_eq.
    + apply elem_of_cons in Hin as [->|Hin]; [by destruct Hne|].
      apply IH; [done| |done].
      unfold downloadSound. destruct (d !! fileName n); [done|].
      case_match; [done|]. by rewrite lookup_insert_ne.
Qed.

(** X22.  Running the download script never changes a sound file that
    is already there, whichever writes fail: a file of the directory other
    than README.md has the same content after the run.  And running the
    script a second time changes nothing at all. *)
Theorem rerun_is_harmless d :
  (forall f c, f <> readme -> d !! f = Some c ->
               main write_throws d !! f = Some c) /\
  main write_throws (main write_throws d) = main write_throws d.
Proof.
  unfold main, createReadme. split.
  - intros f c Hf H. destruct (write_throws readme); [done|].
    apply download_list_keeps. by rewrite lookup_insert_ne.
  - destruct (write_throws readme) eqn:E; [done|].
    unfold downloadAllSounds.
    set (d1 := foldl _ (<[readme:=readmeContent]> d) sounds).
    assert (d1 !! readme = Some readmeContent) as R.
    { apply download_list_keeps. by rewrite lookup_insert_eq. }
    rewrite (insert_id _ _ _ R).
    apply download_list_done, download_list_tried.
Qed.

Lemma fileName_not_readme name : fileName name <> readme.
Proof.
  unfold fileName, readme. intros E.
  repeat (destruct name as [|? name]; cbn in E; [discriminate E|];
          injection E as _ E).
  destruct name; discriminate.
Qed.

(** X23.  When the README can be written, the script leaves a file
    [name.mp3] for every sound of its list whose file could be written or
    was already there; a file it had to create holds the placeholder
    text. *)
Theorem every_sound_gets_a_file d name :
  write_throws readme = false -> name ∈ sounds ->
  write_throws (fileName name) = false ->
  is_Some (main write_throws d !! fileName name) /\
  (d !! fileName name = None ->
   main write_throws d !! fileName name = Some placeholder).
Proof.
  intros Hr Hin Hw. unfold main, createReadme. rewrite Hr.
  pose proof (fileName_not_readme name) as Hne.
  destruct (d !! fileName name) as [c|] eqn:Hd.
  - split; [|done]. exists c. apply download_list_keeps.
    by rewrite lookup_insert_ne.
  - assert (downloadAllSounds write_throws (<[readme:=readmeContent]> d)
              !! fileName name = Some placeholder) as H.
    { apply download_list_new; [done| |done]. by rewrite lookup_insert_ne. }
    rewrite H. split; [by eexists|done].
Qed.

End Script.

Lemma every_sound_gets_a_file_witness :
  is_Some (main (fun _ => false) ∅ !! fileName "tada") /\
  ((∅ : Dir) !! fileName "tada" = None ->
   main (fun _ => false) ∅ !! fileName "tada" = Some placeholder).
Proof.
  apply (every_sound_gets_a_file (fun _ => false) ∅ "tada").
  - reflexivity.
  - unfold sounds. set_solver.
  - reflexivity.
Defined.

End FetchSoundsFacts.
